(** * Liquid Radio: the station registry, its persistence and its editor

    A shallow embedding of [src/js/app.js] (the application object: startup
    reconciliation in [beforeMount], [switchStation], the watcher that mirrors
    the registry to [localStorage]) and of [src/js/StationEditor.js] (the
    add / save / delete handlers of the editor dialog).

    [Station.js] and [Util.js] are imported by both files but are not part of
    the sources at hand; what the two files use of them is modelled from the
    specification and marked as such. The player, the visualizer, the
    notification bar, the share dialog and [document.title] hold no state of
    the registry and are left out; of the player only the reload that
    [switchStation] queues is kept. *)

From Stdlib Require Import ZArith String Ascii List Bool Lia.
From stdpp Require Import base option list gmap strings.

Local Open Scope string_scope.
Local Open Scope Z_scope.

(** ** Errors and results *)

(** The errors the code throws. A JavaScript [Error] carries a message; an
    error here stands for its message, which is what the editor displays. *)
Inductive Error : Type :=
| InvalidId                         (* Station: the id is empty *)
| InvalidTitle                      (* Station: the title is empty *)
| InvalidSource                     (* Station: no source, or a source without src *)
| DuplicateStation (id : string)    (* Util.addStation: the id is taken *)
| UnknownStation (id : string)      (* switchStation: "Attempted to switch to station with invalid station id ${id}" *)
| InvalidOpen                       (* open: "StationEditor: Open called with invalid station id" *)
| TypeError (what : string).        (* the engine's own: a property read of undefined, a call of a non-function *)

Inductive result (A : Type) : Type :=
| Ok (a : A)
| Throw (e : Error).
Arguments Ok {A} a.
Arguments Throw {A} e.

Definition is_Ok {A} (r : result A) : bool :=
  match r with Ok _ => true | Throw _ => false end.

(** ** Strings *)

(** [s.replace(pat, rep)] for a pattern and a replacement of one character:
    JavaScript's [replace] with a string pattern rewrites the first occurrence
    only. *)
Fixpoint replace (pat rep : ascii) (s : string) : string :=
  match s with
  | EmptyString => EmptyString
  | String c r => if Ascii.eqb c pat then String rep r else String c (replace pat rep r)
  end.

Definition lower_char (c : ascii) : ascii :=
  let n := nat_of_ascii c in
  if ((65 <=? n) && (n <=? 90))%nat then ascii_of_nat (n + 32) else c.

(** [s.toLowerCase()] on ASCII text: the letters A to Z are lowered. The
    bytes of other characters are kept, where JavaScript lowers every cased
    letter; what is stated of an id derived with this function is stated of
    ASCII titles, and of every title with the engine's function as a
    parameter ([StationEditor.addStation_by]). *)
Fixpoint toLowerCase (s : string) : string :=
  match s with
  | EmptyString => EmptyString
  | String c r => String (lower_char c) (toLowerCase r)
  end.

Definition is_empty (s : string) : bool :=
  match s with EmptyString => true | _ => false end.

(** ** JSON values, [JSON.parse] and [JSON.stringify] *)

#[local] Set Warnings "-register-all".
Inductive Json : Type :=
| JNull
| JBool (b : bool)
| JNumber (literal : string)
| JString (s : string)
| JArray (elements : list Json)
| JObject (members : list (string * Json)).
#[local] Set Warnings "register-all".

Definition dquote : ascii := ascii_of_nat 34.

Definition is_ws (c : ascii) : bool :=
  let n := nat_of_ascii c in
  ((n =? 32) || (n =? 9) || (n =? 10) || (n =? 13))%nat.

Fixpoint skip_ws (s : string) : string :=
  match s with
  | String c r => if is_ws c then skip_ws r else s
  | EmptyString => s
  end.

Definition is_digit (c : ascii) : bool :=
  let n := nat_of_ascii c in ((48 <=? n) && (n <=? 57))%nat.

Definition hex_value (c : ascii) : option nat :=
  let n := nat_of_ascii c in
  if ((48 <=? n) && (n <=? 57))%nat then Some (n - 48)%nat
  else if ((97 <=? n) && (n <=? 102))%nat then Some (n - 87)%nat
  else if ((65 <=? n) && (n <=? 70))%nat then Some (n - 55)%nat
  else None.

(** The strings of the model are the UTF-8 bytes of the text. The bytes of
    the character of code [n]; a surrogate that stands alone, which a
    JavaScript string can hold, is written like a character of three
    bytes. *)
Definition utf8 (n : N) : string :=
  let byte (k : N) := ascii_of_N k in
  (if n <? 128 then String (byte n) EmptyString
   else if n <? 2048 then
     String (byte (192 + n / 64)) (String (byte (128 + n mod 64)) EmptyString)
   else if n <? 65536 then
     String (byte (224 + n / 4096))
       (String (byte (128 + (n / 64) mod 64))
          (String (byte (128 + n mod 64)) EmptyString))
   else
     String (byte (240 + n / 262144))
       (String (byte (128 + (n / 4096) mod 64))
          (String (byte (128 + (n / 64) mod 64))
             (String (byte (128 + n mod 64)) EmptyString))))%N.

(** The code unit of the four hexadecimal digits of an escape. *)
Definition code_unit (h1 h2 h3 h4 : ascii) : option N :=
  match hex_value h1, hex_value h2, hex_value h3, hex_value h4 with
  | Some a, Some b, Some c, Some d =>
    Some (((N.of_nat a * 16 + N.of_nat b) * 16 + N.of_nat c) * 16 + N.of_nat d)%N
  | _, _, _, _ => None
  end.

Definition high_surrogate (n : N) : bool := ((55296 <=? n) && (n <? 56320))%N.
Definition low_surrogate (n : N) : bool := ((56320 <=? n) && (n <? 57344))%N.

(** The character of a surrogate pair. *)
Definition pair_code (high low : N) : N := (65536 + (high - 55296) * 1024 + (low - 56320))%N.

(** A string literal, read from just after its opening quote: the decoded
    text and the input after the closing quote. An escaped high surrogate
    followed by an escaped low surrogate is one character. *)
Fixpoint parse_chars (s : string) : option (string * string) :=
  match s with
  | EmptyString => None
  | String c r =>
    if Ascii.eqb c dquote then Some (EmptyString, r)
    else if Ascii.eqb c "\" then
      match r with
      | EmptyString => None
      | String e r' =>
        let plain (x : ascii) :=
          match parse_chars r' with
          | Some (t, rest) => Some (String x t, rest)
          | None => None
          end in
        if Ascii.eqb e dquote then plain dquote
        else if Ascii.eqb e "\" then plain "\"%char
        else if Ascii.eqb e "/" then plain "/"%char
        else if Ascii.eqb e "b" then plain (ascii_of_nat 8)
        else if Ascii.eqb e "f" then plain (ascii_of_nat 12)
        else if Ascii.eqb e "n" then plain (ascii_of_nat 10)
        else if Ascii.eqb e "r" then plain (ascii_of_nat 13)
        else if Ascii.eqb e "t" then plain (ascii_of_nat 9)
        else if Ascii.eqb e "u" then
          match r' with
          | String h1 (String h2 (String h3 (String h4 r''))) =>
            match code_unit h1 h2 h3 h4 with
            | Some n =>
              let single :=
                match parse_chars r'' with
                | Some (t, rest) => Some (utf8 n ++ t, rest)
                | None => None
                end in
              if high_surrogate n then
                match r'' with
                | String "\" (String "u" (String g1 (String g2 (String g3 (String g4 r3))))) =>
                  match code_unit g1 g2 g3 g4 with
                  | Some m =>
                    if low_surrogate m then
                      match parse_chars r3 with
                      | Some (t, rest) => Some (utf8 (pair_code n m) ++ t, rest)
                      | None => None
                      end
                    else single
                  | None => single
                  end
                | _ => single
                end
              else single
            | None => None
            end
          | _ => None
          end
        else None
      end
    else if (nat_of_ascii c <? 32)%nat then None
    else
      match parse_chars r with
      | Some (t, rest) => Some (String c t, rest)
      | None => None
      end
  end.

Fixpoint span_digits (s : string) : string * string :=
  match s with
  | String c r =>
    if is_digit c then let '(d, rest) := span_digits r in (String c d, rest) else (EmptyString, s)
  | EmptyString => (EmptyString, s)
  end.

(** A number literal: an optional minus sign, an integer part without a
    leading zero, an optional fraction and an optional exponent. The literal
    is kept as it is written. *)
Definition parse_number (s : string) : option (string * string) :=
  let '(sign, s1) :=
    match s with
    | String "-" r => ("-", r)
    | _ => (EmptyString, s)
    end in
  let '(int, s2) := span_digits s1 in
  match int with
  | EmptyString => None
  | String "0" (String _ _) => None
  | _ =>
    let frac :=
      match s2 with
      | String "." r =>
        let '(d, rest) := span_digits r in
        if is_empty d then None else Some ("." ++ d, rest)
      | _ => Some (EmptyString, s2)
      end in
    match frac with
    | None => None
    | Some (f, s3) =>
      match s3 with
      | String e r =>
        if Ascii.eqb e "e" || Ascii.eqb e "E" then
          let '(esign, r1) :=
            match r with
            | String "+" r' => ("+", r')
            | String "-" r' => ("-", r')
            | _ => (EmptyString, r)
            end in
          let '(d, rest) := span_digits r1 in
          if is_empty d then None
          else Some (sign ++ int ++ f ++ String e EmptyString ++ esign ++ d, rest)
        else Some (sign ++ int ++ f, s3)
      | EmptyString => Some (sign ++ int ++ f, s3)
      end
    end
  end.

Fixpoint strip_prefix (p s : string) : option string :=
  match p, s with
  | EmptyString, _ => Some s
  | String a p', String b s' => if Ascii.eqb a b then strip_prefix p' s' else None
  | String _ _, EmptyString => None
  end.

(** A value, the elements of an array (read from after the bracket or a
    comma) and the members of an object (likewise). The fuel bounds the depth
    of the calls; each call has consumed a character. *)
Fixpoint parse_value (fuel : nat) (s : string) {struct fuel} : option (Json * string) :=
  match fuel with
  | O => None
  | S n =>
    match skip_ws s with
    | EmptyString => None
    | String c r as s' =>
      if Ascii.eqb c "n" then option_map (fun rest => (JNull, rest)) (strip_prefix "null" s')
      else if Ascii.eqb c "t" then option_map (fun rest => (JBool true, rest)) (strip_prefix "true" s')
      else if Ascii.eqb c "f" then option_map (fun rest => (JBool false, rest)) (strip_prefix "false" s')
      else if Ascii.eqb c dquote then
        option_map (fun '(t, rest) => (JString t, rest)) (parse_chars r)
      else if Ascii.eqb c "[" then
        match skip_ws r with
        | String "]" rest => Some (JArray [], rest)
        | _ => option_map (fun '(vs, rest) => (JArray vs, rest)) (parse_elements n r)
        end
      else if Ascii.eqb c "{" then
        match skip_ws r with
        | String "}" rest => Some (JObject [], rest)
        | _ => option_map (fun '(ms, rest) => (JObject ms, rest)) (parse_members n r)
        end
      else option_map (fun '(lit, rest) => (JNumber lit, rest)) (parse_number s')
    end
  end
with parse_elements (fuel : nat) (s : string) {struct fuel} : option (list Json * string) :=
  match fuel with
  | O => None
  | S n =>
    match parse_value n s with
    | None => None
    | Some (v, r) =>
      match skip_ws r with
      | String "," r' => option_map (fun '(vs, rest) => (v :: vs, rest)) (parse_elements n r')
      | String "]" rest => Some ([v], rest)
      | _ => None
      end
    end
  end
with parse_members (fuel : nat) (s : string) {struct fuel} : option (list (string * Json) * string) :=
  match fuel with
  | O => None
  | S n =>
    match skip_ws s with
    | String q r =>
      match (if Ascii.eqb q dquote then parse_chars r else None) with
      | None => None
      | Some (k, r1) =>
        match skip_ws r1 with
        | String ":" r2 =>
          match parse_value n r2 with
          | None => None
          | Some (v, r3) =>
            match skip_ws r3 with
            | String "," r4 => option_map (fun '(ms, rest) => ((k, v) :: ms, rest)) (parse_members n r4)
            | String "}" rest => Some ([(k, v)], rest)
            | _ => None
            end
          end
        | _ => None
        end
      end
    | _ => None
    end
  end.

(** [JSON.parse(text)]: [None] when it throws a SyntaxError. *)
Definition JSON_parse (text : string) : option Json :=
  match parse_value (2 * String.length text + 2) text with
  | Some (v, rest) => if is_empty (skip_ws rest) then Some v else None
  | None => None
  end.

Definition hex_digit (n : nat) : ascii :=
  if (n <? 10)%nat then ascii_of_nat (48 + n) else ascii_of_nat (87 + n).

Definition escape_char (c : ascii) : string :=
  let n := nat_of_ascii c in
  if Ascii.eqb c dquote then String "\" (String dquote EmptyString)
  else if Ascii.eqb c "\" then "\\"
  else if (n =? 8)%nat then "\b"
  else if (n =? 9)%nat then "\t"
  else if (n =? 10)%nat then "\n"
  else if (n =? 12)%nat then "\f"
  else if (n =? 13)%nat then "\r"
  else if (n <? 32)%nat then "\u00" ++ String (hex_digit (n / 16)) (String (hex_digit (n mod 16)) EmptyString)
  else String c EmptyString.

Fixpoint escape (s : string) : string :=
  match s with
  | EmptyString => EmptyString
  | String c r => escape_char c ++ escape r
  end.

Definition quoted (s : string) : string :=
  String dquote (escape s ++ String dquote EmptyString).

(** [JSON.stringify(value)], without indentation. *)
Fixpoint JSON_stringify (j : Json) : string :=
  match j with
  | JNull => "null"
  | JBool true => "true"
  | JBool false => "false"
  | JNumber lit => lit
  | JString s => quoted s
  | JArray vs =>
    "[" ++ (fix elements (l : list Json) : string :=
              match l with
              | [] => EmptyString
              | v :: r =>
                JSON_stringify v ++ match r with [] => EmptyString | _ => "," ++ elements r end
              end) vs ++ "]"
  | JObject ms =>
    "{" ++ (fix members (l : list (string * Json)) : string :=
              match l with
              | [] => EmptyString
              | (k, v) :: r =>
                quoted k ++ ":" ++ JSON_stringify v
                  ++ match r with [] => EmptyString | _ => "," ++ members r end
              end) ms ++ "}"
  end.

(** *** What [JSON.stringify] prints, for the proofs

    The text of the elements of an array and of the members of an object,
    as the two inner loops of [JSON_stringify] write them. *)
Fixpoint elements_text (l : list Json) : string :=
  match l with
  | [] => EmptyString
  | v :: r => JSON_stringify v ++ match r with [] => EmptyString | _ => "," ++ elements_text r end
  end.

Fixpoint members_text (l : list (string * Json)) : string :=
  match l with
  | [] => EmptyString
  | (k, v) :: r =>
    quoted k ++ ":" ++ JSON_stringify v
      ++ match r with [] => EmptyString | _ => "," ++ members_text r end
  end.

(** A value without numbers: strings, booleans, null, and arrays and objects
    of such. The records of the stations are of this kind. *)
Fixpoint textual (j : Json) : bool :=
  match j with
  | JNumber _ => false
  | JArray vs => forallb textual vs
  | JObject ms => forallb (fun m => textual (snd m)) ms
  | _ => true
  end.

(** The calls [parse_value] makes to read a value back: a bound on the fuel
    it needs. *)
Fixpoint weight (j : Json) : nat :=
  match j with
  | JArray vs => S (list_sum (map (fun v => S (weight v)) vs))
  | JObject ms => S (list_sum (map (fun m => S (weight (snd m))) ms))
  | _ => 1
  end.

Definition elements_weight (l : list Json) : nat := list_sum (map (fun v => S (weight v)) l).

Definition members_weight (l : list (string * Json)) : nat :=
  list_sum (map (fun m => S (weight (snd m))) l).

(** The first character of a printed value without numbers. *)
Definition starter (c : ascii) : Prop :=
  (c = "n" \/ c = "t" \/ c = "f" \/ c = dquote \/ c = "[" \/ c = "{")%char.

(** [value[key]] of a parsed object: the last member of that name, as
    [JSON.parse] keeps it; nothing for other values. *)
Definition member (key : string) (j : Json) : option Json :=
  match j with
  | JObject ms =>
    fold_left (fun found '(k, v) => if String.eqb k key then Some v else found) ms None
  | _ => None
  end.

Definition string_member (key : string) (j : Json) : string :=
  match member key j with
  | Some (JString s) => s
  | _ => EmptyString
  end.

(** ** Stations *)

(** One stream of a station: [{src, type}]. *)
Record Source : Type := { src : string; type : string }.

Definition Source_toJSON (s : Source) : Json :=
  JObject [("src", JString (src s)); ("type", JString (type s))].

Definition Source_fromJSON (j : Json) : Source :=
  {| src := string_member "src" j; type := string_member "type" j |}.

Module Station.

(** A Station object. [addr] is the identity of the object (its address):
    two objects with the same fields are still two objects. No code of the
    two files writes to a field of a Station once it is constructed, so an
    object is its address and its fields. *)
Record t : Type := mk {
  addr : nat;
  id : string;
  title : string;
  description : string;
  source : list Source
}.

Definition valid_source (l : list Source) : bool :=
  match l with
  | [] => false
  | _ => forallb (fun s => negb (is_empty (src s))) l
  end.

(** Modelled from the spec: the constructor of [Station.js], which is not
    among the sources. "Fails with InvalidId if id is empty. Fails with
    InvalidTitle if title is empty. Fails with InvalidSource if source is
    empty or any element has an empty src." The object is built at address
    [a]. *)
Definition new (a : nat) (id title description : string) (source : list Source) : result t :=
  if is_empty id then Throw InvalidId
  else if is_empty title then Throw InvalidTitle
  else if negb (valid_source source) then Throw InvalidSource
  else Ok (mk a id title description source).

(** Modelled from the spec: [clone] of [Station.js], "a deep, independent
    copy": a new object, at address [a], with the same fields. *)
Definition clone (a : nat) (s : t) : t :=
  mk a (id s) (title s) (description s) (source s).

(** Modelled from the spec: [Station.fromJSON] of [Station.js], which
    "reconstructs a Station from a plain data record, applying the same
    validation as construction". A field that is missing or is not a string
    reads as the empty string, a [source] that is not an array as no source. *)
Definition fromJSON (a : nat) (j : Json) : result t :=
  new a (string_member "id" j) (string_member "title" j) (string_member "description" j)
    match member "source" j with
    | Some (JArray l) => map Source_fromJSON l
    | _ => []
    end.

(** Modelled from the spec: what [JSON.stringify] writes for a Station, a
    record of its four fields. *)
Definition toJSON (s : t) : Json :=
  JObject [("id", JString (id s)); ("title", JString (title s));
           ("description", JString (description s));
           ("source", JArray (map Source_toJSON (source s)))].

End Station.

(** The editor's draft, [selectedStation]: a plain object, with [isNew] set
    when it was opened without an id. *)
Module Draft.
Record t : Type := mk {
  isNew : bool;
  id : string;
  title : string;
  description : string;
  source : list Source
}.
End Draft.

(** A raw record of the seed list, the global [stations] the server provides. *)
Module Raw.
Record t : Type := mk {
  id : string;
  title : string;
  description : string;
  source : list Source
}.
End Raw.

(** ** The registry: a JavaScript array of Stations *)

(** [items] are the elements at the indices 0 .. length-1. [props] holds the
    properties whose integer name is not an index: an assignment [arr[-1] = v]
    creates one and leaves the elements and the length alone. *)
Record JsArray : Type := {
  items : list Station.t;
  props : gmap Z Station.t
}.

Definition empty_array : JsArray := {| items := []; props := ∅ |}.

Definition array_length (arr : JsArray) : Z := Z.of_nat (length (items arr)).

(** [arr[i]] *)
Definition array_get (arr : JsArray) (i : Z) : option Station.t :=
  if i <? 0 then props arr !! i else items arr !! Z.to_nat i.

(** [arr.push(x)] *)
Definition array_push (arr : JsArray) (x : Station.t) : JsArray :=
  {| items := items arr ++ [x]; props := props arr |}.

(** [arr.splice(start, deleteCount)]: a negative [start] counts from the end,
    and both are clamped to the array. *)
Definition array_splice (arr : JsArray) (start deleteCount : Z) : JsArray :=
  let len := array_length arr in
  let from := if start <? 0 then Z.max (len + start) 0 else Z.min start len in
  let count := Z.min (Z.max deleteCount 0) (len - from) in
  {| items := take (Z.to_nat from) (items arr) ++ drop (Z.to_nat (from + count)) (items arr);
     props := props arr |}.

(** [arr[i] = x]. Below zero the assignment creates the property [i]; at an
    index it replaces the element; at the length it appends. Past the length
    JavaScript would leave holes, which a registry never has and which
    [items] cannot hold: the registry code assigns only at an index that
    [getStationIndex] returned, which is -1 or below the length (lemma
    [getStationIndex_range]), and the array is left as it is there. *)
Definition array_set (arr : JsArray) (i : Z) (x : Station.t) : JsArray :=
  if i <? 0 then {| items := items arr; props := <[i := x]> (props arr) |}
  else if i =? array_length arr then array_push arr x
  else {| items := <[Z.to_nat i := x]> (items arr); props := props arr |}.

(** [JSON.stringify(arr)]: the elements, in order; other properties of an
    array are not written. *)
Definition stringify_stations (arr : JsArray) : string :=
  JSON_stringify (JArray (map Station.toJSON (items arr))).

(** ** The state of the page *)

Inductive Level : Type := ERROR | DEBUG.

(** The data of the application object ([stream.*]), the data of the editor
    component, and what both act on: [localStorage], the route, the logger,
    the callbacks queued with [Vue.nextTick]. The editor works on the
    registry of the application: its [stations] prop is [stream.stations],
    one array, shared. *)
Record World : Type := {
  (* app.js: data.stream *)
  currentStation : option Station.t;
  defaultStation : string;
  stations : JsArray;
  (* StationEditor.js: data, and whether the dialog is open *)
  selectedStation : option Draft.t;
  validationError : option Error;
  dialogOpen : bool;
  (* the browser: [None] when there is no localStorage *)
  localStorage : option (gmap string string);
  route : string;
  (* player.reload(play) calls queued with Vue.nextTick, oldest first *)
  nextTick : list bool;
  logs : list (Level * string);
  (* the address of the next object *)
  heap_next : nat;
  (* Vue has seen a change of stream.stations and will run its watcher *)
  stationsChanged : bool
}.

Definition set_currentStation (v : option Station.t) (w : World) : World :=
  {| currentStation := v; defaultStation := defaultStation w; stations := stations w;
     selectedStation := selectedStation w; validationError := validationError w;
     dialogOpen := dialogOpen w; localStorage := localStorage w; route := route w;
     nextTick := nextTick w; logs := logs w; heap_next := heap_next w;
     stationsChanged := stationsChanged w |}.

Definition set_stations (v : JsArray) (w : World) : World :=
  {| currentStation := currentStation w; defaultStation := defaultStation w; stations := v;
     selectedStation := selectedStation w; validationError := validationError w;
     dialogOpen := dialogOpen w; localStorage := localStorage w; route := route w;
     nextTick := nextTick w; logs := logs w; heap_next := heap_next w;
     stationsChanged := stationsChanged w |}.

Definition set_selectedStation (v : option Draft.t) (w : World) : World :=
  {| currentStation := currentStation w; defaultStation := defaultStation w; stations := stations w;
     selectedStation := v; validationError := validationError w;
     dialogOpen := dialogOpen w; localStorage := localStorage w; route := route w;
     nextTick := nextTick w; logs := logs w; heap_next := heap_next w;
     stationsChanged := stationsChanged w |}.

Definition set_validationError (v : option Error) (w : World) : World :=
  {| currentStation := currentStation w; defaultStation := defaultStation w; stations := stations w;
     selectedStation := selectedStation w; validationError := v;
     dialogOpen := dialogOpen w; localStorage := localStorage w; route := route w;
     nextTick := nextTick w; logs := logs w; heap_next := heap_next w;
     stationsChanged := stationsChanged w |}.

Definition set_dialogOpen (v : bool) (w : World) : World :=
  {| currentStation := currentStation w; defaultStation := defaultStation w; stations := stations w;
     selectedStation := selectedStation w; validationError := validationError w;
     dialogOpen := v; localStorage := localStorage w; route := route w;
     nextTick := nextTick w; logs := logs w; heap_next := heap_next w;
     stationsChanged := stationsChanged w |}.

Definition set_localStorage (v : option (gmap string string)) (w : World) : World :=
  {| currentStation := currentStation w; defaultStation := defaultStation w; stations := stations w;
     selectedStation := selectedStation w; validationError := validationError w;
     dialogOpen := dialogOpen w; localStorage := v; route := route w;
     nextTick := nextTick w; logs := logs w; heap_next := heap_next w;
     stationsChanged := stationsChanged w |}.

Definition set_route (v : string) (w : World) : World :=
  {| currentStation := currentStation w; defaultStation := defaultStation w; stations := stations w;
     selectedStation := selectedStation w; validationError := validationError w;
     dialogOpen := dialogOpen w; localStorage := localStorage w; route := v;
     nextTick := nextTick w; logs := logs w; heap_next := heap_next w;
     stationsChanged := stationsChanged w |}.

Definition set_nextTick (v : list bool) (w : World) : World :=
  {| currentStation := currentStation w; defaultStation := defaultStation w; stations := stations w;
     selectedStation := selectedStation w; validationError := validationError w;
     dialogOpen := dialogOpen w; localStorage := localStorage w; route := route w;
     nextTick := v; logs := logs w; heap_next := heap_next w;
     stationsChanged := stationsChanged w |}.

Definition set_logs (v : list (Level * string)) (w : World) : World :=
  {| currentStation := currentStation w; defaultStation := defaultStation w; stations := stations w;
     selectedStation := selectedStation w; validationError := validationError w;
     dialogOpen := dialogOpen w; localStorage := localStorage w; route := route w;
     nextTick := nextTick w; logs := v; heap_next := heap_next w;
     stationsChanged := stationsChanged w |}.

Definition set_heap_next (v : nat) (w : World) : World :=
  {| currentStation := currentStation w; defaultStation := defaultStation w; stations := stations w;
     selectedStation := selectedStation w; validationError := validationError w;
     dialogOpen := dialogOpen w; localStorage := localStorage w; route := route w;
     nextTick := nextTick w; logs := logs w; heap_next := v;
     stationsChanged := stationsChanged w |}.

Definition set_stationsChanged (v : bool) (w : World) : World :=
  {| currentStation := currentStation w; defaultStation := defaultStation w; stations := stations w;
     selectedStation := selectedStation w; validationError := validationError w;
     dialogOpen := dialogOpen w; localStorage := localStorage w; route := route w;
     nextTick := nextTick w; logs := logs w; heap_next := heap_next w;
     stationsChanged := v |}.

(** ** Computations on the page: state, and exceptions that keep the state *)

Definition M (A : Type) : Type := World -> result A * World.

Definition ret {A} (a : A) : M A := fun w => (Ok a, w).

Definition throw {A} (e : Error) : M A := fun w => (Throw e, w).

Definition bind {A B} (m : M A) (k : A -> M B) : M B :=
  fun w =>
    match m w with
    | (Ok a, w') => k a w'
    | (Throw e, w') => (Throw e, w')
    end.

(** [try { m } catch (error) { handler }] *)
Definition try_catch {A} (m : M A) (handler : Error -> M A) : M A :=
  fun w =>
    match m w with
    | (Ok a, w') => (Ok a, w')
    | (Throw e, w') => handler e w'
    end.

Definition get : M World := fun w => (Ok w, w).

Definition modify (f : World -> World) : M unit := fun w => (Ok tt, f w).

Declare Scope page_scope.
Delimit Scope page_scope with page.
Notation "'let*' x := m 'in' k" := (bind m (fun x => k))
  (at level 10, x name, m at level 100, k at level 200) : page_scope.
Notation "m ;; k" := (bind m (fun _ => k))
  (at level 100, k at level 200, right associativity) : page_scope.
Local Open Scope page_scope.

(** The state a computation leaves, and its outcome. *)
Definition run {A} (m : M A) (w : World) : World := snd (m w).
Definition outcome {A} (m : M A) (w : World) : result A := fst (m w).

(** [for (x of l) body(x)], as [forEach] runs it: an exception ends the loop. *)
Fixpoint forEach {A} (l : list A) (body : A -> M unit) : M unit :=
  match l with
  | [] => ret tt
  | x :: r => body x ;; forEach r body
  end.

(** *** What the page offers *)

Definition log_error (msg : string) : M unit :=
  modify (fun w => set_logs (logs w ++ [(ERROR, msg)]) w).

Definition log_debug (msg : string) : M unit :=
  modify (fun w => set_logs (logs w ++ [(DEBUG, msg)]) w).

(** [new Station(id, title, description, source)]: the object takes the next
    address. *)
Definition new_Station (id title description : string) (source : list Source) : M Station.t :=
  fun w =>
    match Station.new (heap_next w) id title description source with
    | Ok st => (Ok st, set_heap_next (S (heap_next w)) w)
    | Throw e => (Throw e, w)
    end.

(** [Station.fromJSON(record)] *)
Definition Station_fromJSON (record : Json) : M Station.t :=
  fun w =>
    match Station.fromJSON (heap_next w) record with
    | Ok st => (Ok st, set_heap_next (S (heap_next w)) w)
    | Throw e => (Throw e, w)
    end.

(** [station.clone()] *)
Definition Station_clone (s : Station.t) : M Station.t :=
  fun w => (Ok (Station.clone (heap_next w) s), set_heap_next (S (heap_next w)) w).

(** Vue's view of the registry. The array is reactive: Vue wraps its mutating
    methods, so [push] and [splice] tell the watcher of [stream.stations];
    an assignment to an index does not pass through Vue and tells no one
    (the FIXME note of [saveStationEdit]). *)
Definition stations_push (st : Station.t) : M unit :=
  modify (fun w => set_stationsChanged true (set_stations (array_push (stations w) st) w)).

Definition stations_splice (start deleteCount : Z) : M unit :=
  modify (fun w =>
    set_stationsChanged true (set_stations (array_splice (stations w) start deleteCount) w)).

Definition stations_assign (i : Z) (st : Station.t) : M unit :=
  modify (fun w => set_stations (array_set (stations w) i st) w).

(** ** vue-router

    The two files call [router.push] with a string and read the path of the
    current route, [$route.path] and [to.path]; [route] of the page is that
    path. The router is created without routes, so the path of a route is
    the path its location resolves to. What follows is that resolution, as
    vue-router does it for a string: the part of the string before a "#"
    and before a "?" is the path of the location; a path that starts with
    "/" is taken as it is; any other is resolved against the current path,
    whose last segment it replaces, "." and ".." read as in a file path; a
    location without a path keeps the current path. The query and the hash
    of a route are not read by the two files and are not part of the page;
    a push that leads to the route that is current is dropped by the router
    and leaves the path as it is, up to a slash at its end. *)
Module VueRouter.

(** [s.slice(0, s.indexOf(sep))], or [s] when [sep] does not occur. *)
Fixpoint before (sep : ascii) (s : string) : string :=
  match s with
  | EmptyString => EmptyString
  | String c r => if Ascii.eqb c sep then EmptyString else String c (before sep r)
  end.

(** [parsePath(location).path] *)
Definition parsePath (location : string) : string := before "?" (before "#" location).

(** [s.split(sep)] *)
Fixpoint split (sep : ascii) (s : string) : list string :=
  match s with
  | EmptyString => [EmptyString]
  | String c r =>
    if Ascii.eqb c sep then EmptyString :: split sep r
    else
      match split sep r with
      | first :: rest => String c first :: rest
      | [] => [String c EmptyString]
      end
  end.

(** [l.join(sep)] *)
Fixpoint join (sep : ascii) (l : list string) : string :=
  match l with
  | [] => EmptyString
  | x :: r =>
    match r with
    | [] => x
    | _ => x ++ String sep (join sep r)
    end
  end.

(** One step of the loop of [resolvePath] over the segments of the relative
    path. *)
Definition step (stack : list string) (segment : string) : list string :=
  if String.eqb segment ".." then removelast stack
  else if String.eqb segment "." then stack
  else (stack ++ [segment])%list.

(** [resolvePath(relative, base)], without [append]. *)
Definition resolvePath (relative base : string) : string :=
  match relative with
  | String "/" _ => relative
  | String "?" _ | String "#" _ => base ++ relative
  | _ =>
    let stack := removelast (split "/" base) in
    let stack := fold_left step (split "/" relative) stack in
    let stack :=
      match stack with
      | EmptyString :: _ => stack
      | _ => EmptyString :: stack
      end in
    join "/" stack
  end.

(** The path of the route a push of [location] leads to, from the route of
    path [current]: [normalizeLocation], and [location.path || "/"] of
    [createRoute]. *)
Definition resolve (location current : string) : string :=
  let base := if is_empty current then "/" else current in
  let path := parsePath location in
  let resolved := if is_empty path then base else resolvePath path base in
  if is_empty resolved then "/" else resolved.

End VueRouter.

(** [router.push(location)] *)
Definition router_push (location : string) : M unit :=
  modify (fun w => set_route (VueRouter.resolve location (route w)) w).

(** [s.substring(1)] *)
Definition substring1 (s : string) : string :=
  match s with
  | String _ r => r
  | EmptyString => EmptyString
  end.

(** ** Util.js *)

Module Util.

Fixpoint index_from (l : list Station.t) (id : string) (i : Z) : Z :=
  match l with
  | [] => -1
  | s :: r => if String.eqb (Station.id s) id then i else index_from r id (i + 1)
  end.

(** Modelled from the spec: [Util.getStationIndex], which is not among the
    sources. "findIndex(registry, id) -> index | notFound (-1 sentinel)",
    by "exact string match"; the first station of that id. *)
Definition getStationIndex (arr : JsArray) (id : string) : Z :=
  index_from (items arr) id 0.

(** Modelled from the spec: [Util.addStation], which is not among the
    sources. "1. Reject if findIndex(registry, id) != notFound: fails with
    DuplicateStation. 2. Construct a Station; propagate any construction
    failure. 3. On success, append to the registry." [arr] is the registry
    of the page. *)
Definition addStation (id title description : string) (source : list Source) : M unit :=
  let* w := get in
  if negb (getStationIndex (stations w) id =? -1) then throw (DuplicateStation id)
  else
    let* st := new_Station id title description source in
    stations_push st.

(** Modelled from the spec: [Util.addStationObject], which is not among
    the sources. "Duplicates (by id) are silently discarded"; a station of
    a new id is appended. *)
Definition addStationObject (st : Station.t) : M unit :=
  let* w := get in
  if negb (getStationIndex (stations w) (Station.id st) =? -1) then ret tt
  else stations_push st.

End Util.

(** ** app.js *)

Module App.

(** The handler of the watcher of [stream.stations]:
    [if (localStorage) localStorage.setItem("stations", JSON.stringify(this.stream.stations))]. *)
Definition watch_stations : M unit :=
  modify (fun w =>
    match localStorage w with
    | Some store => set_localStorage (Some (<["stations" := stringify_stations (stations w)]> store)) w
    | None => w
    end).

(** Vue runs the watcher once the handler that changed the registry has
    returned, if it was told of a change. *)
Definition flush : M unit :=
  let* w := get in
  if stationsChanged w then modify (set_stationsChanged false) ;; watch_stations
  else ret tt.

(** [switchStation(id, play = true)] *)
Definition switchStation (id : string) (play : bool) : M unit :=
  let* w := get in
  let same :=
    match currentStation w with
    | Some current => String.eqb id (Station.id current)
    | None => false
    end in
  if same then ret tt
  else
    let index := Util.getStationIndex (stations w) id in
    if index =? -1 then throw (UnknownStation id)
    else
      modify (set_currentStation (array_get (stations w) index)) ;;
      (* Vue.nextTick(() => this.$refs.player.reload(play)) *)
      modify (fun w => set_nextTick (nextTick w ++ [play]) w) ;;
      let* w := get in
      match currentStation w with
      | Some _ => log_debug "Switched station to"
      | None => throw (TypeError "this.stream.currentStation is undefined")
      end.

(** The watcher of [$route]. *)
Definition watch_route (path : string) : M unit :=
  log_debug "ROUTE CHANGED" ;;
  try_catch (switchStation (substring1 path) true)
    (fun _ => let* w := get in router_push (defaultStation w)).

(** Step 1 of [beforeMount]: the seed list into the registry. The stations
    that failed are collected and returned. *)
Fixpoint seed (seeds : list Raw.t) (failedStations : list Raw.t) : M (list Raw.t) :=
  match seeds with
  | [] => ret failedStations
  | station :: rest =>
    let* failedStations :=
      try_catch
        (let* st := new_Station (Raw.id station) (Raw.title station)
                      (Raw.description station) (Raw.source station) in
         stations_push st ;;
         ret failedStations)
        (fun _ => ret (failedStations ++ [station])%list) in
    seed rest failedStations
  end.

(** The body of the loop over the stored stations. *)
Definition merge_stored (station : Json) : M unit :=
  try_catch
    (let* st := Station_fromJSON station in Util.addStationObject st)
    (fun _ => log_debug "addStation() for local storage station failed").

(** Step 2 of [beforeMount]: the stations of [localStorage]. *)
Definition load_stored : M unit :=
  let* w := get in
  match localStorage w with
  | None => ret tt
  | Some store =>
    match store !! "stations" with
    | None => ret tt                       (* getItem gave null *)
    | Some storedStations =>
      if is_empty storedStations then ret tt   (* the empty string is falsy *)
      else
        match JSON_parse storedStations with
        | None =>
          log_error "Could not parse station config from local storage" ;;
          modify (set_localStorage (Some (delete "stations" store)))
        | Some parsed =>
          log_debug "Loaded stations object from localstorage" ;;
          match parsed with
          | JArray records => forEach records merge_stored
          | _ => throw (TypeError "storedStations.forEach is not a function")
          end
        end
    end
  end.

(** Step 3 of [beforeMount]: the first station, from the route. *)
Definition initial_station : M unit :=
  let* w := get in
  if String.eqb (route w) "/" then switchStation (defaultStation w) false
  else
    try_catch (switchStation (substring1 (route w)) false)
      (fun _ =>
         log_debug "Route url doesn't contain valid station id, fallback to default." ;;
         switchStation (defaultStation w) false ;;
         router_push (defaultStation w)).

(** Step 1 with its report of the stations that failed. *)
Definition seed_all (seeds : list Raw.t) : M unit :=
  let* failedStations := seed seeds [] in
  match failedStations with
  | [] => ret tt
  | _ => log_error "Some stations failed to parse"
  end.

(** Steps 1 and 2: the registry is seeded, then reconciled with the stored
    stations. *)
Definition reconcile (seeds : list Raw.t) : M unit :=
  seed_all seeds ;; load_stored.

(** [beforeMount()], with the seed list [stations] of the server. *)
Definition beforeMount (seeds : list Raw.t) : M unit :=
  log_debug "Application BEFORE MOUNT" ;;
  reconcile seeds ;;
  initial_station.

End App.

(** ** StationEditor.js *)

Module StationEditor.

(** [this.selectedStation], read for one of its properties. *)
Definition the_selectedStation : M Draft.t :=
  let* w := get in
  match selectedStation w with
  | Some d => ret d
  | None => throw (TypeError "this.selectedStation is undefined")
  end.

(** [this.$refs.dialog.open()] *)
Definition dialog_open : M unit := modify (set_dialogOpen true).

(** [this.$refs.dialog.close()]; the dialog's [close] event resets
    [validationError]. *)
Definition dialog_close : M unit :=
  modify (set_dialogOpen false) ;; modify (set_validationError None).

(** [open(id)] *)
Definition open (id : string) : M unit :=
  (if negb (is_empty id) then
     let* w := get in
     let stationIndex := Util.getStationIndex (stations w) id in
     if stationIndex =? -1 then throw InvalidOpen
     else
       match array_get (stations w) stationIndex with
       | None => throw (TypeError "this.stations[stationIndex] is undefined")
       | Some live =>
         let* station := Station_clone live in
         modify (set_selectedStation (Some
           {| Draft.isNew := false;
              Draft.id := Station.id station;
              Draft.title := Station.title station;
              Draft.description := Station.description station;
              Draft.source := Station.source station |}))
       end
   else
     modify (set_selectedStation (Some
       {| Draft.isNew := true;
          Draft.id := "";
          Draft.title := "";
          Draft.description := "";
          Draft.source := [ {| src := ""; type := "" |} ] |}))) ;;
  dialog_open.

(** The id [addStation] gives a new station:
    [title.replace(" ", "_").toLowerCase()]. *)
Definition station_id (title : string) : string :=
  toLowerCase (replace " " "_" title).

(** [addStation()], the add button, with [lower] for the engine's
    [String.prototype.toLowerCase]. The [return] of the catch block leaves
    the dialog open: the block answers [false] and the close is skipped. *)
Definition addStation_by (lower : string -> string) : M unit :=
  modify (set_validationError None) ;;
  let* d := the_selectedStation in
  let d := {| Draft.isNew := Draft.isNew d;
              Draft.id := lower (replace " " "_" (Draft.title d));
              Draft.title := Draft.title d;
              Draft.description := Draft.description d;
              Draft.source := Draft.source d |} in
  modify (set_selectedStation (Some d)) ;;
  let* added :=
    try_catch
      (Util.addStation (Draft.id d) (Draft.title d) (Draft.description d) (Draft.source d) ;;
       ret true)
      (fun error =>
         log_error "User attempted to add station but it failed" ;;
         modify (set_validationError (Some error)) ;;
         ret false) in
  if added : bool then dialog_close else ret tt.

(** The add button, with the lowering of ASCII text. *)
Definition addStation : M unit := addStation_by toLowerCase.

(** [saveStationEdit()], the save button. *)
Definition saveStationEdit : M unit :=
  modify (set_validationError None) ;;
  let* saved :=
    try_catch
      (let* d := the_selectedStation in
       let* w := get in
       let stationIndex := Util.getStationIndex (stations w) (Draft.id d) in
       (if stationIndex =? -1 then
          log_error "Attempted to save station data but could not find station in array by id"
        else ret tt) ;;
       let* st := new_Station (Draft.id d) (Draft.title d) (Draft.description d) (Draft.source d) in
       stations_assign stationIndex st ;;
       ret true)
      (fun error =>
         log_error "User attempted to edit station but it failed" ;;
         modify (set_validationError (Some error)) ;;
         ret false) in
  if saved : bool then dialog_close else ret tt.

(** [deleteHandler()], the delete button. *)
Definition deleteHandler : M unit :=
  let* d := the_selectedStation in
  let* w := get in
  let index := Util.getStationIndex (stations w) (Draft.id d) in
  if negb (index =? -1) then
    stations_splice index 1 ;;
    dialog_close
  else ret tt.

End StationEditor.

(** ** app.js: navigation *)

Module Router.

(** [updateRoute(path)], called by the navigation list with a station id. *)
Definition updateRoute (path : string) : M unit := router_push path.

(** The router after a push. A push that changes the route runs the watcher
    of [$route] on the new route, and the watcher's own push of the default
    station is followed the same way; a push of the route that is current
    changes nothing and runs nothing. [seen] is the route the watcher last
    ran on, [rounds] bounds the runs of the watcher. *)
Fixpoint settle (rounds : nat) (seen : string) : M unit :=
  match rounds with
  | O => ret tt
  | S n =>
    let* w := get in
    if String.eqb (route w) seen then ret tt
    else App.watch_route (route w) ;; settle n (route w)
  end.

(** A click in the navigation list: [updateRoute], and what the router makes
    of it. *)
Definition navigate (rounds : nat) (path : string) : M unit :=
  let* w := get in
  updateRoute path ;;
  settle rounds (route w).

End Router.

(** ** app.js: the visualizer setting *)

Module Visualizer.

(** The text [data()] parses:
    [localStorage ? localStorage.getItem("visualizer") || "true" : "true"]. *)
Definition stored_setting (w : World) : string :=
  match localStorage w with
  | Some store =>
    match store !! "visualizer" with
    | Some text => if is_empty text then "true" else text
    | None => "true"
    end
  | None => "true"
  end.

(** [visualizer.enabled] as [data()] sets it: [JSON.parse] of that text;
    [None] when [JSON.parse] throws. *)
Definition enabled_at_start (w : World) : option Json := JSON_parse (stored_setting w).

(** The watcher of [visualizer.enabled], with the new value, a boolean of
    the switch or of [mounted]: [setItem] stores its text. *)
Definition watch_enabled (enabled : bool) : M unit :=
  log_debug "visualizer watch, new value:" ;;
  modify (fun w =>
    match localStorage w with
    | Some store =>
      set_localStorage (Some (<["visualizer" := if enabled then "true" else "false"]> store)) w
    | None => w
    end).

(** [mounted()], the part on the visualizer. [audioContext] and [mediaElSrc]
    say whether the player has them; [enabled] is [visualizer.enabled]. The
    answer is the new [visualizer.enabled] and [visualizer.supported]. The
    watcher of [visualizer.enabled] runs when the value has changed. *)
Definition mounted (audioContext mediaElSrc : bool) (enabled : Json) : M (Json * bool) :=
  log_debug "Application MOUNTED" ;;
  if negb audioContext || negb mediaElSrc then
    log_debug "Audio API not supported, disabling Visualizer" ;;
    (match enabled with
     | JBool false => ret tt
     | _ => watch_enabled false
     end) ;;
    ret (JBool false, false)
  else ret (enabled, true).

End Visualizer.

(** ** StationEditor.js: the handlers of the template *)

Module Dialog.

(** A write to the draft; the form is there only while a draft is selected
    ([v-if='selectedStation']). *)
Definition edit_draft (f : Draft.t -> Draft.t) : M unit :=
  let* d := StationEditor.the_selectedStation in
  modify (set_selectedStation (Some (f d))).

Definition with_source (d : Draft.t) (source : list Source) : Draft.t :=
  Draft.mk (Draft.isNew d) (Draft.id d) (Draft.title d) (Draft.description d) source.

(** [v-model="selectedStation.title"] *)
Definition set_title (text : string) : M unit :=
  edit_draft (fun d =>
    Draft.mk (Draft.isNew d) (Draft.id d) text (Draft.description d) (Draft.source d)).

(** [v-model="selectedStation.description"] *)
Definition set_description (text : string) : M unit :=
  edit_draft (fun d =>
    Draft.mk (Draft.isNew d) (Draft.id d) (Draft.title d) text (Draft.source d)).

(** The add button of the sources:
    [selectedStation.source.push({src: ``, type: ``})]. *)
Definition add_source : M unit :=
  edit_draft (fun d => with_source d (Draft.source d ++ [ {| src := ""; type := "" |} ])).

(** [v-model='source.src'] and [v-model='source.type'] of the source at
    position [i]. *)
Definition set_src (i : nat) (text : string) : M unit :=
  edit_draft (fun d =>
    with_source d (alter (fun s => {| src := text; type := type s |}) i (Draft.source d))).

Definition set_type (i : nat) (text : string) : M unit :=
  edit_draft (fun d =>
    with_source d (alter (fun s => {| src := src s; type := text |}) i (Draft.source d))).

(** The delete button of the source at position [i]:
    [selectedStation.source.splice(selectedStation.source.indexOf(source), 1)].
    The sources of a draft are distinct objects, so [indexOf] answers the
    position of the source the button belongs to. The button is shown only
    when [selectedStation.source.length > 1]. *)
Definition delete_source (i : nat) : M unit :=
  edit_draft (fun d =>
    if (1 <? length (Draft.source d))%nat then with_source d (delete i (Draft.source d))
    else d).

(** What the user does in the form. *)
Inductive Input : Type :=
| Title (text : string)
| Description (text : string)
| AddSource
| Src (i : nat) (text : string)
| Type_ (i : nat) (text : string)
| DeleteSource (i : nat).

Definition input (x : Input) : M unit :=
  match x with
  | Title text => set_title text
  | Description text => set_description text
  | AddSource => add_source
  | Src i text => set_src i text
  | Type_ i text => set_type i text
  | DeleteSource i => delete_source i
  end.

End Dialog.


(** ** Vocabulary of the statements *)

(** The ids of the registry, in order. *)
Definition ids (arr : JsArray) : list string := map Station.id (items arr).

(** The stations step 1 of [beforeMount] builds from a seed list, the first
    at address [a]: the records the constructor accepts, in order. *)
Fixpoint validated (a : nat) (seeds : list Raw.t) : list Station.t :=
  match seeds with
  | [] => []
  | r :: rest =>
    match Station.new a (Raw.id r) (Raw.title r) (Raw.description r) (Raw.source r) with
    | Ok st => st :: validated (S a) rest
    | Throw _ => validated a rest
    end
  end.

(** A page is the same as another but for the log and [localStorage]. *)
Definition forget (w : World) : World := set_logs [] (set_localStorage None w).

(** [m] acts the same on two pages that differ in the log and the storage
    only, and leaves two such pages. *)
Definition respects_forget {A} (m : M A) : Prop :=
  forall w1 w2 : World, forget w1 = forget w2 ->
    fst (m w1) = fst (m w2) /\ forget (snd (m w1)) = forget (snd (m w2)).

(** The page [m] leaves is related by [P] to the page it started on. *)
Definition preserves (P : World -> World -> Prop) {A} (m : M A) : Prop :=
  forall w : World, P w (snd (m w)).

(** The storage is the same and the log has grown. *)
Definition quietly (w w' : World) : Prop :=
  localStorage w' = localStorage w /\ exists new, logs w' = (logs w ++ new)%list.

(** The registry is the same. *)
Definition same_stations (w w' : World) : Prop := stations w' = stations w.

(** What the session controller owns is the same: the current station, the
    route, the reloads queued for the player; and so is the storage. *)
Definition same_session (w w' : World) : Prop :=
  currentStation w' = currentStation w /\ route w' = route w /\ nextTick w' = nextTick w
  /\ localStorage w' = localStorage w /\ defaultStation w' = defaultStation w.

(** A station the constructor accepts: an id, a title, and sources that all
    have a [src]. *)
Definition wellformed (st : Station.t) : bool :=
  negb (is_empty (Station.id st)) && negb (is_empty (Station.title st))
  && Station.valid_source (Station.source st).

(** Every station of the registry, and the current station, is one the
    constructor accepts. *)
Definition valid_page (w : World) : Prop :=
  Forall (fun st => wellformed st = true) (items (stations w))
  /\ forall current, currentStation w = Some current -> wellformed current = true.

(** No two stations of the registry share an id. *)
Definition distinct_ids (w : World) : Prop := NoDup (ids (stations w)).

(** [I] holds after when it held before. *)
Definition keeps (I : World -> Prop) (w w' : World) : Prop := I w -> I w'.

(** The page after step 1 of [beforeMount] has pushed the stations [vs]. *)
Definition after_seed (vs : list Station.t) (w : World) : World :=
  match vs with
  | [] => w
  | _ =>
    set_stationsChanged true
      (set_stations {| items := items (stations w) ++ vs; props := props (stations w) |}
         (set_heap_next (heap_next w + length vs) w))
  end.


(** What the user and the browser do to the page. *)
Inductive Action : Type :=
| Start (seeds : list Raw.t)            (* beforeMount *)
| Switch (id : string) (play : bool)    (* switchStation *)
| RouteChanged (path : string)          (* the watcher of $route *)
| Navigate (path : string)              (* updateRoute, and the router *)
| Open (id : string)
| Add
| Save
| Delete
| Form (x : Dialog.Input).

Definition act (a : Action) : M unit :=
  match a with
  | Start seeds => App.beforeMount seeds
  | Switch id play => App.switchStation id play
  | RouteChanged path => App.watch_route path
  | Navigate path => Router.navigate 2 path
  | Open id => StationEditor.open id
  | Add => StationEditor.addStation
  | Save => StationEditor.saveStationEdit
  | Delete => StationEditor.deleteHandler
  | Form x => Dialog.input x
  end.

(** The storage is there or not as before, and its keys other than
    "stations" hold what they held. *)
Definition other_keys_kept (w w' : World) : Prop :=
  match localStorage w, localStorage w' with
  | Some store, Some store' => forall k : string, k <> "stations" -> store' !! k = store !! k
  | None, None => True
  | _, _ => False
  end.


(** What the editor and the registry hold is the same. *)
Definition same_editor (w w' : World) : Prop :=
  stations w' = stations w /\ selectedStation w' = selectedStation w
  /\ validationError w' = validationError w /\ dialogOpen w' = dialogOpen w
  /\ heap_next w' = heap_next w /\ stationsChanged w' = stationsChanged w.

(** How many stations of a list have the id. *)
Fixpoint occurrences (id : string) (l : list Station.t) : nat :=
  match l with
  | [] => 0
  | s :: r => (if String.eqb (Station.id s) id then 1 else 0) + occurrences id r
  end.

(** A string without a slash. *)
Fixpoint slash_free (s : string) : bool :=
  match s with
  | EmptyString => true
  | String c r => negb (Ascii.eqb c "/") && slash_free r
  end.

(** A string the router reads as one segment of a path: no "/", "?" or "#"
    in it, not empty, and neither "." nor "..". *)
Fixpoint segment_chars (s : string) : bool :=
  match s with
  | EmptyString => true
  | String c r =>
    negb (Ascii.eqb c "/") && negb (Ascii.eqb c "?") && negb (Ascii.eqb c "#") && segment_chars r
  end.

Definition plain (s : string) : bool :=
  negb (is_empty s) && segment_chars s && negb (String.eqb s ".") && negb (String.eqb s "..").

(** A path of one segment: "/" and a string without a slash. *)
Definition single_segment (path : string) : bool :=
  match path with
  | String "/" t => slash_free t
  | _ => false
  end.

(** ASCII text: every character is below 128. *)
Fixpoint ascii_text (s : string) : bool :=
  match s with
  | EmptyString => true
  | String c r => (nat_of_ascii c <? 128)%nat && ascii_text r
  end.

Fixpoint has_space (s : string) : bool :=
  match s with
  | EmptyString => false
  | String c r => Ascii.eqb c " " || has_space r
  end.

(** *** Pages to evaluate on *)

(** The page before [beforeMount]: the data of the application as declared,
    at the route "/", with an empty [localStorage]. *)
Definition fresh_page : World :=
  {| currentStation := None; defaultStation := "liquid_radio"; stations := empty_array;
     selectedStation := None; validationError := None; dialogOpen := false;
     localStorage := Some ∅; route := "/"; nextTick := []; logs := [];
     heap_next := 0; stationsChanged := false |}.

(** The page a reload of the browser starts from: the data as declared,
    with the [localStorage] and the URL the page had. *)
Definition reloaded (w : World) : World :=
  {| currentStation := None; defaultStation := "liquid_radio"; stations := empty_array;
     selectedStation := None; validationError := None; dialogOpen := false;
     localStorage := localStorage w; route := route w; nextTick := []; logs := [];
     heap_next := 0; stationsChanged := false |}.

Definition liquid_radio : Raw.t :=
  Raw.mk "liquid_radio" "Liquid Radio" "Drum and bass"
    [ {| src := "http://stream.example/liquid"; type := "audio/mpeg" |} ].

Definition jazz_fm : Raw.t :=
  Raw.mk "jazz_fm" "Jazz FM" "" [ {| src := "http://x/stream"; type := "audio/mpeg" |} ].

(** An event: a handler runs, then Vue runs the watchers it has made due,
    whether the handler returned or threw. *)
Definition event (handler : M unit) (w : World) : World :=
  run App.flush (run handler w).

(** An action as an event of the page. *)
Definition turn (a : Action) (w : World) : World := event (act a) w.

(** The page after a sequence of actions. *)
Definition story (actions : list Action) (w : World) : World :=
  fold_left (fun v a => turn a v) actions w.

(** The page after startup with the seed list [liquid_radio; jazz_fm]. *)
Definition started : World := event (App.beforeMount [liquid_radio; jazz_fm]) fresh_page.

(** The editor is opened on the current station, "liquid_radio", and the
    station is deleted. *)
Definition current_deleted : World :=
  event StationEditor.deleteHandler (event (StationEditor.open "liquid_radio") started).

(** The fresh page with a snapshot in [localStorage]. *)
Definition with_snapshot (text : string) : World :=
  set_localStorage (Some {[ "stations" := text ]}) fresh_page.



(** The editor is opened on "jazz_fm" and the station deleted: the dialog is
    closed, and the draft is still the editor's [selectedStation]. *)
Definition deleted_draft : World :=
  event StationEditor.deleteHandler (event (StationEditor.open "jazz_fm") started).

(** The editor is opened on "jazz_fm" and the title of the draft is changed. *)
Definition edited : World :=
  set_selectedStation
    (Some (Draft.mk false "jazz_fm" "Smooth Jazz" ""
             [ {| src := "http://x/stream"; type := "audio/mpeg" |} ]))
    (event (StationEditor.open "jazz_fm") started).

(** The snapshot in storage: [localStorage.getItem("stations")]. *)
Definition snapshot (w : World) : option string :=
  match localStorage w with
  | Some store => store !! "stations"
  | None => None
  end.

(** The stored snapshot is the serialization of the registry. *)
Definition in_sync (w : World) : Prop :=
  forall store : gmap string string,
    localStorage w = Some store ->
    store !! "stations" = Some (stringify_stations (stations w)).

(** The snapshot is in step and no change of the registry waits for the
    watcher. *)
Definition settled (w : World) : Prop := in_sync w /\ stationsChanged w = false.

(** A change of the registry is one Vue has been told of. *)
Definition flagged (w w' : World) : Prop :=
  stationsChanged w' = true
  \/ (stations w' = stations w /\ stationsChanged w' = stationsChanged w).

(** The actions of a running page but for the save button. *)
Definition routine (a : Action) : bool :=
  match a with
  | Start _ | Save => false
  | _ => true
  end.

(** Two stored records: one under the id of a seeded station, with another
    title, and one under a new id. *)
Definition stored_liquid : Json :=
  JObject [("id", JString "liquid_radio"); ("title", JString "Not Liquid Radio");
           ("description", JString "");
           ("source", JArray [JObject [("src", JString "http://elsewhere/stream");
                                       ("type", JString "audio/ogg")]])].

Definition stored_chill : Json :=
  JObject [("id", JString "chill"); ("title", JString "Chill");
           ("description", JString "");
           ("source", JArray [JObject [("src", JString "http://chill/stream");
                                       ("type", JString "")]])].

(** "jazz_fm" is made the current station, the editor is opened on it and
    the title of the draft is changed. *)
Definition edited_current : World :=
  set_selectedStation
    (Some (Draft.mk false "jazz_fm" "Smooth Jazz" ""
             [ {| src := "http://x/stream"; type := "audio/mpeg" |} ]))
    (event (StationEditor.open "jazz_fm") (event (App.switchStation "jazz_fm" true) started)).

(** "jazz_fm" is the current station; its edit is saved, and the editor is
    opened on it again. *)
Definition saved_current : World :=
  event (StationEditor.open "jazz_fm") (event StationEditor.saveStationEdit edited_current).

(** The editor is opened for a new station, and a title and the address of
    the stream are typed. *)
Definition chill_draft : World :=
  story [Open ""; Form (Dialog.Title "Chill Out"); Form (Dialog.Src 0 "http://chill/stream")]
    started.

(** *** Reasoning about computations *)

Ltac page_unfold :=
  unfold event, run, outcome, bind, ret, throw, get, modify, try_catch,
    log_error, log_debug, new_Station, Station_fromJSON, Station_clone,
    stations_push, stations_splice, stations_assign, router_push in *.

(** ** The router on station ids *)

Lemma segment_chars_slash_free (s : string) : segment_chars s = true -> slash_free s = true.
Proof.
  induction s as [|c s IH]; cbn [segment_chars slash_free]; [reflexivity|].
  intros H. apply andb_true_iff in H as [H Hs]. apply andb_true_iff in H as [H _].
  apply andb_true_iff in H as [H _]. now rewrite H, IH.
Qed.

Lemma before_absent (sep : ascii) (s : string) :
  (forall n, String.get n s <> Some sep) -> VueRouter.before sep s = s.
Proof.
  induction s as [|c s IH]; intros H; cbn [VueRouter.before]; [reflexivity|].
  destruct (Ascii.eqb_spec c sep) as [->|_]; [now destruct (H 0%nat)|].
  rewrite IH; [reflexivity|]. intros n. exact (H (S n)).
Qed.

Lemma segment_chars_get (s : string) (n : nat) (c : ascii) :
  segment_chars s = true -> String.get n s = Some c ->
  c <> "/"%char /\ c <> "?"%char /\ c <> "#"%char.
Proof.
  revert n. induction s as [|c0 s IH]; intros n; cbn [segment_chars String.get]; [discriminate|].
  intros H. apply andb_true_iff in H as [H Hs]. apply andb_true_iff in H as [H H3].
  apply andb_true_iff in H as [H1 H2].
  destruct n as [|n]; [|now apply IH].
  intros [= <-]. apply negb_true_iff in H1, H2, H3.
  repeat split; intros ->; discriminate.
Qed.

Lemma parsePath_segment (s : string) : segment_chars s = true -> VueRouter.parsePath s = s.
Proof.
  intros Hs. unfold VueRouter.parsePath.
  rewrite (before_absent "#" s); [apply before_absent|];
    intros n Hn; now destruct (segment_chars_get s n _ Hs Hn) as (? & ? & ?).
Qed.

Lemma split_slash_free (s : string) : slash_free s = true -> VueRouter.split "/" s = [s].
Proof.
  induction s as [|c s IH]; cbn [slash_free VueRouter.split]; [reflexivity|].
  intros H. apply andb_true_iff in H as [Hc Hs]. apply negb_true_iff in Hc.
  now rewrite Hc, IH.
Qed.

Lemma resolvePath_relative (c : ascii) (r base : string) :
  c <> "/"%char -> c <> "?"%char -> c <> "#"%char ->
  VueRouter.resolvePath (String c r) base =
    let stack := fold_left VueRouter.step (VueRouter.split "/" (String c r))
                   (removelast (VueRouter.split "/" base)) in
    VueRouter.join "/"
      match stack with
      | EmptyString :: _ => stack
      | _ => EmptyString :: stack
      end.
Proof.
  intros H1 H2 H3.
  destruct c as [[] [] [] [] [] [] [] []]; try reflexivity; congruence.
Qed.

(** A push of a plain segment from a path of one segment leads to the path
    of that segment. *)
Lemma resolve_plain (location current : string) :
  plain location = true -> single_segment current = true ->
  VueRouter.resolve location current = String "/" location.
Proof.
  unfold plain, single_segment. intros Hp Hc.
  apply andb_true_iff in Hp as [Hp Hdots]. apply andb_true_iff in Hp as [Hp Hdot].
  apply andb_true_iff in Hp as [Hne Hchars].
  apply negb_true_iff in Hdots, Hdot.
  destruct current as [|c0 t]; [discriminate Hc|].
  assert (Hslash : c0 = "/"%char /\ slash_free t = true).
  { destruct c0 as [[] [] [] [] [] [] [] []]; try discriminate Hc. now split. }
  destruct Hslash as [-> Ht].
  destruct location as [|c r]; [discriminate Hne|].
  destruct (segment_chars_get (String c r) 0 c Hchars eq_refl) as (H1 & H2 & H3).
  unfold VueRouter.resolve. cbn [is_empty]. rewrite (parsePath_segment _ Hchars). cbn [is_empty].
  rewrite (resolvePath_relative c r _ H1 H2 H3).
  rewrite (split_slash_free (String c r)) by now apply segment_chars_slash_free.
  change (VueRouter.split "/" (String "/" t)) with (EmptyString :: VueRouter.split "/" t).
  rewrite (split_slash_free t Ht).
  cbn [removelast fold_left]. unfold VueRouter.step. rewrite Hdots, Hdot. reflexivity.
Qed.


Lemma index_from_range (l : list Station.t) (id : string) (i : Z) :
  Util.index_from l id i = -1 \/ i <= Util.index_from l id i < i + Z.of_nat (length l).
Proof.
  revert i. induction l as [|s l IH]; intros i; [now left|].
  cbn [Util.index_from length]. rewrite Nat2Z.inj_succ.
  destruct (String.eqb (Station.id s) id).
  - right. lia.
  - destruct (IH (i + 1)) as [->|H]; [now left | right; lia].
Qed.

Lemma index_from_absent (l : list Station.t) (id : string) (i : Z) :
  0 <= i -> (Util.index_from l id i = -1 <-> id ∉ map Station.id l).
Proof.
  revert i. induction l as [|s l IH]; intros i Hi; simpl.
  - split; [intros _; apply not_elem_of_nil | reflexivity].
  - destruct (String.eqb_spec (Station.id s) id) as [->|Hne].
    + split; [lia | intros H; exfalso; apply H; left].
    + rewrite (IH (i + 1)) by lia. rewrite not_elem_of_cons. intuition congruence.
Qed.

(** [getStationIndex] answers -1 or an index of the array. *)
Lemma getStationIndex_range (arr : JsArray) (id : string) :
  Util.getStationIndex arr id = -1 \/ 0 <= Util.getStationIndex arr id < array_length arr.
Proof. unfold Util.getStationIndex, array_length. apply index_from_range. Qed.

Lemma getStationIndex_absent (arr : JsArray) (id : string) :
  Util.getStationIndex arr id = -1 <-> id ∉ ids arr.
Proof. unfold Util.getStationIndex, ids. now apply index_from_absent. Qed.

(** At the index [getStationIndex] answers stands the first station of that id. *)
Lemma index_from_lookup (l : list Station.t) (id : string) (i : Z) :
  0 <= i -> Util.index_from l id i <> -1 ->
  exists s, l !! Z.to_nat (Util.index_from l id i - i) = Some s /\ Station.id s = id
    /\ id ∉ map Station.id (take (Z.to_nat (Util.index_from l id i - i)) l).
Proof.
  revert i. induction l as [|s l IH]; intros i Hi; simpl; [congruence|].
  destruct (String.eqb_spec (Station.id s) id) as [Heq|Hne]; intros Hfound.
  - exists s. replace (i - i) with 0 by lia. simpl. repeat split; [assumption | apply not_elem_of_nil].
  - destruct (IH (i + 1)) as (s' & Hs' & Hid & Hbefore); [lia | assumption |].
    destruct (index_from_range l id (i + 1)) as [?|Hr]; [contradiction|].
    exists s'.
    replace (Z.to_nat (Util.index_from l id (i + 1) - i))
      with (S (Z.to_nat (Util.index_from l id (i + 1) - (i + 1)))) by lia.
    simpl. repeat split; [assumption..|].
    rewrite not_elem_of_cons. split; [congruence | assumption].
Qed.

Lemma getStationIndex_lookup (arr : JsArray) (id : string) :
  Util.getStationIndex arr id <> -1 ->
  exists s, array_get arr (Util.getStationIndex arr id) = Some s /\ Station.id s = id.
Proof.
  intros H. destruct (getStationIndex_range arr id) as [?|Hr]; [contradiction|].
  unfold Util.getStationIndex in *.
  destruct (index_from_lookup (items arr) id 0) as (s & Hs & Hid & _); [lia | assumption |].
  exists s. split; [|assumption].
  unfold array_get. destruct (Z.ltb_spec (Util.index_from (items arr) id 0) 0); [lia|].
  now rewrite Z.sub_0_r in Hs.
Qed.

(** ** Adding a station *)

(** What [Util.addStation] does, by cases. *)
Lemma addStation_cases (id title description : string) (source : list Source) (w : World) :
  Util.addStation id title description source w =
    if decide (id ∈ ids (stations w)) then (Throw (DuplicateStation id), w)
    else
      match Station.new (heap_next w) id title description source with
      | Ok st =>
        (Ok tt, set_stationsChanged true
                  (set_stations (array_push (stations w) st) (set_heap_next (S (heap_next w)) w)))
      | Throw e => (Throw e, w)
      end.
Proof.
  unfold Util.addStation. page_unfold.
  destruct (decide (id ∈ ids (stations w))) as [Hin|Hout].
  - destruct (Z.eqb_spec (Util.getStationIndex (stations w) id) (-1)) as [Habs|_]; [|reflexivity].
    apply getStationIndex_absent in Habs. contradiction.
  - apply getStationIndex_absent in Hout. rewrite Hout. simpl.
    destruct (Station.new _ _ _ _ _); reflexivity.
Qed.

(** ** Switching the station *)

(** C6. When a station is current, [switchStation] with its id returns
    without an error and leaves the page as it was: the current station is
    the same object, and no reload of the player is queued. *)
Theorem switch_to_current_is_noop (w : World) (current : Station.t) (id : string) (play : bool) :
  currentStation w = Some current ->
  id = Station.id current ->
  App.switchStation id play w = (Ok tt, w)
  /\ currentStation (run (App.switchStation id play) w) = Some current
  /\ nextTick (run (App.switchStation id play) w) = nextTick w.
Proof.
  intros Hcur ->.
  assert (H : App.switchStation (Station.id current) play w = (Ok tt, w)).
  { unfold App.switchStation. page_unfold. rewrite Hcur, String.eqb_refl. reflexivity. }
  unfold run. rewrite H. simpl. auto.
Qed.

Lemma switch_to_current_is_noop_witness :
  App.switchStation "liquid_radio" true started = (Ok tt, started).
Proof.
  refine (proj1 (switch_to_current_is_noop started
    (Station.mk 0 "liquid_radio" "Liquid Radio" "Drum and bass"
       [ {| src := "http://stream.example/liquid"; type := "audio/mpeg" |} ])
    "liquid_radio" true _ _)); reflexivity.
Defined.

Lemma switchStation_known (w : World) (id : string) (play : bool) :
  id ∈ ids (stations w) ->
  (forall current, currentStation w = Some current -> Station.id current <> id) ->
  exists st : Station.t,
    array_get (stations w) (Util.getStationIndex (stations w) id) = Some st
    /\ Station.id st = id
    /\ App.switchStation id play w =
         (Ok tt, set_logs (logs w ++ [(DEBUG, "Switched station to")])
                   (set_nextTick (nextTick w ++ [play]) (set_currentStation (Some st) w))).
Proof.
  intros Hin Hother.
  assert (Hfound : Util.getStationIndex (stations w) id <> -1).
  { intros Habs. apply getStationIndex_absent in Habs. contradiction. }
  destruct (getStationIndex_lookup (stations w) id Hfound) as (st & Hget & Hid).
  exists st. split; [exact Hget|]. split; [exact Hid|].
  unfold App.switchStation. page_unfold.
  assert (Hsame : match currentStation w with
                  | Some current => String.eqb id (Station.id current)
                  | None => false
                  end = false).
  { destruct (currentStation w) as [c|] eqn:Hc; [|reflexivity].
    apply String.eqb_neq. intros ->. now apply (Hother c). }
  rewrite Hsame.
  destruct (Z.eqb_spec (Util.getStationIndex (stations w) id) (-1)); [contradiction|].
  cbn. rewrite Hget. reflexivity.
Qed.

(** X3. Switching to a station of the registry that is not the current one
    makes the registry's station of that id the current station, queues one
    reload of the player with the [play] flag, logs the switch, and leaves
    the registry as it is. *)
Theorem switch_to_known_station (w : World) (id : string) (play : bool) :
  id ∈ ids (stations w) ->
  (forall current, currentStation w = Some current -> Station.id current <> id) ->
  exists st : Station.t,
    array_get (stations w) (Util.getStationIndex (stations w) id) = Some st
    /\ Station.id st = id
    /\ outcome (App.switchStation id play) w = Ok tt
    /\ currentStation (run (App.switchStation id play) w) = Some st
    /\ nextTick (run (App.switchStation id play) w) = (nextTick w ++ [play])%list
    /\ logs (run (App.switchStation id play) w) = (logs w ++ [(DEBUG, "Switched station to")])%list
    /\ stations (run (App.switchStation id play) w) = stations w.
Proof.
  intros Hin Hother.
  destruct (switchStation_known w id play Hin Hother) as (st & Hget & Hid & Hrun).
  exists st. unfold outcome, run. rewrite Hrun. repeat split; assumption.
Qed.

Lemma switch_to_known_station_witness :
  exists st : Station.t,
    Station.id st = "jazz_fm"
    /\ currentStation (run (App.switchStation "jazz_fm" true) started) = Some st.
Proof.
  destruct (switch_to_known_station started "jazz_fm" true) as (st & _ & Hid & _ & Hcur & _).
  - vm_compute. apply list_elem_of_In. simpl. right; left; reflexivity.
  - intros current [= <-]. discriminate.
  - exists st. split; [exact Hid | exact Hcur].
Defined.

(** X4. A route to an id that is neither in the registry nor current: the
    watcher of the route catches the failure of [switchStation] and pushes
    the default station to the router; the current station stays. The route
    is then what the router resolves the default id to against the current
    path: "/" and the id when the id is a plain segment and the current path
    has one segment. *)
Theorem route_to_unknown_falls_back (w : World) (current : Station.t) (path : string) :
  currentStation w = Some current ->
  substring1 path ∉ ids (stations w) ->
  substring1 path <> Station.id current ->
  outcome (App.watch_route path) w = Ok tt
  /\ route (run (App.watch_route path) w) = VueRouter.resolve (defaultStation w) (route w)
  /\ (plain (defaultStation w) = true -> single_segment (route w) = true ->
      route (run (App.watch_route path) w) = String "/" (defaultStation w))
  /\ currentStation (run (App.watch_route path) w) = Some current
  /\ nextTick (run (App.watch_route path) w) = nextTick w.
Proof.
  intros Hcur Habs Hne.
  assert (Hsw : forall v, currentStation v = Some current -> stations v = stations w ->
            App.switchStation (substring1 path) true v = (Throw (UnknownStation (substring1 path)), v)).
  { intros v Hv Hst. unfold App.switchStation. page_unfold. rewrite Hv, Hst.
    destruct (String.eqb_spec (substring1 path) (Station.id current)) as [?|_]; [contradiction|].
    apply getStationIndex_absent in Habs. now rewrite Habs. }
  unfold App.watch_route, outcome, run, bind, try_catch, log_debug, modify.
  rewrite Hsw by (try exact Hcur; reflexivity).
  split; [reflexivity|]. split; [reflexivity|]. split; [|split; [exact Hcur | reflexivity]].
  intros Hplain Hsingle. cbn. now apply resolve_plain.
Qed.

Lemma route_to_unknown_falls_back_witness :
  route (run (App.watch_route "/nowhere") (set_route "/nowhere" started)) = "/liquid_radio".
Proof.
  assert (H1 : currentStation (set_route "/nowhere" started)
               = Some (Station.mk 0 "liquid_radio" "Liquid Radio" "Drum and bass"
                         [ {| src := "http://stream.example/liquid"; type := "audio/mpeg" |} ]))
    by reflexivity.
  assert (H2 : substring1 "/nowhere" ∉ ids (stations (set_route "/nowhere" started)))
    by (apply getStationIndex_absent; reflexivity).
  assert (H3 : substring1 "/nowhere" <> "liquid_radio") by discriminate.
  destruct (route_to_unknown_falls_back _ _ "/nowhere" H1 H2 H3) as (_ & _ & Hroute & _).
  apply Hroute; reflexivity.
Defined.

(** C5, as amended. When a station is current and [id] is neither in the
    registry nor the id of the current station, [switchStation] fails with
    UnknownStation and leaves the page as it was; the current station is the
    same object. *)
Theorem switch_unknown_fails (w : World) (current : Station.t) (id : string) (play : bool) :
  currentStation w = Some current ->
  id ∉ ids (stations w) ->
  id <> Station.id current ->
  App.switchStation id play w = (Throw (UnknownStation id), w)
  /\ currentStation (run (App.switchStation id play) w) = Some current.
Proof.
  intros Hcur Habs Hne.
  assert (H : App.switchStation id play w = (Throw (UnknownStation id), w)).
  { unfold App.switchStation. page_unfold. rewrite Hcur.
    destruct (String.eqb_spec id (Station.id current)) as [?|_]; [contradiction|].
    apply getStationIndex_absent in Habs. rewrite Habs. reflexivity. }
  unfold run. rewrite H. simpl. auto.
Qed.

Lemma switch_unknown_fails_witness :
  App.switchStation "unknown_id" true started = (Throw (UnknownStation "unknown_id"), started).
Proof.
  refine (proj1 (switch_unknown_fails started
    (Station.mk 0 "liquid_radio" "Liquid Radio" "Drum and bass"
       [ {| src := "http://stream.example/liquid"; type := "audio/mpeg" |} ])
    "unknown_id" true _ _ _)).
  - reflexivity.
  - apply getStationIndex_absent. reflexivity.
  - discriminate.
Defined.

(** C5 as it is stated fails: on the page where the current station has been
    deleted, its id is not in the registry, and [switchStation] with that id
    returns without an error. *)
Lemma switch_to_deleted_current_returns :
  ~ (forall (w : World) (current : Station.t) (id : string) (play : bool),
       currentStation w = Some current ->
       id ∉ ids (stations w) ->
       outcome (App.switchStation id play) w = Throw (UnknownStation id)).
Proof.
  intros H.
  specialize (H current_deleted
    (Station.mk 0 "liquid_radio" "Liquid Radio" "Drum and bass"
       [ {| src := "http://stream.example/liquid"; type := "audio/mpeg" |} ])
    "liquid_radio" true).
  assert (Hcur : currentStation current_deleted = Some
    (Station.mk 0 "liquid_radio" "Liquid Radio" "Drum and bass"
       [ {| src := "http://stream.example/liquid"; type := "audio/mpeg" |} ])) by reflexivity.
  assert (Habs : "liquid_radio" ∉ ids (stations current_deleted)).
  { apply getStationIndex_absent. reflexivity. }
  specialize (H Hcur Habs). vm_compute in H. discriminate H.
Qed.

(** *** The id of a new station *)

Lemma lower_char_space (c : ascii) : lower_char c = " "%char <-> c = " "%char.
Proof.
  destruct c as [[] [] [] [] [] [] [] []]; vm_compute; split; intros H;
    first [reflexivity | discriminate H].
Qed.

Lemma toLowerCase_app (a b : string) :
  toLowerCase (a ++ b) = (toLowerCase a ++ toLowerCase b)%string.
Proof. induction a as [|c a IH]; simpl; [reflexivity | now rewrite IH]. Qed.

Lemma toLowerCase_get_space (s : string) (n : nat) :
  String.get n (toLowerCase s) = Some " "%char <-> String.get n s = Some " "%char.
Proof.
  revert n. induction s as [|c s IH]; intros n; simpl; [reflexivity|].
  destruct n as [|n]; [|apply IH].
  split; intros H; injection H as H; f_equal; now apply lower_char_space.
Qed.

Lemma replace_without_space (s : string) :
  has_space s = false -> replace " " "_" s = s.
Proof.
  induction s as [|c s IH]; simpl; [reflexivity|].
  destruct (Ascii.eqb c " "); simpl; [discriminate|].
  intros H. now rewrite IH.
Qed.

Lemma replace_first_space (a b : string) :
  has_space a = false ->
  replace " " "_" (a ++ String " " b) = (a ++ String "_" b)%string.
Proof.
  induction a as [|c a IH]; simpl; [reflexivity|].
  destruct (Ascii.eqb c " "); simpl; [discriminate|].
  intros H. now rewrite IH.
Qed.

(** What the add button does, by the outcome of [Util.addStation]. *)
Lemma editor_addStation_by_cases (lower : string -> string) (w : World) (d : Draft.t) :
  selectedStation w = Some d ->
  let d' := Draft.mk (Draft.isNew d) (lower (replace " " "_" (Draft.title d)))
              (Draft.title d) (Draft.description d) (Draft.source d) in
  StationEditor.addStation_by lower w =
    match Util.addStation (Draft.id d') (Draft.title d) (Draft.description d) (Draft.source d)
            (set_selectedStation (Some d') (set_validationError None w)) with
    | (Ok _, w2) => (Ok tt, set_validationError None (set_dialogOpen false w2))
    | (Throw e, w2) =>
      (Ok tt, set_validationError (Some e)
                (set_logs (logs w2 ++ [(ERROR, "User attempted to add station but it failed")]) w2))
    end.
Proof.
  intros Hd d'. unfold StationEditor.addStation_by, StationEditor.the_selectedStation,
    StationEditor.dialog_close. page_unfold. simpl. rewrite Hd. fold d'.
  destruct (Util.addStation _ _ _ _ _) as [[[]|e] w2]; reflexivity.
Qed.

Lemma editor_addStation_cases (w : World) (d : Draft.t) :
  selectedStation w = Some d ->
  let d' := Draft.mk (Draft.isNew d) (StationEditor.station_id (Draft.title d))
              (Draft.title d) (Draft.description d) (Draft.source d) in
  StationEditor.addStation w =
    match Util.addStation (Draft.id d') (Draft.title d) (Draft.description d) (Draft.source d)
            (set_selectedStation (Some d') (set_validationError None w)) with
    | (Ok _, w2) => (Ok tt, set_validationError None (set_dialogOpen false w2))
    | (Throw e, w2) =>
      (Ok tt, set_validationError (Some e)
                (set_logs (logs w2 ++ [(ERROR, "User attempted to add station but it failed")]) w2))
    end.
Proof. intros Hd. exact (editor_addStation_by_cases toLowerCase w d Hd). Qed.

(** C1. Adding a station whose id already occurs in the registry fails with
    DuplicateStation and changes nothing: the page after the call is the page
    before it, so the registry has the same length and the same stations in
    the same order. The add button, whose draft gives that id, shows the
    error and leaves the registry and the dialog as they were. *)
Theorem add_duplicate_rejected (w : World) (id title description : string) (source : list Source) :
  id ∈ ids (stations w) ->
  Util.addStation id title description source w = (Throw (DuplicateStation id), w)
  /\ items (stations (run (Util.addStation id title description source) w)) = items (stations w)
  /\ length (items (stations (run (Util.addStation id title description source) w)))
     = length (items (stations w))
  /\ (forall d : Draft.t,
        selectedStation w = Some d ->
        StationEditor.station_id (Draft.title d) = id ->
        outcome StationEditor.addStation w = Ok tt
        /\ stations (run StationEditor.addStation w) = stations w
        /\ validationError (run StationEditor.addStation w) = Some (DuplicateStation id)
        /\ dialogOpen (run StationEditor.addStation w) = dialogOpen w).
Proof.
  intros Hin.
  assert (H : Util.addStation id title description source w = (Throw (DuplicateStation id), w)).
  { rewrite addStation_cases. destruct (decide (id ∈ ids (stations w))); [reflexivity | contradiction]. }
  split; [exact H|]. unfold run at 1 2. rewrite H. split; [reflexivity|]. split; [reflexivity|].
  intros d Hd Hid.
  pose proof (editor_addStation_cases w d Hd) as Hcases. cbv zeta in Hcases.
  rewrite addStation_cases in Hcases.
  cbn [stations set_selectedStation set_validationError heap_next Draft.id] in Hcases.
  rewrite Hid in Hcases.
  destruct (decide (id ∈ ids (stations w))) as [_|Hout] in Hcases; [|contradiction].
  unfold outcome, run. rewrite Hcases. repeat split.
Qed.

Lemma add_duplicate_rejected_witness :
  "jazz_fm" ∈ ids (stations started)
  /\ Util.addStation "jazz_fm" "Jazz FM" "again" [ {| src := "http://y"; type := "" |} ] started
     = (Throw (DuplicateStation "jazz_fm"), started).
Proof.
  assert (Hin : "jazz_fm" ∈ ids (stations started)).
  { vm_compute. apply list_elem_of_In. simpl. right; left; reflexivity. }
  split; [exact Hin|].
  exact (proj1 (add_duplicate_rejected started "jazz_fm" "Jazz FM" "again"
                  [ {| src := "http://y"; type := "" |} ] Hin)).
Defined.

Lemma toLowerCase_length (s : string) : String.length (toLowerCase s) = String.length s.
Proof. induction s as [|c s IH]; cbn [toLowerCase String.length]; [reflexivity | now rewrite IH]. Qed.

Lemma replace_length (pat rep : ascii) (s : string) :
  String.length (replace pat rep s) = String.length s.
Proof.
  induction s as [|c s IH]; cbn [replace]; [reflexivity|].
  destruct (Ascii.eqb c pat); cbn [String.length]; [reflexivity | now rewrite IH].
Qed.

Lemma toLowerCase_get (s : string) (n : nat) (c : ascii) :
  String.get n s = Some c -> String.get n (toLowerCase s) = Some (lower_char c).
Proof.
  revert n. induction s as [|c0 s IH]; intros n; cbn [toLowerCase String.get]; [discriminate|].
  destruct n as [|n]; [now intros [= ->] | apply IH].
Qed.

(** C8. The add button derives the id of the station from the title of the
    draft: the first space of the title becomes an underscore, later spaces
    are kept, and the result is lowered by the engine's [toLowerCase], here
    any function [lower]. The draft carries that id. When the add is
    rejected the error is stored for the dialog and the dialog stays as it
    is; when it goes through the dialog is closed. On an ASCII title the
    lowering turns the letters A to Z into a to z and keeps every other
    character, so the id has the length of the title and its spaces are the
    spaces left by the replacement. *)
Theorem addStation_derives_id (lower : string -> string) (w : World) (d : Draft.t) :
  selectedStation w = Some d ->
  let title := Draft.title d in
  let id := lower (replace " " "_" title) in
  let w' := run (StationEditor.addStation_by lower) w in
  (has_space title = false -> id = lower title)
  /\ (forall a b : string,
        title = (a ++ String " " b)%string -> has_space a = false ->
        id = lower (a ++ String "_" b)%string)
  /\ outcome (StationEditor.addStation_by lower) w = Ok tt
  /\ selectedStation w'
     = Some (Draft.mk (Draft.isNew d) id title (Draft.description d) (Draft.source d))
  /\ match (if decide (id ∈ ids (stations w)) then Throw (DuplicateStation id)
            else Station.new (heap_next w) id title (Draft.description d) (Draft.source d)) with
     | Throw e =>
       validationError w' = Some e /\ dialogOpen w' = dialogOpen w /\ stations w' = stations w
     | Ok st =>
       validationError w' = None /\ dialogOpen w' = false
       /\ stations w' = array_push (stations w) st /\ Station.id st = id
     end
  /\ (ascii_text title = true ->
      exists id' : string,
        selectedStation (run StationEditor.addStation w)
        = Some (Draft.mk (Draft.isNew d) id' title (Draft.description d) (Draft.source d))
        /\ String.length id' = String.length title
        /\ (forall (n : nat) (c : ascii),
              String.get n (replace " " "_" title) = Some c ->
              String.get n id'
              = Some (if ((65 <=? nat_of_ascii c) && (nat_of_ascii c <=? 90))%nat
                      then ascii_of_nat (nat_of_ascii c + 32) else c))
        /\ (forall n : nat,
              String.get n id' = Some " "%char
              <-> String.get n (replace " " "_" title) = Some " "%char)).
Proof.
  intros Hd title id w'.
  assert (Hdraft : forall f : string -> string,
            selectedStation (run (StationEditor.addStation_by f) w)
            = Some (Draft.mk (Draft.isNew d) (f (replace " " "_" title)) title
                      (Draft.description d) (Draft.source d))).
  { intros f. unfold run. rewrite (editor_addStation_by_cases f w d Hd). cbn [Draft.id].
    rewrite addStation_cases.
    cbn [stations set_selectedStation set_validationError heap_next].
    destruct (decide _); [reflexivity|].
    destruct (Station.new _ _ _ _ _); reflexivity. }
  split; [|split; [|split; [|split; [|split]]]].
  - intros H. unfold id. now rewrite replace_without_space.
  - intros a b Ht Ha. unfold id. now rewrite Ht, replace_first_space.
  - unfold outcome. rewrite (editor_addStation_by_cases lower w d Hd).
    destruct (Util.addStation _ _ _ _ _) as [[[]|e] w2]; reflexivity.
  - apply Hdraft.
  - unfold w', run. rewrite (editor_addStation_by_cases lower w d Hd). cbn [Draft.id].
    rewrite addStation_cases. fold title. fold id.
    cbn [stations set_selectedStation set_validationError heap_next].
    destruct (decide (id ∈ ids (stations w))); [simpl; auto|].
    unfold Station.new.
    destruct (is_empty id); [simpl; auto|].
    destruct (is_empty title); [simpl; auto|].
    destruct (negb _); simpl; auto.
  - intros _. exists (toLowerCase (replace " " "_" title)).
    split; [exact (Hdraft toLowerCase)|].
    split; [now rewrite toLowerCase_length, replace_length|].
    split; [intros n c; apply toLowerCase_get | intros n; apply toLowerCase_get_space].
Qed.

Lemma addStation_derives_id_witness :
  selectedStation (run StationEditor.addStation
                     (set_selectedStation
                        (Some (Draft.mk true "" "Jazz FM Two" "" [ {| src := "http://x/two"; type := "" |} ]))
                        started))
  = Some (Draft.mk true "jazz_fm two" "Jazz FM Two" "" [ {| src := "http://x/two"; type := "" |} ]).
Proof.
  exact (proj1 (proj2 (proj2 (proj2 (addStation_derives_id toLowerCase
    (set_selectedStation
       (Some (Draft.mk true "" "Jazz FM Two" "" [ {| src := "http://x/two"; type := "" |} ]))
       started)
    (Draft.mk true "" "Jazz FM Two" "" [ {| src := "http://x/two"; type := "" |} ])
    eq_refl))))).
Defined.

(** ** Startup: the stored stations *)

Lemma index_from_app (l r : list Station.t) (id : string) (i : Z) :
  id ∈ map Station.id l -> Util.index_from (l ++ r) id i = Util.index_from l id i.
Proof.
  revert i. induction l as [|s l IH]; intros i Hin; simpl in *.
  - now apply elem_of_nil in Hin.
  - destruct (String.eqb_spec (Station.id s) id) as [|Hne]; [reflexivity|].
    apply IH. apply elem_of_cons in Hin as [Heq|Hin]; [congruence | assumption].
Qed.

(** What the body of the loop does with one stored record. *)
Lemma merge_stored_cases (record : Json) (w : World) :
  App.merge_stored record w =
    match Station.fromJSON (heap_next w) record with
    | Ok st =>
      if decide (Station.id st ∈ ids (stations w))
      then (Ok tt, set_heap_next (S (heap_next w)) w)
      else (Ok tt, set_stationsChanged true
                     (set_stations (array_push (stations w) st) (set_heap_next (S (heap_next w)) w)))
    | Throw _ =>
      (Ok tt, set_logs (logs w ++ [(DEBUG, "addStation() for local storage station failed")]) w)
    end.
Proof.
  unfold App.merge_stored, Util.addStationObject. page_unfold.
  destruct (Station.fromJSON (heap_next w) record) as [st|e]; [|reflexivity].
  cbn [stations set_heap_next].
  destruct (decide (Station.id st ∈ ids (stations w))) as [Hin|Hout].
  - destruct (Z.eqb_spec (Util.getStationIndex (stations w) (Station.id st)) (-1)) as [Habs|_];
      [|reflexivity].
    apply getStationIndex_absent in Habs. contradiction.
  - apply getStationIndex_absent in Hout. rewrite Hout. reflexivity.
Qed.

(** The loop never throws, and only appends stations of ids the registry did
    not have. *)
Lemma merge_loop_appends (records : list Json) (w : World) :
  outcome (forEach records App.merge_stored) w = Ok tt
  /\ exists added : list Station.t,
       stations (run (forEach records App.merge_stored) w)
       = {| items := items (stations w) ++ added; props := props (stations w) |}
       /\ Forall (fun st => Station.id st ∉ ids (stations w)) added.
Proof.
  revert w. induction records as [|record records IH]; intros w.
  - split; [reflexivity|]. exists []. split; [|constructor].
    unfold run; simpl. rewrite app_nil_r. destruct (stations w); reflexivity.
  - cbn [forEach]. unfold outcome, run, bind. rewrite merge_stored_cases.
    destruct (Station.fromJSON (heap_next w) record) as [st|e].
    + destruct (decide (Station.id st ∈ ids (stations w))) as [Hin|Hout].
      * exact (IH (set_heap_next (S (heap_next w)) w)).
      * destruct (IH (set_stationsChanged true
                        (set_stations (array_push (stations w) st)
                           (set_heap_next (S (heap_next w)) w)))) as [Hok (added & Heq & Hall)].
        split; [exact Hok|]. exists (st :: added). split.
        -- unfold run in Heq. rewrite Heq. simpl. now rewrite <- app_assoc.
        -- constructor; [exact Hout|].
           eapply Forall_impl; [exact Hall|]. intros x Hx Hin. apply Hx.
           unfold ids. simpl. rewrite map_app. apply elem_of_app. now left.
    + exact (IH (set_logs (logs w ++ [(DEBUG, "addStation() for local storage station failed")]) w)).
Qed.

(** C2. The loop of [beforeMount] over the stored records discards a record
    whose id is the id of a station of the registry: the registry after the
    loop starts with the stations it had, each at its position and the same
    object, what was appended has other ids, and the station found under a
    seeded id is the seeded station. *)
Theorem stored_duplicates_discarded (w : World) (records : list Json) :
  let w' := run (forEach records App.merge_stored) w in
  outcome (forEach records App.merge_stored) w = Ok tt
  /\ (exists added : list Station.t,
        items (stations w') = (items (stations w) ++ added)%list
        /\ Forall (fun st => Station.id st ∉ ids (stations w)) added)
  /\ (forall (i : nat) (st : Station.t),
        items (stations w) !! i = Some st -> items (stations w') !! i = Some st)
  /\ (forall id : string, id ∈ ids (stations w) ->
        array_get (stations w') (Util.getStationIndex (stations w') id)
        = array_get (stations w) (Util.getStationIndex (stations w) id))
  /\ (forall (record : Json) (st : Station.t),
        Station.fromJSON (heap_next w) record = Ok st ->
        Station.id st ∈ ids (stations w) ->
        stations (run (App.merge_stored record) w) = stations w).
Proof.
  intros w'. destruct (merge_loop_appends records w) as [Hok (added & Heq & Hall)].
  fold w' in Heq. split; [exact Hok|]. split; [|split; [|split]].
  - exists added. rewrite Heq. split; [reflexivity | exact Hall].
  - intros i st Hi. rewrite Heq. simpl. now apply lookup_app_l_Some.
  - intros id Hin. unfold Util.getStationIndex. rewrite Heq. cbn [items].
    rewrite index_from_app by exact Hin.
    destruct (getStationIndex_range (stations w) id) as [Habs|Hr].
    + apply getStationIndex_absent in Habs. contradiction.
    + unfold Util.getStationIndex, array_length in Hr. unfold array_get. cbn [items props].
      destruct (Z.ltb_spec (Util.index_from (items (stations w)) id 0) 0); [lia|].
      apply lookup_app_l. lia.
  - intros record st Hst Hin. unfold run. rewrite merge_stored_cases, Hst.
    destruct (decide (Station.id st ∈ ids (stations w))); [reflexivity | contradiction].
Qed.

Lemma stored_duplicates_discarded_witness :
  stations (run (App.merge_stored stored_liquid) started) = stations started
  /\ map Station.title
       (items (stations (run (App.beforeMount [liquid_radio; jazz_fm])
                           (with_snapshot (JSON_stringify (JArray [stored_liquid; stored_chill]))))))
     = ["Liquid Radio"; "Jazz FM"; "Chill"].
Proof.
  split; [|vm_compute; reflexivity].
  refine (proj2 (proj2 (proj2 (proj2 (stored_duplicates_discarded started []))))
            stored_liquid
            (Station.mk 2 "liquid_radio" "Not Liquid Radio" ""
               [ {| src := "http://elsewhere/stream"; type := "audio/ogg" |} ]) _ _).
  - reflexivity.
  - vm_compute. apply list_elem_of_In. simpl. left; reflexivity.
Defined.

(** *** Computations that do not read the log or the storage *)

Lemma forget_fields (w1 w2 : World) :
  forget w1 = forget w2 ->
  currentStation w1 = currentStation w2 /\ defaultStation w1 = defaultStation w2
  /\ stations w1 = stations w2 /\ route w1 = route w2 /\ heap_next w1 = heap_next w2.
Proof.
  destruct w1, w2. unfold forget, set_logs, set_localStorage. simpl.
  intros H. injection H as -> -> -> -> -> -> -> -> -> ->. repeat split.
Qed.

Lemma forget_set_localStorage (v : option (gmap string string)) (w : World) :
  forget (set_localStorage v w) = forget w.
Proof. reflexivity. Qed.

Lemma forget_set_logs (v : list (Level * string)) (w : World) :
  forget (set_logs v w) = forget w.
Proof. reflexivity. Qed.

Lemma respects_bind {A B} (m : M A) (k : A -> M B) :
  respects_forget m -> (forall a, respects_forget (k a)) -> respects_forget (bind m k).
Proof.
  intros Hm Hk w1 w2 H. unfold bind. destruct (Hm w1 w2 H) as [Hr Hw].
  destruct (m w1) as [[a1|e1] w1'], (m w2) as [[a2|e2] w2']; simpl in *; try discriminate.
  - injection Hr as ->. now apply Hk.
  - injection Hr as ->. auto.
Qed.

Lemma respects_try_catch {A} (m : M A) (h : Error -> M A) :
  respects_forget m -> (forall e, respects_forget (h e)) -> respects_forget (try_catch m h).
Proof.
  intros Hm Hh w1 w2 H. unfold try_catch. destruct (Hm w1 w2 H) as [Hr Hw].
  destruct (m w1) as [[a1|e1] w1'], (m w2) as [[a2|e2] w2']; simpl in *; try discriminate.
  - injection Hr as ->. auto.
  - injection Hr as ->. now apply Hh.
Qed.

Lemma respects_ret {A} (a : A) : respects_forget (ret a).
Proof. intros w1 w2 H. simpl. auto. Qed.

Lemma respects_log_error (msg : string) : respects_forget (log_error msg).
Proof. intros w1 w2 H. simpl. split; [reflexivity|]. now rewrite !forget_set_logs. Qed.

Lemma respects_log_debug (msg : string) : respects_forget (log_debug msg).
Proof. intros w1 w2 H. simpl. split; [reflexivity|]. now rewrite !forget_set_logs. Qed.

Lemma respects_router_push (path : string) : respects_forget (router_push path).
Proof.
  intros w1 w2 H. simpl. split; [reflexivity|].
  destruct w1, w2. unfold forget, set_logs, set_localStorage, set_route in *. simpl in *.
  injection H as -> -> -> -> -> -> -> -> -> ->. reflexivity.
Qed.

Lemma respects_new_Station (id title description : string) (source : list Source) :
  respects_forget (new_Station id title description source).
Proof.
  intros w1 w2 H. unfold new_Station.
  destruct w1, w2. unfold forget, set_logs, set_localStorage, set_heap_next in *. simpl in *.
  injection H as -> -> -> -> -> -> -> -> -> ->.
  destruct (Station.new _ _ _ _ _); simpl; auto.
Qed.

Lemma respects_stations_push (st : Station.t) : respects_forget (stations_push st).
Proof.
  intros w1 w2 H. simpl. split; [reflexivity|].
  destruct w1, w2.
  unfold forget, set_logs, set_localStorage, set_stations, set_stationsChanged in *. simpl in *.
  injection H as -> -> -> -> -> -> -> -> -> ->. reflexivity.
Qed.

Lemma respects_switchStation (id : string) (play : bool) :
  respects_forget (App.switchStation id play).
Proof.
  intros w1 w2 H. destruct w1, w2.
  unfold forget, set_logs, set_localStorage in H. simpl in H.
  injection H as -> -> -> -> -> -> -> -> -> ->.
  unfold App.switchStation. page_unfold. simpl.
  repeat case_match; simpl; auto.
Qed.

Lemma initial_station_unfold (w : World) :
  App.initial_station w =
    (if String.eqb (route w) "/" then App.switchStation (defaultStation w) false
     else
       try_catch (App.switchStation (substring1 (route w)) false)
         (fun _ =>
            log_debug "Route url doesn't contain valid station id, fallback to default." ;;
            App.switchStation (defaultStation w) false ;;
            router_push (defaultStation w))) w.
Proof. reflexivity. Qed.

Lemma respects_initial_station : respects_forget App.initial_station.
Proof.
  intros w1 w2 H. destruct (forget_fields w1 w2 H) as (_ & Hd & _ & Hr & _).
  rewrite !initial_station_unfold, Hr, Hd.
  destruct (String.eqb (route w2) "/").
  - now apply respects_switchStation.
  - apply respects_try_catch; [apply respects_switchStation | intros _ | exact H].
    repeat (apply respects_bind; [|intros _]);
      auto using respects_log_debug, respects_switchStation, respects_router_push.
Qed.

Lemma respects_seed (seeds failedStations : list Raw.t) :
  respects_forget (App.seed seeds failedStations).
Proof.
  revert failedStations. induction seeds as [|station rest IH]; intros failed; simpl.
  - apply respects_ret.
  - apply respects_bind; [|intros a; apply IH].
    apply respects_try_catch; [|intros _; apply respects_ret].
    apply respects_bind; [apply respects_new_Station | intros st].
    apply respects_bind; [apply respects_stations_push | intros _; apply respects_ret].
Qed.

(** *** What a computation leaves alone *)

Section Preserves.

Variable P : World -> World -> Prop.
Hypothesis P_refl : forall w, P w w.
Hypothesis P_trans : forall a b c, P a b -> P b c -> P a c.

Lemma preserves_ret {A} (a : A) : preserves P (ret a).
Proof. intros w. apply P_refl. Qed.

Lemma preserves_throw {A} (e : Error) : preserves P (@throw A e).
Proof. intros w. apply P_refl. Qed.

Lemma preserves_bind {A B} (m : M A) (k : A -> M B) :
  preserves P m -> (forall a, preserves P (k a)) -> preserves P (bind m k).
Proof.
  intros Hm Hk w. unfold bind. specialize (Hm w).
  destruct (m w) as [[a|e] w']; simpl in *; [|exact Hm].
  eapply P_trans; [exact Hm | apply Hk].
Qed.

Lemma preserves_try_catch {A} (m : M A) (h : Error -> M A) :
  preserves P m -> (forall e, preserves P (h e)) -> preserves P (try_catch m h).
Proof.
  intros Hm Hh w. unfold try_catch. specialize (Hm w).
  destruct (m w) as [[a|e] w']; simpl in *; [exact Hm|].
  eapply P_trans; [exact Hm | apply Hh].
Qed.

End Preserves.

Lemma quietly_refl (w : World) : quietly w w.
Proof. split; [reflexivity|]. exists []. now rewrite app_nil_r. Qed.

Lemma quietly_trans (a b c : World) : quietly a b -> quietly b c -> quietly a c.
Proof.
  intros [Hs1 [n1 Hl1]] [Hs2 [n2 Hl2]]. split; [congruence|].
  exists (n1 ++ n2)%list. rewrite Hl2, Hl1. now rewrite app_assoc.
Qed.

Lemma same_stations_refl (w : World) : same_stations w w.
Proof. reflexivity. Qed.

Lemma same_stations_trans (a b c : World) :
  same_stations a b -> same_stations b c -> same_stations a c.
Proof. unfold same_stations. congruence. Qed.

Lemma quiet_log_error (msg : string) : preserves quietly (log_error msg).
Proof. intros w. split; [reflexivity|]. now exists [(ERROR, msg)]. Qed.

Lemma quiet_log_debug (msg : string) : preserves quietly (log_debug msg).
Proof. intros w. split; [reflexivity|]. now exists [(DEBUG, msg)]. Qed.

Lemma quiet_switchStation (id : string) (play : bool) :
  preserves quietly (App.switchStation id play).
Proof.
  intros w. unfold App.switchStation. page_unfold. simpl.
  repeat case_match; simpl; try apply quietly_refl;
    (split; [reflexivity|]; simpl;
     first [eexists; reflexivity | exists []; now rewrite app_nil_r]).
Qed.

Lemma keeps_switchStation (id : string) (play : bool) :
  preserves same_stations (App.switchStation id play).
Proof.
  intros w. unfold App.switchStation. page_unfold. simpl.
  repeat case_match; reflexivity.
Qed.

Lemma quiet_router_push (path : string) : preserves quietly (router_push path).
Proof. intros w. split; [reflexivity|]. exists []. simpl. now rewrite app_nil_r. Qed.

Lemma quiet_initial_station : preserves quietly App.initial_station.
Proof.
  intros w. rewrite initial_station_unfold. destruct (String.eqb (route w) "/").
  - apply quiet_switchStation.
  - apply (preserves_try_catch quietly quietly_trans); [apply quiet_switchStation | intros _].
    repeat (apply (preserves_bind quietly quietly_trans); [|intros _]);
      first [apply quiet_log_debug | apply quiet_switchStation | apply quiet_router_push].
Qed.

Lemma keeps_initial_station : preserves same_stations App.initial_station.
Proof.
  intros w. rewrite initial_station_unfold. destruct (String.eqb (route w) "/").
  - apply keeps_switchStation.
  - apply (preserves_try_catch same_stations same_stations_trans);
      [apply keeps_switchStation | intros _].
    repeat (apply (preserves_bind same_stations same_stations_trans); [|intros _]);
      first [apply keeps_switchStation | intros w0; reflexivity].
Qed.

Lemma seed_cons (station : Raw.t) (rest failedStations : list Raw.t) (w : World) :
  App.seed (station :: rest) failedStations w =
    match Station.new (heap_next w) (Raw.id station) (Raw.title station)
            (Raw.description station) (Raw.source station) with
    | Ok st =>
      App.seed rest failedStations
        (set_stationsChanged true
           (set_stations (array_push (stations w) st) (set_heap_next (S (heap_next w)) w)))
    | Throw _ => App.seed rest (failedStations ++ [station])%list w
    end.
Proof.
  cbn [App.seed]. page_unfold.
  destruct (Station.new _ _ _ _ _); reflexivity.
Qed.

(** Step 1 never throws, touches neither the log nor the storage, and
    appends the validated seeds to the registry. *)
Lemma seed_appends (seeds failedStations : list Raw.t) (w : World) :
  is_Ok (fst (App.seed seeds failedStations w)) = true
  /\ localStorage (snd (App.seed seeds failedStations w)) = localStorage w
  /\ logs (snd (App.seed seeds failedStations w)) = logs w
  /\ stations (snd (App.seed seeds failedStations w))
     = {| items := items (stations w) ++ validated (heap_next w) seeds;
          props := props (stations w) |}.
Proof.
  revert failedStations w. induction seeds as [|station rest IH]; intros failed w.
  - simpl. rewrite app_nil_r. repeat split. now destruct (stations w).
  - rewrite seed_cons. cbn [validated].
    destruct (Station.new (heap_next w) (Raw.id station) (Raw.title station)
                (Raw.description station) (Raw.source station)) as [st|e].
    + destruct (IH failed (set_stationsChanged true
                  (set_stations (array_push (stations w) st)
                     (set_heap_next (S (heap_next w)) w)))) as (Hok & Hs & Hl & Hst).
      rewrite Hst. cbn. rewrite <- app_assoc. auto.
    + exact (IH (failed ++ [station])%list w).
Qed.

Lemma seed_all_appends (seeds : list Raw.t) (w : World) :
  fst (App.seed_all seeds w) = Ok tt
  /\ quietly w (snd (App.seed_all seeds w))
  /\ stations (snd (App.seed_all seeds w))
     = {| items := items (stations w) ++ validated (heap_next w) seeds;
          props := props (stations w) |}.
Proof.
  unfold App.seed_all, bind.
  destruct (seed_appends seeds [] w) as (Hok & Hs & Hl & Hst).
  destruct (App.seed seeds [] w) as [[failed|e] w1]; [|discriminate Hok]. simpl in *.
  destruct failed as [|f failed]; simpl.
  - repeat split; [assumption | exists []; now rewrite app_nil_r | assumption].
  - repeat split; [assumption | eexists; now rewrite Hl | assumption].
Qed.

(** X5. Step 1 of [beforeMount] does not throw and appends to the registry the
    seeds the constructor accepts, in the order of the seed list; a seed it
    rejects is left out. *)
Theorem seeding_keeps_the_valid_seeds (seeds : list Raw.t) (w : World) :
  outcome (App.seed_all seeds) w = Ok tt
  /\ items (stations (run (App.seed_all seeds) w))
     = (items (stations w) ++ validated (heap_next w) seeds)%list
  /\ localStorage (run (App.seed_all seeds) w) = localStorage w.
Proof.
  destruct (seed_all_appends seeds w) as (Hok & [Hs _] & Hst).
  unfold outcome, run. rewrite Hst. auto.
Qed.

Lemma respects_seed_all (seeds : list Raw.t) : respects_forget (App.seed_all seeds).
Proof.
  apply respects_bind; [apply respects_seed|].
  intros [|f failed]; [apply respects_ret | apply respects_log_error].
Qed.

(** Step 2 on a snapshot that does not parse: the failure is logged and the
    entry removed. *)
Lemma load_stored_corrupted (w : World) (store : gmap string string) (text : string) :
  localStorage w = Some store ->
  store !! "stations" = Some text ->
  text <> "" ->
  JSON_parse text = None ->
  App.load_stored w =
    (Ok tt, set_localStorage (Some (delete "stations" store))
              (set_logs (logs w ++ [(ERROR, "Could not parse station config from local storage")]) w)).
Proof.
  intros Hs Ht Hne Hp. unfold App.load_stored. page_unfold. rewrite Hs, Ht, Hp.
  destruct text; [congruence | reflexivity].
Qed.

(** Step 2 without a snapshot does nothing. *)
Lemma load_stored_absent (w : World) (store : gmap string string) :
  localStorage w = Some store ->
  store !! "stations" = None ->
  App.load_stored w = (Ok tt, w).
Proof.
  intros Hs Ht. unfold App.load_stored. page_unfold. now rewrite Hs, Ht.
Qed.

(** C7, as amended. When the stored snapshot is not empty and does not parse
    as JSON, [beforeMount] logs the failure and removes the entry, and goes on
    as it does on the page without a snapshot: reconciliation does not throw,
    the outcome of [beforeMount] is the same, the pages it leaves differ in
    the log only, and the registry holds what it held and the validated seeds. *)
Theorem corrupted_snapshot_erased (seeds : list Raw.t) (w : World)
    (store : gmap string string) (text : string) :
  localStorage w = Some store ->
  store !! "stations" = Some text ->
  text <> "" ->
  JSON_parse text = None ->
  let absent := set_localStorage (Some (delete "stations" store)) w in
  let w' := run (App.beforeMount seeds) w in
  App.load_stored w =
    (Ok tt, set_localStorage (Some (delete "stations" store))
              (set_logs (logs w ++ [(ERROR, "Could not parse station config from local storage")]) w))
  /\ outcome (App.reconcile seeds) w = Ok tt
  /\ localStorage w' = Some (delete "stations" store)
  /\ (ERROR, "Could not parse station config from local storage") ∈ logs w'
  /\ outcome (App.beforeMount seeds) w = outcome (App.beforeMount seeds) absent
  /\ forget w' = forget (run (App.beforeMount seeds) absent)
  /\ localStorage (run (App.beforeMount seeds) absent) = localStorage w'
  /\ items (stations w') = (items (stations w) ++ validated (heap_next w) seeds)%list.
Proof.
  intros Hs Ht Hne Hp absent w'.
  split; [apply (load_stored_corrupted w store text); assumption|].
  (* after the seeds, on the page as it is *)
  assert (Hseed : forall v : World, localStorage v = Some store ->
            App.reconcile seeds v =
              (Ok tt, set_localStorage (Some (delete "stations" store))
                        (set_logs (logs (snd (App.seed_all seeds v))
                                     ++ [(ERROR, "Could not parse station config from local storage")])
                           (snd (App.seed_all seeds v))))).
  { intros v Hv. unfold App.reconcile, bind.
    destruct (seed_all_appends seeds v) as (Hok & [Hst _] & _).
    destruct (App.seed_all seeds v) as [r v1]. simpl in *. subst r.
    apply load_stored_corrupted with (text := text); congruence. }
  (* and on the page without the snapshot *)
  assert (Hseed0 : forall v : World, localStorage v = Some (delete "stations" store) ->
            App.reconcile seeds v = (Ok tt, snd (App.seed_all seeds v))).
  { intros v Hv. unfold App.reconcile, bind.
    destruct (seed_all_appends seeds v) as (Hok & [Hst _] & _).
    destruct (App.seed_all seeds v) as [r v1]. simpl in *. subst r.
    apply load_stored_absent with (store := delete "stations" store);
      [congruence | apply lookup_delete_eq]. }
  split; [unfold outcome; now rewrite Hseed|].
  set (logged := fun v : World => set_logs (logs v ++ [(DEBUG, "Application BEFORE MOUNT")]) v).
  assert (Hrun : forall v, App.beforeMount seeds v =
            match App.reconcile seeds (logged v) with
            | (Ok _, v1) => App.initial_station v1
            | (Throw e, v1) => (Throw e, v1)
            end) by reflexivity.
  unfold w', outcome, run. rewrite !Hrun.
  rewrite (Hseed (logged w)) by exact Hs.
  rewrite (Hseed0 (logged absent)) by reflexivity.
  destruct (seed_all_appends seeds (logged w)) as (_ & [Hst [new Hlog]] & Hreg).
  set (v1 := snd (App.seed_all seeds (logged w))) in *.
  set (v0 := snd (App.seed_all seeds (logged absent))).
  set (vB := set_localStorage _ (set_logs _ v1)).
  assert (Hforget : forget vB = forget v0).
  { unfold vB. rewrite forget_set_localStorage, forget_set_logs.
    apply (respects_seed_all seeds (logged w) (logged absent)). reflexivity. }
  destruct (respects_initial_station vB v0 Hforget) as [Hout Hfin].
  destruct (quiet_initial_station vB) as [HsB [newB HlB]].
  destruct (quiet_initial_station v0) as [Hs0 _].
  destruct (seed_all_appends seeds (logged absent)) as (_ & [Hst0 _] & _). fold v0 in Hst0.
  repeat split.
  - rewrite HsB. reflexivity.
  - rewrite HlB. apply elem_of_app. left. unfold vB. simpl. apply elem_of_app. right. left.
  - exact Hout.
  - exact Hfin.
  - rewrite Hs0, HsB, Hst0. reflexivity.
  - rewrite (keeps_initial_station vB). unfold vB. simpl. fold v1. rewrite Hreg. reflexivity.
Qed.

Lemma corrupted_snapshot_erased_witness :
  localStorage (run (App.beforeMount [liquid_radio; jazz_fm]) (with_snapshot "{not json"))
    = Some (delete "stations" {[ "stations" := "{not json" ]})
  /\ outcome (App.reconcile [liquid_radio; jazz_fm]) (with_snapshot "{not json") = Ok tt.
Proof.
  pose proof (corrupted_snapshot_erased [liquid_radio; jazz_fm] (with_snapshot "{not json")
                {[ "stations" := "{not json" ]} "{not json") as H.
  assert (H1 : localStorage (with_snapshot "{not json") = Some {[ "stations" := "{not json" ]})
    by reflexivity.
  assert (H2 : ({[ "stations" := "{not json" ]} : gmap string string) !! "stations"
               = Some "{not json") by apply lookup_singleton_eq.
  assert (H3 : "{not json" <> "") by discriminate.
  assert (H4 : JSON_parse "{not json" = None) by reflexivity.
  specialize (H H1 H2 H3 H4). cbv zeta in H.
  destruct H as (_ & Hok & Hstore & _). split; [exact Hstore | exact Hok].
Defined.

(** C7 as it is stated fails on the empty string: it does not parse as JSON,
    and reconciliation leaves the entry where it is. *)
Lemma empty_snapshot_is_kept :
  ~ (forall (seeds : list Raw.t) (w : World) (store : gmap string string) (text : string),
       localStorage w = Some store ->
       store !! "stations" = Some text ->
       JSON_parse text = None ->
       localStorage (run (App.reconcile seeds) w) = Some (delete "stations" store)).
Proof.
  intros H.
  specialize (H [liquid_radio; jazz_fm] (with_snapshot "") {[ "stations" := "" ]} "").
  assert (Hkept : localStorage (run (App.reconcile [liquid_radio; jazz_fm]) (with_snapshot ""))
                  = Some {[ "stations" := "" ]}) by reflexivity.
  rewrite Hkept in H.
  assert (Heq : Some ({[ "stations" := "" ]} : gmap string string)
                = Some (delete "stations" {[ "stations" := "" ]})).
  { apply H; [reflexivity | apply lookup_singleton_eq | reflexivity]. }
  apply (f_equal (fun o : option (gmap string string) =>
                    match o with Some m => m !! "stations" | None => None end)) in Heq.
  rewrite lookup_singleton_eq, lookup_delete_eq in Heq. discriminate Heq.
Qed.

(** ** Deleting a station *)

Lemma array_splice_one (arr : JsArray) (i : Z) :
  0 <= i < array_length arr ->
  array_splice arr i 1
  = {| items := take (Z.to_nat i) (items arr) ++ drop (S (Z.to_nat i)) (items arr);
       props := props arr |}.
Proof.
  intros Hi. unfold array_splice. destruct (Z.ltb_spec i 0); [lia|].
  rewrite (Z.min_l i) by lia.
  replace (Z.min (Z.max 1 0) (array_length arr - i)) with 1 by lia.
  replace (Z.to_nat (i + 1)) with (S (Z.to_nat i)) by lia. reflexivity.
Qed.

(** What the delete button does, by whether the id of the draft is in the
    registry. *)
Lemma deleteHandler_cases (w : World) (d : Draft.t) :
  selectedStation w = Some d ->
  StationEditor.deleteHandler w =
    if decide (Draft.id d ∈ ids (stations w)) then
      (Ok tt, set_validationError None (set_dialogOpen false (set_stationsChanged true
                (set_stations
                   (array_splice (stations w) (Util.getStationIndex (stations w) (Draft.id d)) 1) w))))
    else (Ok tt, w).
Proof.
  intros Hd. unfold StationEditor.deleteHandler, StationEditor.the_selectedStation,
    StationEditor.dialog_close. page_unfold. rewrite Hd.
  destruct (decide (Draft.id d ∈ ids (stations w))) as [Hin|Hout].
  - destruct (Z.eqb_spec (Util.getStationIndex (stations w) (Draft.id d)) (-1)) as [Habs|_];
      [|reflexivity].
    apply getStationIndex_absent in Habs. contradiction.
  - apply getStationIndex_absent in Hout. rewrite Hout. reflexivity.
Qed.

(** Removing the first station of an id from a registry without duplicate
    ids leaves no station of that id. *)
Lemma splice_removes_id (arr : JsArray) (id : string) :
  NoDup (ids arr) ->
  id ∈ ids arr ->
  id ∉ ids (array_splice arr (Util.getStationIndex arr id) 1).
Proof.
  intros Hnd Hin.
  assert (Hfound : Util.getStationIndex arr id <> -1).
  { intros Habs. apply getStationIndex_absent in Habs. contradiction. }
  destruct (getStationIndex_range arr id) as [?|Hr]; [contradiction|].
  rewrite array_splice_one by exact Hr.
  unfold Util.getStationIndex, ids in *.
  destruct (index_from_lookup (items arr) id 0) as (s & Hs & Hid & Hbefore); [lia | assumption |].
  rewrite Z.sub_0_r in Hs, Hbefore.
  set (n := Z.to_nat (Util.index_from (items arr) id 0)) in *.
  cbn [items]. rewrite map_app. intros Hmem. apply elem_of_app in Hmem as [Hmem|Hmem].
  - contradiction.
  - rewrite <- (take_drop_middle (items arr) n s Hs) in Hnd.
    rewrite map_app in Hnd. cbn [map] in Hnd. rewrite Hid in Hnd.
    apply NoDup_app in Hnd as (_ & _ & Hnd). apply NoDup_cons in Hnd as [Hnot _].
    contradiction.
Qed.

Lemma occurrences_app (id : string) (l r : list Station.t) :
  occurrences id (l ++ r) = (occurrences id l + occurrences id r)%nat.
Proof. induction l as [|s l IH]; cbn [app occurrences]; [reflexivity | rewrite IH; lia]. Qed.

Lemma occurrences_none (id : string) (l : list Station.t) :
  occurrences id l = 0%nat <-> id ∉ map Station.id l.
Proof.
  induction l as [|s l IH]; cbn [occurrences map].
  - split; [intros _; apply not_elem_of_nil | reflexivity].
  - rewrite not_elem_of_cons, <- IH.
    destruct (String.eqb_spec (Station.id s) id) as [->|Hne]; split.
    + discriminate.
    + intros [H _]. now destruct H.
    + intros H. split; [congruence | exact H].
    + intros [_ H]. exact H.
Qed.

(** The splice of the delete button takes one station of the id away. *)
Lemma splice_removes_one (arr : JsArray) (id : string) :
  id ∈ ids arr ->
  (S (occurrences id (items (array_splice arr (Util.getStationIndex arr id) 1)))
   = occurrences id (items arr))
  /\ (S (length (items (array_splice arr (Util.getStationIndex arr id) 1)))
      = length (items arr)).
Proof.
  intros Hin.
  assert (Hfound : Util.getStationIndex arr id <> -1).
  { intros Habs. apply getStationIndex_absent in Habs. contradiction. }
  destruct (getStationIndex_range arr id) as [?|Hr]; [contradiction|].
  rewrite array_splice_one by exact Hr.
  unfold Util.getStationIndex, array_length in *.
  destruct (index_from_lookup (items arr) id 0) as (s & Hs & Hid & Hbefore); [lia | assumption |].
  rewrite Z.sub_0_r in Hs, Hbefore.
  set (n := Z.to_nat (Util.index_from (items arr) id 0)) in *.
  cbn [items]. apply occurrences_none in Hbefore.
  pose proof (take_drop_middle (items arr) n s Hs) as Hsplit.
  set (before := take n (items arr)) in *. set (after := drop (S n) (items arr)) in *.
  rewrite <- Hsplit.
  rewrite !occurrences_app, !length_app. cbn [occurrences length].
  rewrite Hbefore, Hid, String.eqb_refl. lia.
Qed.




(** C10, as amended. The delete button never writes the current station.
    When the id it deletes is the id of the current station and is in the
    registry, the registry loses its first station of that id, and the
    current station is the object it was before. It is the removed object
    when the entry removed was the current object. When no other station of
    the registry has the id, no station of the id is left, so neither the
    removed object nor the current station is an entry of the registry. *)
Theorem delete_keeps_current_station (w : World) :
  currentStation (run StationEditor.deleteHandler w) = currentStation w
  /\ forall (d : Draft.t) (current : Station.t),
       selectedStation w = Some d ->
       currentStation w = Some current ->
       Draft.id d = Station.id current ->
       Station.id current ∈ ids (stations w) ->
       let w' := run StationEditor.deleteHandler w in
       let n := Z.to_nat (Util.getStationIndex (stations w) (Station.id current)) in
       exists removed : Station.t,
         array_get (stations w) (Util.getStationIndex (stations w) (Station.id current))
         = Some removed
         /\ Station.id removed = Station.id current
         /\ currentStation w' = Some current
         /\ items (stations w') = (take n (items (stations w)) ++ drop (S n) (items (stations w)))%list
         /\ S (length (items (stations w'))) = length (items (stations w))
         /\ (removed = current -> currentStation w' = Some removed)
         /\ ((occurrences (Station.id current) (items (stations w)) <= 1)%nat ->
             (Station.id current ∉ ids (stations w'))
             /\ (removed ∉ items (stations w')) /\ (current ∉ items (stations w'))).
Proof.
  split.
  - unfold run. destruct (selectedStation w) as [d|] eqn:Hd.
    + rewrite (deleteHandler_cases w d Hd). now destruct (decide _).
    + unfold StationEditor.deleteHandler, StationEditor.the_selectedStation. page_unfold.
      now rewrite Hd.
  - intros d current Hd Hcur Hid Hin w' n.
    assert (Hfound : Util.getStationIndex (stations w) (Station.id current) <> -1).
    { intros Habs. apply getStationIndex_absent in Habs. contradiction. }
    destruct (getStationIndex_lookup (stations w) (Station.id current) Hfound)
      as (removed & Hget & Hrid).
    exists removed. split; [exact Hget|]. split; [exact Hrid|].
    assert (Hr : 0 <= Util.getStationIndex (stations w) (Station.id current)
                 < array_length (stations w)).
    { destruct (getStationIndex_range (stations w) (Station.id current)) as [Habs|Hr];
        [contradiction | exact Hr]. }
    assert (Hw' : w' = set_validationError None (set_dialogOpen false (set_stationsChanged true
              (set_stations
                 {| items := take n (items (stations w)) ++ drop (S n) (items (stations w));
                    props := props (stations w) |} w)))).
    { unfold w', run. rewrite (deleteHandler_cases w d Hd), Hid.
      destruct (decide _); [|contradiction]. now rewrite array_splice_one. }
    assert (Hlen : (n < length (items (stations w)))%nat).
    { unfold array_length in Hr. unfold n. lia. }
    rewrite Hw'. cbn [currentStation stations items set_validationError set_dialogOpen
                       set_stationsChanged set_stations].
    split; [exact Hcur|]. split; [reflexivity|]. split; [|split].
    + rewrite length_app, length_take, length_drop. lia.
    + intros ->. exact Hcur.
    + intros Hone.
      assert (Hout : Station.id current ∉
                ids (array_splice (stations w)
                       (Util.getStationIndex (stations w) (Station.id current)) 1)).
      { destruct (splice_removes_one (stations w) (Station.id current) Hin) as [Hocc _].
        apply occurrences_none. lia. }
      rewrite array_splice_one in Hout by exact Hr. fold n in Hout.
      split; [exact Hout|].
      split; intros Hmem; apply Hout; unfold ids; cbn [items]; apply list_elem_of_fmap.
      * now exists removed.
      * now exists current.
Qed.

Lemma delete_keeps_current_station_witness :
  currentStation (run StationEditor.deleteHandler (event (StationEditor.open "liquid_radio") started))
  = Some (Station.mk 0 "liquid_radio" "Liquid Radio" "Drum and bass"
            [ {| src := "http://stream.example/liquid"; type := "audio/mpeg" |} ])
  /\ "liquid_radio" ∉
       ids (stations (run StationEditor.deleteHandler
                        (event (StationEditor.open "liquid_radio") started))).
Proof.
  pose proof (proj2 (delete_keeps_current_station (event (StationEditor.open "liquid_radio") started))
    (Draft.mk false "liquid_radio" "Liquid Radio" "Drum and bass"
       [ {| src := "http://stream.example/liquid"; type := "audio/mpeg" |} ])
    (Station.mk 0 "liquid_radio" "Liquid Radio" "Drum and bass"
       [ {| src := "http://stream.example/liquid"; type := "audio/mpeg" |} ])) as H.
  assert (Hin : "liquid_radio" ∈ ids (stations (event (StationEditor.open "liquid_radio") started))).
  { vm_compute. apply list_elem_of_In. simpl. left; reflexivity. }
  assert (Hone : (occurrences "liquid_radio"
                    (items (stations (event (StationEditor.open "liquid_radio") started))) <= 1)%nat).
  { vm_compute. lia. }
  specialize (H eq_refl eq_refl eq_refl Hin). cbv zeta in H.
  destruct H as (removed & _ & _ & Hcur & _ & _ & _ & Hgone).
  split; [exact Hcur | exact (proj1 (Hgone Hone))].
Defined.

(** C10 as it is stated fails after a save of the current station. "jazz_fm"
    is current, its edit is saved and the editor is opened on it again: the
    save has put a new object in the registry, the delete button removes
    that object, and the current station is still the object of before the
    save, not the one removed. *)
Lemma delete_after_save_removes_another_object :
  ~ (forall (w : World) (d : Draft.t) (current removed : Station.t),
       selectedStation w = Some d ->
       currentStation w = Some current ->
       Draft.id d = Station.id current ->
       array_get (stations w) (Util.getStationIndex (stations w) (Station.id current))
       = Some removed ->
       currentStation (run StationEditor.deleteHandler w) = Some removed).
Proof.
  intros H.
  specialize (H saved_current
    (Draft.mk false "jazz_fm" "Smooth Jazz" ""
       [ {| src := "http://x/stream"; type := "audio/mpeg" |} ])
    (Station.mk 1 "jazz_fm" "Jazz FM" ""
       [ {| src := "http://x/stream"; type := "audio/mpeg" |} ])
    (Station.mk 3 "jazz_fm" "Smooth Jazz" ""
       [ {| src := "http://x/stream"; type := "audio/mpeg" |} ])).
  assert (H1 : selectedStation saved_current
               = Some (Draft.mk false "jazz_fm" "Smooth Jazz" ""
                         [ {| src := "http://x/stream"; type := "audio/mpeg" |} ]))
    by (vm_compute; reflexivity).
  assert (H2 : currentStation saved_current
               = Some (Station.mk 1 "jazz_fm" "Jazz FM" ""
                         [ {| src := "http://x/stream"; type := "audio/mpeg" |} ]))
    by (vm_compute; reflexivity).
  assert (H3 : array_get (stations saved_current)
                 (Util.getStationIndex (stations saved_current) "jazz_fm")
               = Some (Station.mk 3 "jazz_fm" "Smooth Jazz" ""
                         [ {| src := "http://x/stream"; type := "audio/mpeg" |} ]))
    by (vm_compute; reflexivity).
  specialize (H H1 H2 eq_refl H3). vm_compute in H. discriminate H.
Qed.

(** ** Saving an edit *)

(** What the save button does with a draft, by the outcome of the
    constructor. When the id of the draft is not in the registry the handler
    logs it and goes on with the index -1. *)
Lemma saveStationEdit_cases (w : World) (d : Draft.t) :
  selectedStation w = Some d ->
  let stationIndex := Util.getStationIndex (stations w) (Draft.id d) in
  let w0 := set_validationError None w in
  let w1 :=
    if stationIndex =? -1 then
      set_logs (logs w0 ++ [(ERROR, "Attempted to save station data but could not find station in array by id")]) w0
    else w0 in
  StationEditor.saveStationEdit w =
    match Station.new (heap_next w) (Draft.id d) (Draft.title d) (Draft.description d) (Draft.source d) with
    | Ok st =>
      (Ok tt, set_validationError None (set_dialogOpen false
                (set_stations (array_set (stations w) stationIndex st)
                   (set_heap_next (S (heap_next w)) w1))))
    | Throw e =>
      (Ok tt, set_validationError (Some e)
                (set_logs (logs w1 ++ [(ERROR, "User attempted to edit station but it failed")]) w1))
    end.
Proof.
  intros Hd stationIndex w0 w1.
  unfold StationEditor.saveStationEdit, StationEditor.the_selectedStation,
    StationEditor.dialog_close. page_unfold. cbn [selectedStation set_validationError].
  rewrite Hd. subst stationIndex w1 w0.
  change (stations (set_validationError None w)) with (stations w).
  destruct (Util.getStationIndex (stations w) (Draft.id d) =? -1); cbn;
    destruct (Station.new _ _ _ _ _); reflexivity.
Qed.

(** C3, where the code departs from it. On the page where "jazz_fm" was
    deleted while its draft is still selected, the id of the draft is not in
    the registry, and the save button reports nothing: it returns, shows no
    error and closes the dialog. It logs that the station was not found and
    then assigns the new station at the index -1, which leaves the elements
    of the registry as they were and gives the array a property "-1". *)
Theorem save_of_missing_station_reports_nothing :
  Util.getStationIndex (stations deleted_draft) "jazz_fm" = -1
  /\ selectedStation deleted_draft
     = Some (Draft.mk false "jazz_fm" "Jazz FM" ""
               [ {| src := "http://x/stream"; type := "audio/mpeg" |} ])
  /\ outcome StationEditor.saveStationEdit deleted_draft = Ok tt
  /\ validationError (run StationEditor.saveStationEdit deleted_draft) = None
  /\ dialogOpen (run StationEditor.saveStationEdit deleted_draft) = false
  /\ items (stations (run StationEditor.saveStationEdit deleted_draft))
     = items (stations deleted_draft)
  /\ array_get (stations (run StationEditor.saveStationEdit deleted_draft)) (-1)
     = Some (Station.mk 3 "jazz_fm" "Jazz FM" ""
               [ {| src := "http://x/stream"; type := "audio/mpeg" |} ])
  /\ logs (run StationEditor.saveStationEdit deleted_draft)
     = (logs deleted_draft
        ++ [(ERROR, "Attempted to save station data but could not find station in array by id")])%list.
Proof. repeat split; vm_compute; reflexivity. Qed.

(** X1. Where the id of the draft is in the registry and the draft is valid, the
    save button puts the new station at the index of the old one: the length
    and every other position are as before. *)
Theorem save_replaces_in_place (w : World) (d : Draft.t) (st : Station.t) :
  selectedStation w = Some d ->
  Draft.id d ∈ ids (stations w) ->
  Station.new (heap_next w) (Draft.id d) (Draft.title d) (Draft.description d) (Draft.source d) = Ok st ->
  let n := Z.to_nat (Util.getStationIndex (stations w) (Draft.id d)) in
  let w' := run StationEditor.saveStationEdit w in
  outcome StationEditor.saveStationEdit w = Ok tt
  /\ items (stations w') = <[n := st]> (items (stations w))
  /\ items (stations w') !! n = Some st
  /\ length (items (stations w')) = length (items (stations w))
  /\ (forall i : nat, i <> n -> items (stations w') !! i = items (stations w) !! i)
  /\ ids (stations w') = ids (stations w)
  /\ validationError w' = None /\ dialogOpen w' = false.
Proof.
  intros Hd Hin Hst n w'.
  assert (Hr : 0 <= Util.getStationIndex (stations w) (Draft.id d) < array_length (stations w)).
  { destruct (getStationIndex_range (stations w) (Draft.id d)) as [Habs|Hr]; [|exact Hr].
    apply getStationIndex_absent in Habs. contradiction. }
  assert (Hn : (n < length (items (stations w)))%nat).
  { unfold array_length in Hr. unfold n. lia. }
  assert (Hw' : w' = set_validationError None (set_dialogOpen false
            (set_stations
               {| items := <[n := st]> (items (stations w)); props := props (stations w) |}
               (set_heap_next (S (heap_next w)) (set_validationError None w))))).
  { unfold w', run. rewrite (saveStationEdit_cases w d Hd), Hst.
    destruct (Z.eqb_spec (Util.getStationIndex (stations w) (Draft.id d)) (-1)); [lia|].
    unfold array_set. destruct (Z.ltb_spec (Util.getStationIndex (stations w) (Draft.id d)) 0); [lia|].
    destruct (Z.eqb_spec (Util.getStationIndex (stations w) (Draft.id d)) (array_length (stations w)));
      [lia | reflexivity]. }
  assert (Hitems : items (stations w') = <[n := st]> (items (stations w)))
    by now rewrite Hw'.
  split; [unfold outcome; now rewrite (saveStationEdit_cases w d Hd), Hst|].
  split; [exact Hitems|]. rewrite Hitems.
  split; [now apply list_lookup_insert_eq|].
  split; [apply length_insert|].
  split; [intros i Hi; now apply list_lookup_insert_ne|].
  split.
  - unfold ids. rewrite Hitems, list_fmap_insert.
    apply list_insert_id. rewrite list_lookup_fmap.
    unfold Util.getStationIndex in *.
    destruct (index_from_lookup (items (stations w)) (Draft.id d) 0) as (s & Hs & Hid & _);
      [lia | lia |].
    rewrite Z.sub_0_r in Hs. fold n in Hs. rewrite Hs. simpl. f_equal.
    unfold Station.new in Hst. repeat case_match; try discriminate.
    injection Hst as <-. simpl. congruence.
  - rewrite Hw'. split; reflexivity.
Qed.

Lemma save_replaces_in_place_witness :
  items (stations (run StationEditor.saveStationEdit edited))
  = <[1%nat := Station.mk 3 "jazz_fm" "Smooth Jazz" ""
                 [ {| src := "http://x/stream"; type := "audio/mpeg" |} ]]>
      (items (stations edited)).
Proof.
  refine (proj1 (proj2 (save_replaces_in_place edited
    (Draft.mk false "jazz_fm" "Smooth Jazz" "" [ {| src := "http://x/stream"; type := "audio/mpeg" |} ])
    (Station.mk 3 "jazz_fm" "Smooth Jazz" "" [ {| src := "http://x/stream"; type := "audio/mpeg" |} ])
    _ _ _))).
  - reflexivity.
  - vm_compute. apply list_elem_of_In. simpl. right; left; reflexivity.
  - reflexivity.
Defined.

(** ** The stored snapshot *)

Lemma flush_cases (w : World) :
  App.flush w =
    if stationsChanged w then
      (Ok tt,
       match localStorage w with
       | Some store =>
         set_localStorage (Some (<["stations" := stringify_stations (stations w)]> store))
           (set_stationsChanged false w)
       | None => set_stationsChanged false w
       end)
    else (Ok tt, w).
Proof.
  unfold App.flush, App.watch_stations. page_unfold.
  destruct (stationsChanged w); [|reflexivity]. cbn. now destruct (localStorage w).
Qed.

(** The watcher leaves the snapshot in step with the registry. *)
Lemma in_sync_after_flush (w : World) :
  stationsChanged w = true -> in_sync (run App.flush w).
Proof.
  intros Hc. unfold run. rewrite flush_cases, Hc. cbn [snd].
  intros store Hs. destruct (localStorage w) as [store0|] eqn:Hw; cbn in Hs.
  - injection Hs as <-. apply lookup_insert_eq.
  - congruence.
Qed.

Lemma in_sync_without_change (w v : World) :
  stationsChanged v = false -> localStorage v = localStorage w -> stations v = stations w ->
  in_sync w -> in_sync (run App.flush v).
Proof.
  intros Hc Hs Hst Hw. unfold run. rewrite flush_cases, Hc. cbn [snd].
  intros store Hv. rewrite Hst. apply Hw. congruence.
Qed.

Lemma event_after (handler : M unit) (w w1 : World) :
  handler w = (Ok tt, w1) -> event handler w = run App.flush w1.
Proof. intros H. unfold event, run, bind. now rewrite H. Qed.

Lemma in_sync_of_snapshot (w : World) :
  snapshot w = Some (stringify_stations (stations w)) -> in_sync w.
Proof. intros H store Hs. unfold snapshot in H. now rewrite Hs in H. Qed.

(** C4, where the code departs from it. The editor is opened on "jazz_fm"
    with the snapshot in step with the registry, the title of the draft is
    changed, and the save button is pressed. The registry has the new title;
    the handler assigned to an index of the array, Vue was not told, the
    watcher did not run, and storage still holds the snapshot of before. *)
Theorem save_leaves_the_snapshot_stale :
  snapshot edited = Some (stringify_stations (stations edited))
  /\ stationsChanged edited = false
  /\ outcome (StationEditor.saveStationEdit ;; App.flush) edited = Ok tt
  /\ map Station.title (items (stations edited)) = ["Liquid Radio"; "Jazz FM"]
  /\ map Station.title (items (stations (event StationEditor.saveStationEdit edited)))
     = ["Liquid Radio"; "Smooth Jazz"]
  /\ snapshot (event StationEditor.saveStationEdit edited) = snapshot edited
  /\ snapshot (event StationEditor.saveStationEdit edited)
     <> Some (stringify_stations (stations (event StationEditor.saveStationEdit edited))).
Proof.
  split; [vm_compute; reflexivity|].
  split; [vm_compute; reflexivity|].
  split; [vm_compute; reflexivity|].
  split; [vm_compute; reflexivity|].
  split; [vm_compute; reflexivity|].
  split; [vm_compute; reflexivity|].
  intros H. apply (f_equal (option_map String.length)) in H. vm_compute in H. discriminate H.
Qed.

(** X2. With a draft selected, no change waiting for the watcher and the
    snapshot in step with the registry, the add button and the delete button
    leave the snapshot in step: both change the array through [push] and
    [splice], which Vue sees, and when they change nothing the storage is
    not written. *)
Theorem add_and_delete_keep_the_snapshot (w : World) (d : Draft.t) :
  selectedStation w = Some d ->
  stationsChanged w = false ->
  in_sync w ->
  in_sync (event StationEditor.addStation w)
  /\ in_sync (event StationEditor.deleteHandler w).
Proof.
  intros Hd Hc Hw. split.
  - pose proof (editor_addStation_cases w d Hd) as Hcases. cbv zeta in Hcases.
    rewrite addStation_cases in Hcases.
    cbn [stations set_selectedStation set_validationError heap_next Draft.id] in Hcases.
    destruct (decide _) as [Hin|Hout] in Hcases.
    + rewrite (event_after _ _ _ Hcases). now apply (in_sync_without_change w).
    + destruct (Station.new _ _ _ _ _) as [st|e] in Hcases.
      * rewrite (event_after _ _ _ Hcases). now apply in_sync_after_flush.
      * rewrite (event_after _ _ _ Hcases). now apply (in_sync_without_change w).
  - pose proof (deleteHandler_cases w d Hd) as Hcases.
    destruct (decide _) as [Hin|Hout] in Hcases.
    + rewrite (event_after _ _ _ Hcases). now apply in_sync_after_flush.
    + rewrite (event_after _ _ _ Hcases). now apply (in_sync_without_change w).
Qed.

Lemma add_and_delete_keep_the_snapshot_witness :
  in_sync (event StationEditor.deleteHandler (event (StationEditor.open "jazz_fm") started)).
Proof.
  refine (proj2 (add_and_delete_keep_the_snapshot (event (StationEditor.open "jazz_fm") started)
    (Draft.mk false "jazz_fm" "Jazz FM" "" [ {| src := "http://x/stream"; type := "audio/mpeg" |} ])
    _ _ _)).
  - reflexivity.
  - reflexivity.
  - apply in_sync_of_snapshot. vm_compute. reflexivity.
Defined.

(** ** Without storage, and opening the editor *)

(** X6. Without [localStorage], step 2 of [beforeMount] and the watcher of
    the registry do nothing. *)
Theorem without_storage_nothing_is_stored (w : World) :
  localStorage w = None ->
  App.load_stored w = (Ok tt, w) /\ App.watch_stations w = (Ok tt, w).
Proof.
  intros Hs. unfold App.load_stored, App.watch_stations. page_unfold. now rewrite Hs.
Qed.

Lemma without_storage_nothing_is_stored_witness :
  App.load_stored (set_localStorage None started) = (Ok tt, set_localStorage None started).
Proof.
  refine (proj1 (without_storage_nothing_is_stored (set_localStorage None started) _)).
  reflexivity.
Defined.

(** X7. Opening the editor on an id of the registry stages a draft with the
    fields of the registry's station of that id, opens the dialog and leaves
    the registry and the current station as they are; on an id that is not
    in the registry it throws and changes nothing. *)
Theorem open_stages_a_copy (w : World) (id : string) :
  id <> "" ->
  (id ∉ ids (stations w) -> StationEditor.open id w = (Throw InvalidOpen, w))
  /\ (id ∈ ids (stations w) ->
      exists live : Station.t,
        array_get (stations w) (Util.getStationIndex (stations w) id) = Some live
        /\ outcome (StationEditor.open id) w = Ok tt
        /\ selectedStation (run (StationEditor.open id) w)
           = Some (Draft.mk false id (Station.title live) (Station.description live)
                     (Station.source live))
        /\ dialogOpen (run (StationEditor.open id) w) = true
        /\ stations (run (StationEditor.open id) w) = stations w
        /\ currentStation (run (StationEditor.open id) w) = currentStation w).
Proof.
  intros Hne.
  assert (Hfull : is_empty id = false) by (destruct id; [congruence | reflexivity]).
  split.
  - intros Habs. apply getStationIndex_absent in Habs.
    unfold StationEditor.open. page_unfold. rewrite Hfull. cbn [negb]. now rewrite Habs.
  - intros Hin.
    assert (Hfound : Util.getStationIndex (stations w) id <> -1).
    { intros Habs. apply getStationIndex_absent in Habs. contradiction. }
    destruct (getStationIndex_lookup (stations w) id Hfound) as (live & Hget & Hid).
    exists live. split; [exact Hget|].
    assert (Hrun : StationEditor.open id w =
              (Ok tt, set_dialogOpen true
                        (set_selectedStation
                           (Some (Draft.mk false id (Station.title live)
                                    (Station.description live) (Station.source live)))
                           (set_heap_next (S (heap_next w)) w)))).
    { unfold StationEditor.open, StationEditor.dialog_open. page_unfold. rewrite Hfull. cbn [negb].
      destruct (Z.eqb_spec (Util.getStationIndex (stations w) id) (-1)); [contradiction|].
      rewrite Hget. cbn. now rewrite Hid. }
    unfold outcome, run. rewrite Hrun. repeat split.
Qed.

Lemma open_stages_a_copy_witness :
  StationEditor.open "nowhere" started = (Throw InvalidOpen, started).
Proof.
  refine (proj1 (open_stages_a_copy started "nowhere" _) _).
  - discriminate.
  - apply getStationIndex_absent. reflexivity.
Defined.

(** X8. At the route "/" with no station current, [beforeMount]'s choice of
    the first station makes the registry's station of the default id the
    current one and queues a reload that does not play; when the default id
    is not in the registry it throws, and startup with it. *)
Theorem initial_station_at_root (w : World) :
  route w = "/" ->
  currentStation w = None ->
  (defaultStation w ∉ ids (stations w) ->
     App.initial_station w = (Throw (UnknownStation (defaultStation w)), w))
  /\ (defaultStation w ∈ ids (stations w) ->
      exists st : Station.t,
        Station.id st = defaultStation w
        /\ outcome App.initial_station w = Ok tt
        /\ currentStation (run App.initial_station w) = Some st
        /\ nextTick (run App.initial_station w) = (nextTick w ++ [false])%list).
Proof.
  intros Hroute Hcur. rewrite initial_station_unfold, Hroute. cbn [String.eqb Ascii.eqb Bool.eqb].
  split.
  - intros Habs. apply getStationIndex_absent in Habs.
    unfold App.switchStation. page_unfold. now rewrite Hcur, Habs.
  - intros Hin.
    destruct (switchStation_known w (defaultStation w) false Hin) as (st & _ & Hid & Hrun).
    { intros c Hc. congruence. }
    exists st. split; [exact Hid|].
    unfold outcome, run. rewrite initial_station_unfold, Hroute.
    cbn [String.eqb Ascii.eqb Bool.eqb]. rewrite Hrun. repeat split.
Qed.

Lemma initial_station_at_root_witness :
  App.initial_station (set_stations empty_array fresh_page)
  = (Throw (UnknownStation "liquid_radio"), set_stations empty_array fresh_page).
Proof.
  refine (proj1 (initial_station_at_root (set_stations empty_array fresh_page) _ _) _).
  - reflexivity.
  - reflexivity.
  - apply getStationIndex_absent. reflexivity.
Defined.

(** ** The editor and the session keep to themselves *)

Lemma switchStation_cases (id : string) (play : bool) (w : World) :
  App.switchStation id play w =
    if match currentStation w with
       | Some current => String.eqb id (Station.id current)
       | None => false
       end
    then (Ok tt, w)
    else if Util.getStationIndex (stations w) id =? -1 then (Throw (UnknownStation id), w)
    else
      match array_get (stations w) (Util.getStationIndex (stations w) id) with
      | Some st =>
        (Ok tt, set_logs (logs w ++ [(DEBUG, "Switched station to")])
                  (set_nextTick (nextTick w ++ [play]) (set_currentStation (Some st) w)))
      | None =>
        (Throw (TypeError "this.stream.currentStation is undefined"),
         set_nextTick (nextTick w ++ [play]) (set_currentStation None w))
      end.
Proof.
  unfold App.switchStation. page_unfold.
  destruct (match currentStation w with Some _ => _ | None => _ end); [reflexivity|].
  destruct (_ =? -1); [reflexivity|]. cbn.
  destruct (array_get _ _); reflexivity.
Qed.

Lemma open_cases (id : string) (w : World) :
  StationEditor.open id w =
    if is_empty id then
      (Ok tt, set_dialogOpen true (set_selectedStation
                (Some (Draft.mk true "" "" "" [ {| src := ""; type := "" |} ])) w))
    else if Util.getStationIndex (stations w) id =? -1 then (Throw InvalidOpen, w)
    else
      match array_get (stations w) (Util.getStationIndex (stations w) id) with
      | Some live =>
        (Ok tt, set_dialogOpen true (set_selectedStation
                  (Some (Draft.mk false (Station.id live) (Station.title live)
                           (Station.description live) (Station.source live)))
                  (set_heap_next (S (heap_next w)) w)))
      | None => (Throw (TypeError "this.stations[stationIndex] is undefined"), w)
      end.
Proof.
  unfold StationEditor.open, StationEditor.dialog_open. page_unfold.
  destruct (is_empty id); [reflexivity|]. cbn [negb].
  destruct (_ =? -1); [reflexivity|].
  destruct (array_get _ _); reflexivity.
Qed.

Lemma addStation_no_draft (w : World) :
  selectedStation w = None ->
  StationEditor.addStation w
  = (Throw (TypeError "this.selectedStation is undefined"), set_validationError None w).
Proof.
  intros Hd. unfold StationEditor.addStation, StationEditor.addStation_by,
    StationEditor.the_selectedStation. page_unfold.
  cbn [selectedStation set_validationError]. now rewrite Hd.
Qed.

Lemma saveStationEdit_no_draft (w : World) :
  selectedStation w = None ->
  StationEditor.saveStationEdit w
  = (Ok tt, set_validationError (Some (TypeError "this.selectedStation is undefined"))
              (set_logs (logs w ++ [(ERROR, "User attempted to edit station but it failed")])
                 (set_validationError None w))).
Proof.
  intros Hd. unfold StationEditor.saveStationEdit, StationEditor.the_selectedStation. page_unfold.
  cbn [selectedStation set_validationError]. now rewrite Hd.
Qed.

Lemma deleteHandler_no_draft (w : World) :
  selectedStation w = None ->
  StationEditor.deleteHandler w = (Throw (TypeError "this.selectedStation is undefined"), w).
Proof.
  intros Hd. unfold StationEditor.deleteHandler, StationEditor.the_selectedStation. page_unfold.
  now rewrite Hd.
Qed.

Lemma edit_draft_cases (f : Draft.t -> Draft.t) (w : World) :
  Dialog.edit_draft f w =
    match selectedStation w with
    | Some d => (Ok tt, set_selectedStation (Some (f d)) w)
    | None => (Throw (TypeError "this.selectedStation is undefined"), w)
    end.
Proof.
  unfold Dialog.edit_draft, StationEditor.the_selectedStation. page_unfold.
  now destruct (selectedStation w).
Qed.

Lemma input_is_an_edit (x : Dialog.Input) :
  exists f : Draft.t -> Draft.t, Dialog.input x = Dialog.edit_draft f.
Proof. destruct x; eexists; reflexivity. Qed.

(** The state the add button leaves, by cases. *)
Lemma editor_addStation_state (w : World) (d : Draft.t) :
  selectedStation w = Some d ->
  let id := StationEditor.station_id (Draft.title d) in
  let d' := Draft.mk (Draft.isNew d) id (Draft.title d) (Draft.description d) (Draft.source d) in
  let w0 := set_selectedStation (Some d') (set_validationError None w) in
  let failed (e : Error) :=
    (Ok tt, set_validationError (Some e)
              (set_logs (logs w ++ [(ERROR, "User attempted to add station but it failed")]) w0)) in
  StationEditor.addStation w =
    if decide (id ∈ ids (stations w)) then failed (DuplicateStation id)
    else
      match Station.new (heap_next w) id (Draft.title d) (Draft.description d) (Draft.source d) with
      | Ok st =>
        (Ok tt, set_validationError None (set_dialogOpen false (set_stationsChanged true
                  (set_stations (array_push (stations w) st) (set_heap_next (S (heap_next w)) w0)))))
      | Throw e => failed e
      end.
Proof.
  intros Hd id d' w0 failed.
  rewrite (editor_addStation_cases w d Hd). cbv zeta. rewrite addStation_cases.
  cbn [stations set_selectedStation set_validationError heap_next Draft.id]. fold id.
  destruct (decide _); [reflexivity|].
  destruct (Station.new _ _ _ _ _); reflexivity.
Qed.

Lemma open_session (id : string) (w : World) : same_session w (run (StationEditor.open id) w).
Proof.
  unfold same_session, run. rewrite open_cases.
  destruct (is_empty id); [cbn; tauto|].
  destruct (_ =? -1); [cbn; tauto|].
  destruct (array_get _ _); cbn; tauto.
Qed.

Lemma addStation_session (w : World) : same_session w (run StationEditor.addStation w).
Proof.
  unfold same_session, run. destruct (selectedStation w) as [d|] eqn:Hd.
  - rewrite (editor_addStation_state w d Hd). cbv zeta.
    destruct (decide _); [cbn; tauto|].
    destruct (Station.new _ _ _ _ _); cbn; tauto.
  - rewrite (addStation_no_draft w Hd). cbn. tauto.
Qed.

Lemma saveStationEdit_session (w : World) : same_session w (run StationEditor.saveStationEdit w).
Proof.
  unfold same_session, run. destruct (selectedStation w) as [d|] eqn:Hd.
  - rewrite (saveStationEdit_cases w d Hd). cbv zeta.
    destruct (Station.new _ _ _ _ _); destruct (_ =? -1); cbn; tauto.
  - rewrite (saveStationEdit_no_draft w Hd). cbn. tauto.
Qed.

Lemma deleteHandler_session (w : World) : same_session w (run StationEditor.deleteHandler w).
Proof.
  unfold same_session, run. destruct (selectedStation w) as [d|] eqn:Hd.
  - rewrite (deleteHandler_cases w d Hd). destruct (decide _); cbn; tauto.
  - rewrite (deleteHandler_no_draft w Hd). cbn. tauto.
Qed.

Lemma input_session (x : Dialog.Input) (w : World) : same_session w (run (Dialog.input x) w).
Proof.
  unfold same_session, run. destruct (input_is_an_edit x) as [f ->]. rewrite edit_draft_cases.
  destruct (selectedStation w); cbn; tauto.
Qed.

(** X9. No handler of the editor, and no input in its form, writes the
    current station, the route, the queue of player reloads, the default
    station or the storage: editing never reloads the player. *)
Theorem editor_never_touches_the_session (w : World) :
  (forall id : string, same_session w (run (StationEditor.open id) w))
  /\ same_session w (run StationEditor.addStation w)
  /\ same_session w (run StationEditor.saveStationEdit w)
  /\ same_session w (run StationEditor.deleteHandler w)
  /\ (forall x : Dialog.Input, same_session w (run (Dialog.input x) w)).
Proof.
  split; [intros id; apply open_session|].
  split; [apply addStation_session|].
  split; [apply saveStationEdit_session|].
  split; [apply deleteHandler_session|].
  intros x. apply input_session.
Qed.

Lemma same_editor_refl (w : World) : same_editor w w.
Proof. unfold same_editor. tauto. Qed.

Lemma same_editor_trans (a b c : World) : same_editor a b -> same_editor b c -> same_editor a c.
Proof.
  unfold same_editor. intros H1 H2.
  destruct H1 as (? & ? & ? & ? & ? & ?), H2 as (? & ? & ? & ? & ? & ?).
  repeat split; congruence.
Qed.

Lemma editor_switchStation (id : string) (play : bool) :
  preserves same_editor (App.switchStation id play).
Proof.
  intros v. unfold same_editor. rewrite switchStation_cases.
  destruct (match currentStation v with Some _ => _ | None => _ end); [cbn; tauto|].
  destruct (_ =? -1); [cbn; tauto|].
  destruct (array_get _ _); cbn; tauto.
Qed.

Lemma editor_log_debug (msg : string) : preserves same_editor (log_debug msg).
Proof. intros v. unfold same_editor. cbn. tauto. Qed.

Lemma editor_router_push (path : string) : preserves same_editor (router_push path).
Proof. intros v. unfold same_editor. cbn. tauto. Qed.

Lemma editor_watch_route (path : string) : preserves same_editor (App.watch_route path).
Proof.
  unfold App.watch_route.
  apply (preserves_bind same_editor same_editor_trans); [apply editor_log_debug | intros _].
  apply (preserves_try_catch same_editor same_editor_trans); [apply editor_switchStation | intros _].
  apply (preserves_bind same_editor same_editor_trans);
    [intros v; apply same_editor_refl | intros v0]. apply editor_router_push.
Qed.

Lemma editor_initial_station : preserves same_editor App.initial_station.
Proof.
  intros w. rewrite initial_station_unfold. destruct (String.eqb (route w) "/").
  - apply editor_switchStation.
  - apply (preserves_try_catch same_editor same_editor_trans);
      [apply editor_switchStation | intros _].
    repeat (apply (preserves_bind same_editor same_editor_trans); [|intros _]);
      first [apply editor_log_debug | apply editor_switchStation | apply editor_router_push].
Qed.

Lemma editor_settle (rounds : nat) (seen : string) : preserves same_editor (Router.settle rounds seen).
Proof.
  revert seen. induction rounds as [|n IH]; intros seen; cbn [Router.settle].
  - intros w. apply same_editor_refl.
  - apply (preserves_bind same_editor same_editor_trans);
      [intros w; apply same_editor_refl | intros w0].
    destruct (String.eqb (route w0) seen); [intros w; apply same_editor_refl|].
    apply (preserves_bind same_editor same_editor_trans); [apply editor_watch_route | intros _].
    apply IH.
Qed.

Lemma editor_navigate (rounds : nat) (path : string) :
  preserves same_editor (Router.navigate rounds path).
Proof.
  unfold Router.navigate, Router.updateRoute.
  apply (preserves_bind same_editor same_editor_trans);
    [intros w; apply same_editor_refl | intros w0].
  apply (preserves_bind same_editor same_editor_trans); [apply editor_router_push | intros _].
  apply editor_settle.
Qed.

(** X10. [switchStation], the watcher of the route and the choice of the
    first station never write the registry, the draft, the error shown, the
    dialog or the change flag of the registry, whatever their outcome. *)
Theorem session_never_touches_the_editor (w : World) :
  (forall (id : string) (play : bool), same_editor w (run (App.switchStation id play) w))
  /\ (forall path : string, same_editor w (run (App.watch_route path) w))
  /\ same_editor w (run App.initial_station w).
Proof.
  split; [intros id play; apply editor_switchStation|].
  split; [intros path; apply editor_watch_route | apply editor_initial_station].
Qed.

(** ** Saving the current station *)

Lemma Station_new_ok (a : nat) (id title description : string) (source : list Source)
    (st : Station.t) :
  Station.new a id title description source = Ok st ->
  st = Station.mk a id title description source /\ wellformed st = true.
Proof.
  unfold Station.new, wellformed.
  destruct (is_empty id) eqn:Hi; [discriminate|].
  destruct (is_empty title) eqn:Ht; [discriminate|].
  destruct (Station.valid_source source) eqn:Hs; [|discriminate].
  intros [= <-]. cbn. now rewrite Hi, Ht, Hs.
Qed.

Lemma index_from_ids (l1 l2 : list Station.t) (id : string) (i : Z) :
  map Station.id l1 = map Station.id l2 -> Util.index_from l1 id i = Util.index_from l2 id i.
Proof.
  revert l2 i. induction l1 as [|s1 l1 IH]; intros [|s2 l2] i; cbn; try discriminate.
  - reflexivity.
  - intros [= -> Hrest]. destruct (String.eqb _ _); [reflexivity | now apply IH].
Qed.

Lemma insert_keeps_ids (l : list Station.t) (n : nat) (old st : Station.t) :
  l !! n = Some old -> Station.id st = Station.id old ->
  map Station.id (<[n := st]> l) = map Station.id l.
Proof.
  intros Hold Hid. rewrite list_fmap_insert. apply list_insert_id.
  rewrite list_lookup_fmap, Hold. cbn. now rewrite Hid.
Qed.

(** The station of an id of the registry, by its position. *)
Lemma getStationIndex_found (arr : JsArray) (id : string) :
  id ∈ ids arr ->
  exists (n : nat) (old : Station.t),
    Util.getStationIndex arr id = Z.of_nat n /\ items arr !! n = Some old
    /\ Station.id old = id /\ (n < length (items arr))%nat.
Proof.
  intros Hin.
  destruct (getStationIndex_range arr id) as [Habs|Hr].
  { apply getStationIndex_absent in Habs. contradiction. }
  unfold Util.getStationIndex, array_length in *.
  destruct (index_from_lookup (items arr) id 0) as (s & Hs & Hid & _); [lia | lia |].
  rewrite Z.sub_0_r in Hs.
  exists (Z.to_nat (Util.index_from (items arr) id 0)), s.
  repeat split; [lia | assumption | assumption | lia].
Qed.

(** The page the save button leaves when the id of the draft is in the
    registry and the constructor accepts the draft. *)
Lemma save_present_state (w : World) (d : Draft.t) (st : Station.t) :
  selectedStation w = Some d ->
  Draft.id d ∈ ids (stations w) ->
  Station.new (heap_next w) (Draft.id d) (Draft.title d) (Draft.description d) (Draft.source d) = Ok st ->
  exists (n : nat) (old : Station.t),
    Util.getStationIndex (stations w) (Draft.id d) = Z.of_nat n
    /\ items (stations w) !! n = Some old /\ Station.id old = Draft.id d
    /\ StationEditor.saveStationEdit w =
         (Ok tt, set_validationError None (set_dialogOpen false
                   (set_stations
                      {| items := <[n := st]> (items (stations w)); props := props (stations w) |}
                      (set_heap_next (S (heap_next w)) (set_validationError None w))))).
Proof.
  intros Hd Hin Hst.
  destruct (getStationIndex_found (stations w) (Draft.id d) Hin) as (n & old & Hn & Hold & Hid & Hlt).
  exists n, old. repeat split; [assumption..|].
  rewrite (saveStationEdit_cases w d Hd), Hst. cbv zeta. rewrite Hn.
  destruct (Z.eqb_spec (Z.of_nat n) (-1)); [lia|].
  unfold array_set, array_length.
  destruct (Z.ltb_spec (Z.of_nat n) 0); [lia|].
  destruct (Z.eqb_spec (Z.of_nat n) (Z.of_nat (length (items (stations w))))); [lia|].
  now rewrite Nat2Z.id.
Qed.

(** X11. Saving an edit of the current station does not reach the current
    station. The registry gets a new object with the fields of the draft at
    the place of the old one; [stream.currentStation] is still the old
    object, and [switchStation] with its id is the no-op of the current
    station, so it does not pick up the new one either. *)
Theorem save_leaves_the_current_station_stale (w : World) (d : Draft.t)
    (current st : Station.t) (play : bool) :
  selectedStation w = Some d ->
  currentStation w = Some current ->
  Draft.id d = Station.id current ->
  Station.id current ∈ ids (stations w) ->
  Station.new (heap_next w) (Draft.id d) (Draft.title d) (Draft.description d) (Draft.source d) = Ok st ->
  let w' := run StationEditor.saveStationEdit w in
  currentStation w' = Some current
  /\ array_get (stations w') (Util.getStationIndex (stations w') (Station.id current)) = Some st
  /\ Station.addr st = heap_next w
  /\ Station.title st = Draft.title d
  /\ Station.description st = Draft.description d
  /\ Station.source st = Draft.source d
  /\ App.switchStation (Station.id current) play w' = (Ok tt, w').
Proof.
  intros Hd Hcur Hid Hin Hst w'. rewrite <- Hid in Hin.
  destruct (save_present_state w d st Hd Hin Hst) as (n & old & Hn & Hold & Hoid & Hrun).
  destruct (Station_new_ok _ _ _ _ _ _ Hst) as [Hfields _].
  assert (Hw' : w' = set_validationError None (set_dialogOpen false
            (set_stations
               {| items := <[n := st]> (items (stations w)); props := props (stations w) |}
               (set_heap_next (S (heap_next w)) (set_validationError None w)))))
    by (unfold w', run; now rewrite Hrun).
  assert (Hcur' : currentStation w' = Some current) by (rewrite Hw'; exact Hcur).
  split; [exact Hcur'|]. split.
  - rewrite Hw'. cbn [stations set_validationError set_dialogOpen set_stations].
    unfold Util.getStationIndex. cbn [items].
    rewrite (index_from_ids _ (items (stations w))).
    + fold (Util.getStationIndex (stations w) (Station.id current)). rewrite <- Hid, Hn.
      unfold array_get. destruct (Z.ltb_spec (Z.of_nat n) 0); [lia|]. cbn [items].
      rewrite Nat2Z.id. apply list_lookup_insert_eq. now apply lookup_lt_Some in Hold.
    + apply (insert_keeps_ids _ _ old); [exact Hold|]. rewrite Hfields. cbn. congruence.
  - split; [now rewrite Hfields|]. split; [now rewrite Hfields|].
    split; [now rewrite Hfields|]. split; [now rewrite Hfields|].
    rewrite switchStation_cases, Hcur', String.eqb_refl. reflexivity.
Qed.

Lemma save_leaves_the_current_station_stale_witness :
  option_map Station.title (currentStation (run StationEditor.saveStationEdit edited_current))
  = Some "Jazz FM"
  /\ option_map Station.title
       (array_get (stations (run StationEditor.saveStationEdit edited_current))
          (Util.getStationIndex (stations (run StationEditor.saveStationEdit edited_current)) "jazz_fm"))
     = Some "Smooth Jazz".
Proof.
  pose proof (save_leaves_the_current_station_stale edited_current
    (Draft.mk false "jazz_fm" "Smooth Jazz" "" [ {| src := "http://x/stream"; type := "audio/mpeg" |} ])
    (Station.mk 1 "jazz_fm" "Jazz FM" "" [ {| src := "http://x/stream"; type := "audio/mpeg" |} ])
    (Station.mk 3 "jazz_fm" "Smooth Jazz" "" [ {| src := "http://x/stream"; type := "audio/mpeg" |} ])
    true eq_refl eq_refl eq_refl) as H.
  assert (Hin : "jazz_fm" ∈ ids (stations edited_current)).
  { vm_compute. apply list_elem_of_In. simpl. right; left; reflexivity. }
  specialize (H Hin eq_refl). cbv zeta in H. destruct H as (Hcur & Hget & _).
  split.
  - rewrite Hcur. reflexivity.
  - cbn [Station.id] in Hget. rewrite Hget. reflexivity.
Defined.

(** ** Invariants of the registry *)

Lemma keeps_refl (I : World -> Prop) (w : World) : keeps I w w.
Proof. intros H. exact H. Qed.

Lemma keeps_trans (I : World -> Prop) (a b c : World) :
  keeps I a b -> keeps I b c -> keeps I a c.
Proof. unfold keeps. auto. Qed.

Lemma preserves_forEach (P : World -> World -> Prop) {A} (l : list A) (body : A -> M unit) :
  (forall w, P w w) -> (forall a b c, P a b -> P b c -> P a c) ->
  (forall x, preserves P (body x)) -> preserves P (forEach l body).
Proof.
  intros Hrefl Htrans Hbody. induction l as [|x l IH]; cbn [forEach].
  - intros w. apply Hrefl.
  - apply (preserves_bind P Htrans); [apply Hbody | intros _; exact IH].
Qed.

Lemma World_ext (w1 w2 : World) :
  currentStation w1 = currentStation w2 -> defaultStation w1 = defaultStation w2 ->
  stations w1 = stations w2 -> selectedStation w1 = selectedStation w2 ->
  validationError w1 = validationError w2 -> dialogOpen w1 = dialogOpen w2 ->
  localStorage w1 = localStorage w2 -> route w1 = route w2 -> nextTick w1 = nextTick w2 ->
  logs w1 = logs w2 -> heap_next w1 = heap_next w2 -> stationsChanged w1 = stationsChanged w2 ->
  w1 = w2.
Proof. destruct w1, w2. cbn. intros. subst. reflexivity. Qed.

(** The page step 1 of [beforeMount] leaves. *)
Lemma seed_state (seeds failedStations : list Raw.t) (w : World) :
  snd (App.seed seeds failedStations w) = after_seed (validated (heap_next w) seeds) w.
Proof.
  revert failedStations w. induction seeds as [|station rest IH]; intros failed w; [reflexivity|].
  rewrite seed_cons. cbn [validated].
  destruct (Station.new _ _ _ _ _) as [st|e]; [|apply IH].
  rewrite IH. cbn [heap_next set_stationsChanged set_stations set_heap_next].
  destruct (validated (S (heap_next w)) rest) as [|v vs].
  - apply World_ext; try reflexivity. cbn. lia.
  - apply World_ext; try reflexivity.
    + cbn. now rewrite <- app_assoc.
    + cbn. lia.
Qed.

Lemma validated_wellformed (seeds : list Raw.t) (a : nat) :
  Forall (fun st => wellformed st = true) (validated a seeds).
Proof.
  revert a. induction seeds as [|r rest IH]; intros a; cbn; [constructor|].
  destruct (Station.new _ _ _ _ _) as [st|e] eqn:Hst; [|apply IH].
  constructor; [|apply IH]. now destruct (Station_new_ok _ _ _ _ _ _ Hst).
Qed.

Lemma valid_page_ext (w w' : World) :
  items (stations w') = items (stations w) -> currentStation w' = currentStation w ->
  valid_page w -> valid_page w'.
Proof. unfold valid_page. intros -> ->. auto. Qed.

Lemma valid_page_push (w w' : World) (st : Station.t) :
  items (stations w') = (items (stations w) ++ [st])%list -> currentStation w' = currentStation w ->
  wellformed st = true -> valid_page w -> valid_page w'.
Proof.
  unfold valid_page. intros -> -> Hst [Hall Hcur]. split; [|exact Hcur].
  apply Forall_app. split; [exact Hall | now constructor].
Qed.

Lemma Station_fromJSON_ok (a : nat) (record : Json) (st : Station.t) :
  Station.fromJSON a record = Ok st -> wellformed st = true.
Proof. unfold Station.fromJSON. intros H. now destruct (Station_new_ok _ _ _ _ _ _ H). Qed.

Lemma valid_switchStation (id : string) (play : bool) :
  preserves (keeps valid_page) (App.switchStation id play).
Proof.
  intros w Hw. rewrite switchStation_cases.
  destruct (match currentStation w with Some _ => _ | None => _ end); [exact Hw|].
  destruct (Z.eqb_spec (Util.getStationIndex (stations w) id) (-1)) as [|Hfound]; [exact Hw|].
  destruct (array_get _ _) as [st|] eqn:Hget; cbn [snd].
  - destruct Hw as [Hall _]. split; [exact Hall|]. cbn. intros c [= <-].
    destruct (getStationIndex_range (stations w) id) as [?|Hr]; [contradiction|].
    unfold array_get in Hget. destruct (Z.ltb_spec (Util.getStationIndex (stations w) id) 0); [lia|].
    rewrite Forall_forall in Hall. apply Hall.
    apply list_elem_of_lookup. eauto.
  - destruct Hw as [Hall _]. split; [exact Hall|]. cbn. discriminate.
Qed.

Lemma valid_log_debug (msg : string) : preserves (keeps valid_page) (log_debug msg).
Proof. intros w. (unfold keeps; apply valid_page_ext; reflexivity). Qed.

Lemma valid_log_error (msg : string) : preserves (keeps valid_page) (log_error msg).
Proof. intros w. (unfold keeps; apply valid_page_ext; reflexivity). Qed.

Lemma valid_router_push (path : string) : preserves (keeps valid_page) (router_push path).
Proof. intros w. (unfold keeps; apply valid_page_ext; reflexivity). Qed.

Lemma valid_merge_stored (record : Json) : preserves (keeps valid_page) (App.merge_stored record).
Proof.
  intros w Hw. rewrite merge_stored_cases.
  destruct (Station.fromJSON _ _) as [st|e] eqn:Hst.
  - destruct (decide _); cbn [snd].
    + revert Hw. (unfold keeps; apply valid_page_ext; reflexivity).
    + revert Hw. unfold keeps; apply (valid_page_push _ _ st); [reflexivity | reflexivity |].
      exact (Station_fromJSON_ok _ _ _ Hst).
  - revert Hw. (unfold keeps; apply valid_page_ext; reflexivity).
Qed.

Lemma valid_seed_all (seeds : list Raw.t) : preserves (keeps valid_page) (App.seed_all seeds).
Proof.
  intros w Hw. unfold App.seed_all, bind.
  pose proof (seed_state seeds [] w) as Hstate.
  destruct (seed_appends seeds [] w) as (Hok & _).
  destruct (App.seed seeds [] w) as [[failed|e] w1]; [|discriminate Hok]. cbn [snd] in Hstate.
  assert (Hw1 : valid_page w1).
  { rewrite Hstate. unfold after_seed.
    pose proof (validated_wellformed seeds (heap_next w)) as Hv.
    destruct (validated (heap_next w) seeds) as [|v vs]; [exact Hw|].
    destruct Hw as [Hall Hcur]. split; [|exact Hcur]. cbn. apply Forall_app. now split. }
  destruct failed; [exact Hw1|]. revert Hw1. (unfold keeps; apply valid_page_ext; reflexivity).
Qed.

Lemma valid_load_stored : preserves (keeps valid_page) App.load_stored.
Proof.
  unfold App.load_stored.
  apply (preserves_bind _ (keeps_trans valid_page)); [intros w; apply keeps_refl | intros w0].
  destruct (localStorage w0) as [store|]; [|intros w; apply keeps_refl].
  destruct (store !! "stations") as [text|]; [|intros w; apply keeps_refl].
  destruct (is_empty text); [intros w; apply keeps_refl|].
  destruct (JSON_parse text) as [parsed|].
  - apply (preserves_bind _ (keeps_trans valid_page)); [apply valid_log_debug | intros _].
    destruct parsed; try (intros w; apply keeps_refl).
    apply preserves_forEach;
      [apply keeps_refl | apply keeps_trans | apply valid_merge_stored].
  - apply (preserves_bind _ (keeps_trans valid_page)); [apply valid_log_error | intros _].
    intros w. (unfold keeps; apply valid_page_ext; reflexivity).
Qed.

Lemma valid_initial_station : preserves (keeps valid_page) App.initial_station.
Proof.
  intros w. rewrite initial_station_unfold. destruct (String.eqb (route w) "/").
  - apply valid_switchStation.
  - apply (preserves_try_catch _ (keeps_trans valid_page)); [apply valid_switchStation | intros _].
    repeat (apply (preserves_bind _ (keeps_trans valid_page)); [|intros _]);
      first [apply valid_log_debug | apply valid_switchStation | apply valid_router_push].
Qed.

(** X12. Every station of the registry, and the current station, is one the
    Station constructor accepts, and every handler keeps it so: startup,
    switching, the watcher of the route, and the editor's open, add, save
    and delete buttons and form inputs. *)
Theorem every_station_stays_valid :
  (forall seeds, preserves (keeps valid_page) (App.beforeMount seeds))
  /\ (forall id play, preserves (keeps valid_page) (App.switchStation id play))
  /\ (forall path, preserves (keeps valid_page) (App.watch_route path))
  /\ (forall id, preserves (keeps valid_page) (StationEditor.open id))
  /\ preserves (keeps valid_page) StationEditor.addStation
  /\ preserves (keeps valid_page) StationEditor.saveStationEdit
  /\ preserves (keeps valid_page) StationEditor.deleteHandler
  /\ (forall x, preserves (keeps valid_page) (Dialog.input x)).
Proof.
  split; [|split; [|split; [|split; [|split; [|split; [|split]]]]]].
  - intros seeds. unfold App.beforeMount, App.reconcile.
    repeat (apply (preserves_bind _ (keeps_trans valid_page)); [|intros _]);
      first [apply valid_log_debug | apply valid_seed_all | apply valid_load_stored
            | apply valid_initial_station].
  - apply valid_switchStation.
  - intros path. unfold App.watch_route.
    apply (preserves_bind _ (keeps_trans valid_page)); [apply valid_log_debug | intros _].
    apply (preserves_try_catch _ (keeps_trans valid_page)); [apply valid_switchStation | intros _].
    apply (preserves_bind _ (keeps_trans valid_page)); [intros w; apply keeps_refl | intros w0].
    apply valid_router_push.
  - intros id w. rewrite open_cases.
    destruct (is_empty id); [(unfold keeps; apply valid_page_ext; reflexivity)|].
    destruct (_ =? -1); [apply keeps_refl|].
    destruct (array_get _ _); [(unfold keeps; apply valid_page_ext; reflexivity) | apply keeps_refl].
  - intros w. destruct (selectedStation w) as [d|] eqn:Hd.
    + rewrite (editor_addStation_state w d Hd). cbv zeta.
      destruct (decide _); [(unfold keeps; apply valid_page_ext; reflexivity)|].
      destruct (Station.new _ _ _ _ _) as [st|e] eqn:Hst; [|(unfold keeps; apply valid_page_ext; reflexivity)].
      unfold keeps; apply (valid_page_push _ _ st); [reflexivity | reflexivity |].
      now destruct (Station_new_ok _ _ _ _ _ _ Hst).
    + rewrite (addStation_no_draft w Hd). (unfold keeps; apply valid_page_ext; reflexivity).
  - intros w. destruct (selectedStation w) as [d|] eqn:Hd.
    + rewrite (saveStationEdit_cases w d Hd). cbv zeta.
      destruct (Station.new _ _ _ _ _) as [st|e] eqn:Hst.
      * destruct (Station_new_ok _ _ _ _ _ _ Hst) as [_ Hvalid].
        intros [Hall Hcur]. split.
        -- cbn [snd stations set_validationError set_dialogOpen set_stations].
           unfold array_set. destruct (_ <? 0); [exact Hall|].
           destruct (_ =? array_length _).
           ++ cbn. apply Forall_app. split; [exact Hall | now constructor].
           ++ cbn. now apply Forall_insert.
        -- destruct (_ =? -1); exact Hcur.
      * destruct (_ =? -1); (unfold keeps; apply valid_page_ext; reflexivity).
    + rewrite (saveStationEdit_no_draft w Hd). (unfold keeps; apply valid_page_ext; reflexivity).
  - intros w. destruct (selectedStation w) as [d|] eqn:Hd.
    + rewrite (deleteHandler_cases w d Hd). destruct (decide _); [|apply keeps_refl].
      intros [Hall Hcur]. split; [|exact Hcur].
      cbn [snd stations set_validationError set_dialogOpen set_stationsChanged set_stations].
      unfold array_splice. cbn [items]. apply Forall_app. split.
      * now apply Forall_take.
      * now apply Forall_drop.
    + rewrite (deleteHandler_no_draft w Hd). apply keeps_refl.
  - intros x w. destruct (input_is_an_edit x) as [f ->]. rewrite edit_draft_cases.
    destruct (selectedStation w); [(unfold keeps; apply valid_page_ext; reflexivity) | apply keeps_refl].
Qed.

Lemma every_station_stays_valid_witness : valid_page (run (App.beforeMount [liquid_radio; jazz_fm]) fresh_page).
Proof.
  apply (proj1 every_station_stays_valid [liquid_radio; jazz_fm] fresh_page).
  split; [constructor | discriminate].
Defined.

Lemma distinct_ext (w w' : World) :
  ids (stations w') = ids (stations w) -> keeps distinct_ids w w'.
Proof. unfold keeps, distinct_ids. now intros ->. Qed.

Lemma distinct_same (w w' : World) : same_stations w w' -> keeps distinct_ids w w'.
Proof. unfold same_stations. intros H. apply distinct_ext. now rewrite H. Qed.

Lemma distinct_push (w w' : World) (st : Station.t) :
  items (stations w') = (items (stations w) ++ [st])%list -> Station.id st ∉ ids (stations w) ->
  keeps distinct_ids w w'.
Proof.
  unfold keeps, distinct_ids, ids. intros -> Hout Hnd. rewrite map_app. cbn.
  apply NoDup_app. split; [exact Hnd|]. split; [|apply NoDup_singleton].
  intros x Hx Hin. apply list_elem_of_singleton in Hin. now subst.
Qed.

Lemma distinct_merge_stored (record : Json) :
  preserves (keeps distinct_ids) (App.merge_stored record).
Proof.
  intros w. rewrite merge_stored_cases.
  destruct (Station.fromJSON _ _) as [st|e]; [|now apply distinct_ext].
  destruct (decide _) as [Hin|Hout]; [now apply distinct_ext|].
  now apply (distinct_push _ _ st).
Qed.

Lemma distinct_load_stored : preserves (keeps distinct_ids) App.load_stored.
Proof.
  unfold App.load_stored.
  apply (preserves_bind _ (keeps_trans distinct_ids)); [intros w; apply keeps_refl | intros w0].
  destruct (localStorage w0) as [store|]; [|intros w; apply keeps_refl].
  destruct (store !! "stations") as [text|]; [|intros w; apply keeps_refl].
  destruct (is_empty text); [intros w; apply keeps_refl|].
  destruct (JSON_parse text) as [parsed|].
  - apply (preserves_bind _ (keeps_trans distinct_ids)); [intros w; now apply distinct_ext | intros _].
    destruct parsed; try (intros w; apply keeps_refl).
    apply preserves_forEach;
      [apply keeps_refl | apply keeps_trans | apply distinct_merge_stored].
  - apply (preserves_bind _ (keeps_trans distinct_ids)); [intros w; now apply distinct_ext | intros _].
    intros w. now apply distinct_ext.
Qed.

Lemma keeps_watch_route (path : string) : preserves same_stations (App.watch_route path).
Proof.
  unfold App.watch_route.
  apply (preserves_bind _ same_stations_trans); [intros w; reflexivity | intros _].
  apply (preserves_try_catch _ same_stations_trans); [apply keeps_switchStation | intros _].
  apply (preserves_bind _ same_stations_trans); [intros w | intros w0 w]; reflexivity.
Qed.

(** X13. In a registry without duplicate ids, no handler but the seeding
    makes one: loading the stored stations, switching, the watcher of the
    route, and the editor's open, add, save and delete buttons and form
    inputs keep the ids distinct. Startup on an empty registry keeps them
    distinct when the valid seeds have distinct ids. *)
Theorem ids_stay_distinct :
  preserves (keeps distinct_ids) App.load_stored
  /\ (forall id play, preserves (keeps distinct_ids) (App.switchStation id play))
  /\ (forall path, preserves (keeps distinct_ids) (App.watch_route path))
  /\ (forall id, preserves (keeps distinct_ids) (StationEditor.open id))
  /\ preserves (keeps distinct_ids) StationEditor.addStation
  /\ preserves (keeps distinct_ids) StationEditor.saveStationEdit
  /\ preserves (keeps distinct_ids) StationEditor.deleteHandler
  /\ (forall x, preserves (keeps distinct_ids) (Dialog.input x))
  /\ (forall seeds w,
        items (stations w) = [] ->
        NoDup (map Station.id (validated (heap_next w) seeds)) ->
        distinct_ids (run (App.beforeMount seeds) w)).
Proof.
  split; [apply distinct_load_stored|].
  split; [intros id play w; apply distinct_same, keeps_switchStation|].
  split; [intros path w; apply distinct_same, keeps_watch_route|].
  split.
  { intros id w. rewrite open_cases.
    destruct (is_empty id); [now apply distinct_ext|].
    destruct (_ =? -1); [apply keeps_refl|].
    destruct (array_get _ _); [now apply distinct_ext | apply keeps_refl]. }
  split.
  { intros w. destruct (selectedStation w) as [d|] eqn:Hd.
    - rewrite (editor_addStation_state w d Hd). cbv zeta.
      destruct (decide _) as [Hin|Hout]; [now apply distinct_ext|].
      destruct (Station.new _ _ _ _ _) as [st|e] eqn:Hst; [|now apply distinct_ext].
      apply (distinct_push _ _ st); [reflexivity|].
      destruct (Station_new_ok _ _ _ _ _ _ Hst) as [-> _]. exact Hout.
    - rewrite (addStation_no_draft w Hd). now apply distinct_ext. }
  split.
  { intros w. destruct (selectedStation w) as [d|] eqn:Hd.
    - destruct (Station.new (heap_next w) (Draft.id d) (Draft.title d) (Draft.description d)
                  (Draft.source d)) as [st|e] eqn:Hst.
      + destruct (decide (Draft.id d ∈ ids (stations w))) as [Hin|Hout].
        * destruct (save_present_state w d st Hd Hin Hst) as (n & old & _ & Hold & Hoid & ->).
          apply distinct_ext. unfold ids. cbn.
          apply (insert_keeps_ids _ _ old); [exact Hold|].
          destruct (Station_new_ok _ _ _ _ _ _ Hst) as [-> _]. cbn. congruence.
        * rewrite (saveStationEdit_cases w d Hd), Hst. cbv zeta.
          apply getStationIndex_absent in Hout. rewrite Hout. now apply distinct_ext.
      + rewrite (saveStationEdit_cases w d Hd), Hst. cbv zeta.
        destruct (_ =? -1); now apply distinct_ext.
    - rewrite (saveStationEdit_no_draft w Hd). now apply distinct_ext. }
  split.
  { intros w. destruct (selectedStation w) as [d|] eqn:Hd.
    - rewrite (deleteHandler_cases w d Hd).
      destruct (decide _) as [Hin|Hout]; [|apply keeps_refl].
      destruct (getStationIndex_found _ _ Hin) as (n & old & Hn & _ & _ & Hlt).
      rewrite Hn, array_splice_one by (unfold array_length; lia).
      unfold keeps, distinct_ids, ids. cbn. rewrite Nat2Z.id, <- delete_take_drop.
      intros Hnd. change (NoDup (Station.id <$> delete n (items (stations w)))).
      rewrite list_fmap_delete. eapply sublist_NoDup; [exact Hnd | apply sublist_delete].
    - rewrite (deleteHandler_no_draft w Hd). apply keeps_refl. }
  split.
  { intros x w. destruct (input_is_an_edit x) as [f ->]. rewrite edit_draft_cases.
    destruct (selectedStation w); [now apply distinct_ext | apply keeps_refl]. }
  intros seeds w Hempty Hnd.
  assert (Hseeded : forall v, items (stations v) = [] -> heap_next v = heap_next w ->
            distinct_ids (snd (App.seed_all seeds v))).
  { intros v Hv Hh. destruct (seed_all_appends seeds v) as (_ & _ & Hst).
    unfold distinct_ids, ids. rewrite Hst. cbn. now rewrite Hv, Hh. }
  set (logged := set_logs (logs w ++ [(DEBUG, "Application BEFORE MOUNT")]) w).
  unfold run.
  change (App.beforeMount seeds w)
    with (bind (App.reconcile seeds) (fun _ => App.initial_station) logged).
  assert (Hrec : distinct_ids (snd (App.reconcile seeds logged))).
  { unfold App.reconcile, bind. pose proof (Hseeded logged Hempty eq_refl) as H1.
    destruct (App.seed_all seeds logged) as [[[]|e] v]; cbn [snd] in *; [|exact H1].
    now apply distinct_load_stored. }
  unfold bind. destruct (App.reconcile seeds logged) as [[[]|e] v]; cbn [snd] in *; [|exact Hrec].
  revert Hrec. apply distinct_same, keeps_initial_station.
Qed.

Lemma ids_stay_distinct_witness :
  distinct_ids (run (App.beforeMount [liquid_radio; jazz_fm]) fresh_page).
Proof.
  refine (proj2 (proj2 (proj2 (proj2 (proj2 (proj2 (proj2 (proj2 ids_stay_distinct)))))))
            [liquid_radio; jazz_fm] fresh_page _ _).
  - reflexivity.
  - apply (NoDup_cons_2 "liquid_radio").
    + apply not_elem_of_cons. split; [discriminate | apply not_elem_of_nil].
    + apply (NoDup_cons_2 "jazz_fm"); [apply not_elem_of_nil | apply NoDup_nil_2].
Defined.

(** ** Startup, continued *)

Lemma seed_all_state (seeds : list Raw.t) (w : World) :
  exists l, App.seed_all seeds w
            = (Ok tt, set_logs (logs w ++ l) (after_seed (validated (heap_next w) seeds) w)).
Proof.
  unfold App.seed_all, bind.
  pose proof (seed_state seeds [] w) as Hstate.
  destruct (seed_appends seeds [] w) as (Hok & _ & Hlogs & _).
  destruct (App.seed seeds [] w) as [[failed|e] w1]; [|discriminate Hok]. cbn [snd] in *.
  rewrite <- Hstate. destruct failed.
  - exists []. unfold ret. f_equal. apply World_ext; try reflexivity.
    cbn. now rewrite app_nil_r, Hlogs.
  - exists [(ERROR, "Some stations failed to parse")]. unfold log_error, modify.
    now rewrite Hlogs.
Qed.

Lemma after_seed_fields (vs : list Station.t) (w : World) :
  currentStation (after_seed vs w) = currentStation w
  /\ localStorage (after_seed vs w) = localStorage w
  /\ nextTick (after_seed vs w) = nextTick w
  /\ route (after_seed vs w) = route w
  /\ defaultStation (after_seed vs w) = defaultStation w
  /\ items (stations (after_seed vs w)) = (items (stations w) ++ vs)%list.
Proof.
  destruct vs; cbn; repeat split. now rewrite app_nil_r.
Qed.

(** X14. A stored snapshot that is JSON but not an array stops startup:
    [beforeMount] throws the TypeError of [storedStations.forEach], after the
    seeds are in the registry and before a station is made current, and
    has not touched the entry in storage. *)
Theorem non_array_snapshot_stops_startup (seeds : list Raw.t) (w : World)
    (store : gmap string string) (text : string) (parsed : Json) :
  localStorage w = Some store ->
  store !! "stations" = Some text ->
  text <> "" ->
  JSON_parse text = Some parsed ->
  (forall records, parsed <> JArray records) ->
  let w' := run (App.beforeMount seeds) w in
  outcome (App.beforeMount seeds) w = Throw (TypeError "storedStations.forEach is not a function")
  /\ localStorage w' = Some store
  /\ currentStation w' = currentStation w
  /\ nextTick w' = nextTick w
  /\ items (stations w') = (items (stations w) ++ validated (heap_next w) seeds)%list.
Proof.
  intros Hs Ht Hne Hp Hnot w'.
  set (logged := set_logs (logs w ++ [(DEBUG, "Application BEFORE MOUNT")]) w).
  destruct (seed_all_state seeds logged) as [l Hseed].
  set (v := set_logs (logs logged ++ l) (after_seed (validated (heap_next logged) seeds) logged)) in *.
  destruct (after_seed_fields (validated (heap_next logged) seeds) logged)
    as (Hc & Hst & Hn & _ & _ & Hi).
  assert (Hload : App.load_stored v =
            (Throw (TypeError "storedStations.forEach is not a function"),
             set_logs (logs v ++ [(DEBUG, "Loaded stations object from localstorage")]) v)).
  { assert (Hv : localStorage v = Some store).
    { change (localStorage v)
        with (localStorage (after_seed (validated (heap_next logged) seeds) logged)).
      rewrite Hst. exact Hs. }
    unfold App.load_stored. page_unfold. rewrite Hv, Ht, Hp. destruct text; [congruence|]. cbn [is_empty].
    destruct parsed; try reflexivity. now destruct (Hnot elements). }
  assert (Hrun : App.beforeMount seeds w =
            (Throw (TypeError "storedStations.forEach is not a function"),
             set_logs (logs v ++ [(DEBUG, "Loaded stations object from localstorage")]) v)).
  { change (App.beforeMount seeds w)
      with (bind (bind (App.seed_all seeds) (fun _ => App.load_stored))
              (fun _ => App.initial_station) logged).
    unfold bind. now rewrite Hseed, Hload. }
  unfold w', outcome, run. rewrite Hrun. cbn [fst snd].
  split; [reflexivity|].
  change (localStorage (set_logs (logs v ++ [(DEBUG, "Loaded stations object from localstorage")]) v))
    with (localStorage (after_seed (validated (heap_next logged) seeds) logged)).
  change (currentStation (set_logs (logs v ++ [(DEBUG, "Loaded stations object from localstorage")]) v))
    with (currentStation (after_seed (validated (heap_next logged) seeds) logged)).
  change (nextTick (set_logs (logs v ++ [(DEBUG, "Loaded stations object from localstorage")]) v))
    with (nextTick (after_seed (validated (heap_next logged) seeds) logged)).
  change (stations (set_logs (logs v ++ [(DEBUG, "Loaded stations object from localstorage")]) v))
    with (stations (after_seed (validated (heap_next logged) seeds) logged)).
  rewrite Hst, Hc, Hn, Hi. repeat split; assumption.
Qed.

Lemma non_array_snapshot_stops_startup_witness :
  outcome (App.beforeMount [liquid_radio; jazz_fm]) (with_snapshot "{}")
  = Throw (TypeError "storedStations.forEach is not a function")
  /\ currentStation (run (App.beforeMount [liquid_radio; jazz_fm]) (with_snapshot "{}")) = None.
Proof.
  pose proof (non_array_snapshot_stops_startup [liquid_radio; jazz_fm] (with_snapshot "{}")
                {[ "stations" := "{}" ]} "{}" (JObject [])) as H.
  assert (H2 : ({[ "stations" := "{}" ]} : gmap string string) !! "stations" = Some "{}")
    by apply lookup_singleton_eq.
  assert (H3 : "{}" <> "") by discriminate.
  specialize (H eq_refl H2 H3 eq_refl). cbv zeta in H.
  destruct H as (Hout & _ & Hcur & _); [discriminate|].
  split; [exact Hout | exact Hcur].
Defined.

(** X15. The first station off a route other than "/", with no station
    current: when the id of the route is in the registry its station becomes
    current without playing and the route stays; when it is not, the default
    station becomes current and the default id is pushed to the router,
    which resolves it against the current path: to "/" and the id when the
    id is a plain segment and the path has one segment; when the default id
    is not in the registry either, the choice throws and no station is
    current. *)
Theorem initial_station_from_route (w : World) :
  route w <> "/" ->
  currentStation w = None ->
  let id := substring1 (route w) in
  let w' := run App.initial_station w in
  (id ∈ ids (stations w) ->
     exists st, Station.id st = id /\ outcome App.initial_station w = Ok tt
       /\ currentStation w' = Some st /\ route w' = route w
       /\ nextTick w' = (nextTick w ++ [false])%list)
  /\ (id ∉ ids (stations w) -> defaultStation w ∈ ids (stations w) ->
      exists st, Station.id st = defaultStation w /\ outcome App.initial_station w = Ok tt
        /\ currentStation w' = Some st
        /\ route w' = VueRouter.resolve (defaultStation w) (route w)
        /\ (plain (defaultStation w) = true -> single_segment (route w) = true ->
            route w' = String "/" (defaultStation w))
        /\ nextTick w' = (nextTick w ++ [false])%list)
  /\ (id ∉ ids (stations w) -> defaultStation w ∉ ids (stations w) ->
      outcome App.initial_station w = Throw (UnknownStation (defaultStation w))
      /\ currentStation w' = None /\ route w' = route w /\ nextTick w' = nextTick w).
Proof.
  intros Hroute Hcur id w'.
  assert (Hne : String.eqb (route w) "/" = false) by now apply String.eqb_neq.
  assert (Hnone : forall v x, currentStation v = None ->
            forall current, currentStation v = Some current -> Station.id current <> x)
    by (intros v x Hv c Hc; congruence).
  unfold w', outcome, run. rewrite initial_station_unfold, Hne. fold id. unfold try_catch.
  split; [|split].
  - intros Hin.
    destruct (switchStation_known w id false Hin (Hnone w id Hcur)) as (st & _ & Hid & Hrun).
    exists st. rewrite Hrun. cbn. auto.
  - intros Habs Hdef. apply getStationIndex_absent in Habs.
    rewrite switchStation_cases, Hcur, Habs. cbn [Z.eqb Pos.eqb].
    set (v := set_logs (logs w ++ [(DEBUG, "Route url doesn't contain valid station id, fallback to default.")]) w).
    destruct (switchStation_known v (defaultStation w) false Hdef (Hnone v _ Hcur))
      as (st & _ & Hid & Hrun).
    exists st. unfold bind, log_debug, modify. cbv beta iota. fold v. rewrite Hrun.
    cbn [fst snd router_push modify route set_route set_logs set_nextTick set_currentStation
           currentStation nextTick v].
    split; [exact Hid|]. split; [reflexivity|]. split; [reflexivity|]. split; [reflexivity|].
    split; [|reflexivity]. intros Hplain Hsingle. now apply resolve_plain.
  - intros Habs Hdef. apply getStationIndex_absent in Habs, Hdef.
    rewrite switchStation_cases, Hcur, Habs. cbn [Z.eqb Pos.eqb].
    unfold bind, log_debug, modify. cbv beta iota. rewrite switchStation_cases.
    cbn [currentStation stations set_logs]. rewrite Hcur, Hdef. cbn. auto.
Qed.

Lemma initial_station_from_route_witness :
  route (run App.initial_station
           (set_route "/nowhere" (run (App.reconcile [liquid_radio; jazz_fm]) fresh_page)))
  = "/liquid_radio".
Proof.
  pose proof (initial_station_from_route
    (set_route "/nowhere" (run (App.reconcile [liquid_radio; jazz_fm]) fresh_page))) as H.
  assert (H1 : "/nowhere" <> "/") by discriminate.
  specialize (H H1 eq_refl). cbv zeta in H. destruct H as (_ & H & _).
  destruct H as (st & _ & _ & _ & _ & Hr & _).
  - apply getStationIndex_absent. reflexivity.
  - vm_compute. apply list_elem_of_In. simpl. left; reflexivity.
  - apply Hr; reflexivity.
Defined.

(** ** Navigation *)












(** ** The storage beyond the stations *)

Lemma other_keys_same (w w' : World) : localStorage w' = localStorage w -> other_keys_kept w w'.
Proof. unfold other_keys_kept. intros ->. now destruct (localStorage w). Qed.

Lemma other_keys_refl (w : World) : other_keys_kept w w.
Proof. now apply other_keys_same. Qed.

Lemma other_keys_trans (a b c : World) :
  other_keys_kept a b -> other_keys_kept b c -> other_keys_kept a c.
Proof.
  unfold other_keys_kept.
  destruct (localStorage a), (localStorage b), (localStorage c); try tauto.
  intros H1 H2 k Hk. now rewrite H2, H1.
Qed.

Lemma others_of_quiet {A} (m : M A) : preserves quietly m -> preserves other_keys_kept m.
Proof. intros H w. apply other_keys_same, H. Qed.

Lemma others_of_session (m : M unit) :
  (forall w, same_session w (run m w)) -> preserves other_keys_kept m.
Proof. intros H w. apply other_keys_same. now destruct (H w) as (_ & _ & _ & Hs & _). Qed.

Lemma quiet_watch_route (path : string) : preserves quietly (App.watch_route path).
Proof.
  unfold App.watch_route.
  apply (preserves_bind quietly quietly_trans); [apply quiet_log_debug | intros _].
  apply (preserves_try_catch quietly quietly_trans); [apply quiet_switchStation | intros _].
  apply (preserves_bind quietly quietly_trans); [intros w; apply quietly_refl | intros w0].
  apply quiet_router_push.
Qed.

Lemma quiet_settle (rounds : nat) (seen : string) : preserves quietly (Router.settle rounds seen).
Proof.
  revert seen. induction rounds as [|n IH]; intros seen; cbn [Router.settle].
  - intros w. apply quietly_refl.
  - apply (preserves_bind quietly quietly_trans); [intros w; apply quietly_refl | intros w0].
    destruct (String.eqb (route w0) seen); [intros w; apply quietly_refl|].
    apply (preserves_bind quietly quietly_trans); [apply quiet_watch_route | intros _]. apply IH.
Qed.

Lemma quiet_navigate (rounds : nat) (path : string) : preserves quietly (Router.navigate rounds path).
Proof.
  unfold Router.navigate, Router.updateRoute.
  apply (preserves_bind quietly quietly_trans); [intros w; apply quietly_refl | intros w0].
  apply (preserves_bind quietly quietly_trans); [apply quiet_router_push | intros _].
  apply quiet_settle.
Qed.

Lemma others_seed_all (seeds : list Raw.t) : preserves other_keys_kept (App.seed_all seeds).
Proof.
  intros w. destruct (seed_all_state seeds w) as [l ->]. cbn [snd].
  apply other_keys_same.
  now destruct (after_seed_fields (validated (heap_next w) seeds) w) as (_ & Hs & _).
Qed.

Lemma others_merge_stored (record : Json) : preserves other_keys_kept (App.merge_stored record).
Proof.
  intros w. rewrite merge_stored_cases.
  destruct (Station.fromJSON _ _); [destruct (decide _)|]; apply other_keys_same; reflexivity.
Qed.

Lemma others_load_stored : preserves other_keys_kept App.load_stored.
Proof.
  intros w. unfold App.load_stored, bind, get. cbv beta iota.
  destruct (localStorage w) as [store|] eqn:Hs; [|apply other_keys_refl].
  destruct (store !! "stations") as [text|]; [|apply other_keys_refl].
  destruct (is_empty text); [apply other_keys_refl|].
  destruct (JSON_parse text) as [parsed|].
  - unfold log_debug, modify. cbv beta iota.
    set (v := set_logs _ w).
    assert (Hv : other_keys_kept w v) by (apply other_keys_same; reflexivity).
    destruct parsed; try exact Hv.
    apply (other_keys_trans _ v); [exact Hv|].
    apply preserves_forEach;
      [apply other_keys_refl | apply other_keys_trans | apply others_merge_stored].
  - unfold log_error, modify. cbn [fst snd].
    unfold other_keys_kept. cbn [localStorage set_localStorage set_logs]. rewrite Hs.
    intros k Hk. now apply lookup_delete_ne.
Qed.

Lemma others_flush : preserves other_keys_kept App.flush.
Proof.
  intros w. rewrite flush_cases. destruct (stationsChanged w); [|apply other_keys_refl].
  cbn [snd]. unfold other_keys_kept.
  destruct (localStorage w) as [store|] eqn:Hs; cbn [localStorage set_localStorage set_stationsChanged];
    rewrite ?Hs; [|exact I].
  intros k Hk. now apply lookup_insert_ne.
Qed.

Lemma others_beforeMount (seeds : list Raw.t) : preserves other_keys_kept (App.beforeMount seeds).
Proof.
  unfold App.beforeMount, App.reconcile.
  apply (preserves_bind _ other_keys_trans); [apply others_of_quiet, quiet_log_debug | intros _].
  apply (preserves_bind _ other_keys_trans); [|intros _; apply others_of_quiet, quiet_initial_station].
  apply (preserves_bind _ other_keys_trans); [apply others_seed_all | intros _].
  apply others_load_stored.
Qed.

Lemma others_act (a : Action) : preserves other_keys_kept (act a).
Proof.
  destruct a as [seeds|id play|path|path|id| | | |x]; cbn [act].
  - apply others_beforeMount.
  - apply others_of_quiet, quiet_switchStation.
  - apply others_of_quiet, quiet_watch_route.
  - apply others_of_quiet, quiet_navigate.
  - apply others_of_session. intros w. apply open_session.
  - apply others_of_session, addStation_session.
  - apply others_of_session, saveStationEdit_session.
  - apply others_of_session, deleteHandler_session.
  - apply others_of_session. intros w. apply input_session.
Qed.

Lemma others_turn (a : Action) (w : World) : other_keys_kept w (turn a w).
Proof.
  unfold turn, event. apply (other_keys_trans _ (run (act a) w)); [apply others_act | apply others_flush].
Qed.

Lemma stored_setting_kept (w w' : World) :
  other_keys_kept w w' -> Visualizer.stored_setting w' = Visualizer.stored_setting w.
Proof.
  unfold other_keys_kept, Visualizer.stored_setting.
  destruct (localStorage w), (localStorage w'); try tauto.
  intros H. now rewrite H.
Qed.

(** X17. Whatever the user does with the stations, the page writes no key of
    [localStorage] but "stations": over any sequence of startups, switches,
    route changes, clicks in the navigation list and uses of the editor, each
    with the watchers that follow it, the storage stays there or stays
    absent, and every other key holds what it held. *)
Theorem only_the_stations_key_is_written (actions : list Action) (w : World) :
  other_keys_kept w (story actions w).
Proof.
  unfold story. revert w. induction actions as [|a actions IH]; intros w; cbn [fold_left].
  - apply other_keys_refl.
  - apply (other_keys_trans _ (turn a w)); [apply others_turn | apply IH].
Qed.

Lemma setting_after_story (actions : list Action) (w : World) :
  Visualizer.stored_setting (story actions w) = Visualizer.stored_setting w.
Proof.
  unfold story. revert w. induction actions as [|a actions IH]; intros w; cbn [fold_left].
  - reflexivity.
  - rewrite IH. apply stored_setting_kept, others_turn.
Qed.

Lemma setting_after_watch (b : bool) (w : World) (store : gmap string string) :
  localStorage w = Some store ->
  Visualizer.stored_setting (run (Visualizer.watch_enabled b) w) = if b then "true" else "false".
Proof.
  intros Hs. unfold Visualizer.watch_enabled, run, bind, log_debug, modify. cbv beta iota.
  cbn [snd fst localStorage set_logs]. rewrite Hs. unfold Visualizer.stored_setting.
  cbn [localStorage set_localStorage]. rewrite lookup_insert_eq. now destruct b.
Qed.

(** X18. The setting of the visualizer comes back at the next start. Where
    there is a [localStorage], once the watcher of [visualizer.enabled] has
    run on a boolean, [data()] reads that boolean back, whatever was done
    with the stations in between; without a [localStorage], [data()] reads
    [true] whatever was set. *)
Theorem visualizer_setting_comes_back (b : bool) (actions : list Action) (w : World) :
  let w' := story actions (run (Visualizer.watch_enabled b) w) in
  (forall store, localStorage w = Some store -> Visualizer.enabled_at_start w' = Some (JBool b))
  /\ (localStorage w = None -> Visualizer.enabled_at_start w' = Some (JBool true)).
Proof.
  intros w'. unfold w', Visualizer.enabled_at_start. rewrite setting_after_story. split.
  - intros store Hs. rewrite (setting_after_watch b w store Hs). now destruct b.
  - intros Hs. unfold Visualizer.watch_enabled, run, bind, log_debug, modify. cbv beta iota.
    cbn [snd fst localStorage set_logs]. rewrite Hs. unfold Visualizer.stored_setting.
    cbn [localStorage set_logs]. now rewrite Hs.
Qed.

Lemma visualizer_setting_comes_back_witness :
  Visualizer.enabled_at_start
    (story [Start [liquid_radio; jazz_fm]; Open "jazz_fm"; Delete]
       (run (Visualizer.watch_enabled false) fresh_page))
  = Some (JBool false).
Proof.
  exact (proj1 (visualizer_setting_comes_back false
                  [Start [liquid_radio; jazz_fm]; Open "jazz_fm"; Delete] fresh_page)
           ∅ eq_refl).
Defined.

Lemma mounted_cases (audioContext mediaElSrc : bool) (enabled : Json) (w : World) :
  Visualizer.mounted audioContext mediaElSrc enabled w =
    let v := set_logs (logs w ++ [(DEBUG, "Application MOUNTED")]) w in
    if negb audioContext || negb mediaElSrc then
      let v := set_logs (logs v ++ [(DEBUG, "Audio API not supported, disabling Visualizer")]) v in
      (Ok (JBool false, false),
       match enabled with
       | JBool false => v
       | _ => run (Visualizer.watch_enabled false) v
       end)
    else (Ok (enabled, true), v).
Proof.
  unfold Visualizer.mounted. destruct (negb audioContext || negb mediaElSrc); [|reflexivity].
  destruct enabled as [| [|] | | | | ]; reflexivity.
Qed.

(** X19. [mounted] on a player without the audio API: the visualizer is
    switched off and marked unsupported, and where there is a
    [localStorage] the next start reads it as off, so long as
    [visualizer.enabled] was what [data()] had read. On a player with the
    API the setting and the storage stay as they are. *)
Theorem unsupported_player_disables_the_visualizer
    (audioContext mediaElSrc : bool) (enabled : Json) (w : World) :
  let w' := run (Visualizer.mounted audioContext mediaElSrc enabled) w in
  (audioContext && mediaElSrc = false ->
     outcome (Visualizer.mounted audioContext mediaElSrc enabled) w = Ok (JBool false, false)
     /\ forall store, localStorage w = Some store ->
          Visualizer.enabled_at_start w = Some enabled ->
          Visualizer.enabled_at_start w' = Some (JBool false))
  /\ (audioContext && mediaElSrc = true ->
     outcome (Visualizer.mounted audioContext mediaElSrc enabled) w = Ok (enabled, true)
     /\ localStorage w' = localStorage w).
Proof.
  intros w'. unfold w', outcome, run. rewrite mounted_cases. cbv zeta. split; intros Hp.
  - assert (Hn : negb audioContext || negb mediaElSrc = true)
      by (destruct audioContext, mediaElSrc; try reflexivity; discriminate Hp).
    rewrite Hn. cbn [fst snd]. split; [reflexivity|]. intros store Hs Hstart.
    set (v := set_logs _ (set_logs _ w)) in *.
    assert (Hoff : Visualizer.enabled_at_start (run (Visualizer.watch_enabled false) v)
                   = Some (JBool false)).
    { unfold Visualizer.enabled_at_start. now rewrite (setting_after_watch false v store). }
    destruct enabled as [| [|] | | | | ]; try exact Hoff. exact Hstart.
  - assert (Hn : negb audioContext || negb mediaElSrc = false)
      by (destruct audioContext, mediaElSrc; try reflexivity; discriminate Hp).
    rewrite Hn. split; reflexivity.
Qed.

Lemma unsupported_player_disables_the_visualizer_witness :
  Visualizer.enabled_at_start (run (Visualizer.mounted false true (JBool true)) fresh_page)
  = Some (JBool false).
Proof.
  assert (H1 : false && true = false) by reflexivity.
  assert (H2 : Visualizer.enabled_at_start fresh_page = Some (JBool true))
    by (vm_compute; reflexivity).
  destruct (unsupported_player_disables_the_visualizer false true (JBool true) fresh_page)
    as [Hoff _].
  destruct (Hoff H1) as [_ Hnext]. exact (Hnext ∅ eq_refl H2).
Defined.

(** ** The form of the editor *)

Lemma input_keeps_the_draft (x : Dialog.Input) :
  exists f : Draft.t -> Draft.t,
    Dialog.input x = Dialog.edit_draft f
    /\ forall d, Draft.id (f d) = Draft.id d /\ Draft.isNew (f d) = Draft.isNew d
         /\ (Draft.source d <> [] -> Draft.source (f d) <> []).
Proof.
  destruct x as [text|text| |i text|i text|i]; eexists; (split; [reflexivity|]); intros d;
    cbn; repeat split; try tauto.
  - intros _ H. apply app_eq_nil in H as [_ H]. discriminate H.
  - intros Hd H. apply (f_equal length) in H. rewrite length_alter in H.
    now destruct (Draft.source d).
  - intros Hd H. apply (f_equal length) in H. rewrite length_alter in H.
    now destruct (Draft.source d).
  - now destruct (Draft.source d) as [|a [|b l]].
  - now destruct (Draft.source d) as [|a [|b l]].
  - destruct (Draft.source d) as [|a [|b l]] eqn:E; cbn; rewrite ?E;
      [congruence | discriminate |]. intros _. now destruct i.
Qed.

Lemma form_keeps_the_draft (inputs : list Dialog.Input) (w : World) (d : Draft.t) :
  selectedStation w = Some d -> Draft.source d <> [] ->
  exists d', forEach inputs Dialog.input w = (Ok tt, set_selectedStation (Some d') w)
    /\ Draft.source d' <> [] /\ Draft.id d' = Draft.id d /\ Draft.isNew d' = Draft.isNew d.
Proof.
  revert w d. induction inputs as [|x inputs IH]; intros w d Hd Hsrc; cbn [forEach].
  - exists d. split; [|tauto]. unfold ret. f_equal. apply World_ext; try reflexivity.
    now rewrite Hd.
  - destruct (input_keeps_the_draft x) as (f & -> & Hf). destruct (Hf d) as (Hid & Hnew & Hs).
    unfold bind. rewrite edit_draft_cases, Hd.
    destruct (IH (set_selectedStation (Some (f d)) w) (f d) eq_refl (Hs Hsrc))
      as (d' & -> & Hs' & Hid' & Hnew').
    exists d'. split; [reflexivity|]. repeat split; [assumption | congruence | congruence].
Qed.

(** X20. The form never leaves the draft without a source. On a page whose
    stations are all valid, once the editor is open, on a station or on a
    new draft, any sequence of inputs in the form (title, description, a
    source added, written or deleted) returns and leaves a draft with at
    least one source, with the id and the [isNew] mark [open] gave it; the
    registry is not touched. *)
Theorem the_form_keeps_a_source (w : World) (id : string) (inputs : list Dialog.Input) :
  valid_page w ->
  outcome (StationEditor.open id) w = Ok tt ->
  let opened := run (StationEditor.open id) w in
  let w' := run (forEach inputs Dialog.input) opened in
  outcome (forEach inputs Dialog.input) opened = Ok tt
  /\ stations w' = stations w
  /\ exists d, selectedStation w' = Some d /\ Draft.source d <> []
       /\ Draft.id d = id /\ Draft.isNew d = is_empty id.
Proof.
  intros [Hall _] Hopen opened w'.
  assert (Hdraft : exists d, selectedStation opened = Some d /\ Draft.source d <> []
            /\ Draft.id d = id /\ Draft.isNew d = is_empty id /\ stations opened = stations w).
  { unfold opened, outcome, run in *. rewrite open_cases in *.
    destruct id as [|c id']; cbn [is_empty] in *.
    { eexists. cbn. repeat split. discriminate. }
    destruct (Z.eqb_spec (Util.getStationIndex (stations w) (String c id')) (-1)) as [|Hfound];
      [discriminate Hopen|].
    destruct (getStationIndex_lookup _ _ Hfound) as (live & Hget & Hid). rewrite Hget. cbn.
    eexists. repeat split; [|exact Hid].
    destruct (getStationIndex_range (stations w) (String c id')) as [?|Hr]; [contradiction|].
    unfold array_get in Hget.
    destruct (Z.ltb_spec (Util.getStationIndex (stations w) (String c id')) 0); [lia|].
    rewrite Forall_forall in Hall.
    assert (Hwf : wellformed live = true) by (apply Hall, list_elem_of_lookup; eauto).
    unfold wellformed in Hwf. apply andb_true_iff in Hwf as [_ Hv].
    cbn. intros Hnil. rewrite Hnil in Hv. discriminate Hv. }
  destruct Hdraft as (d & Hd & Hsrc & Hid & Hnew & Hst).
  destruct (form_keeps_the_draft inputs opened d Hd Hsrc) as (d' & Hrun & Hs' & Hid' & Hnew').
  unfold w', outcome, run. rewrite Hrun. cbn [fst snd].
  split; [reflexivity|]. split; [exact Hst|].
  exists d'. repeat split; [assumption | congruence | congruence].
Qed.

Lemma the_form_keeps_a_source_witness :
  exists d,
    selectedStation
      (run (forEach [Dialog.Title "Chill"; Dialog.DeleteSource 0; Dialog.AddSource;
                     Dialog.DeleteSource 0; Dialog.DeleteSource 0;
                     Dialog.Src 0 "http://chill/stream"] Dialog.input)
         (run (StationEditor.open "") fresh_page)) = Some d
    /\ Draft.source d <> [].
Proof.
  assert (Hv : valid_page fresh_page).
  { split; [constructor | intros current H; discriminate H]. }
  assert (Ho : outcome (StationEditor.open "") fresh_page = Ok tt) by reflexivity.
  destruct (the_form_keeps_a_source fresh_page ""
              [Dialog.Title "Chill"; Dialog.DeleteSource 0; Dialog.AddSource;
               Dialog.DeleteSource 0; Dialog.DeleteSource 0;
               Dialog.Src 0 "http://chill/stream"] Hv Ho) as (_ & _ & d & Hd & Hs & _).
  exists d. split; [exact Hd | exact Hs].
Defined.

(** ** The snapshot over a session *)

Lemma flagged_refl (w : World) : flagged w w.
Proof. right. split; reflexivity. Qed.

Lemma flagged_trans (a b c : World) : flagged a b -> flagged b c -> flagged a c.
Proof.
  unfold flagged. intros [H1|[H1 H1']] [H2|[H2 H2']]; auto.
  - left. congruence.
  - right. split; congruence.
Qed.

Lemma flagged_of_editor {A} (m : M A) : preserves same_editor m -> preserves flagged m.
Proof.
  intros H w. destruct (H w) as (Hs & _ & _ & _ & _ & Hc). right. split; assumption.
Qed.

Lemma flagged_seed_all (seeds : list Raw.t) : preserves flagged (App.seed_all seeds).
Proof.
  intros w. destruct (seed_all_state seeds w) as [l ->]. cbn [snd]. unfold after_seed.
  destruct (validated (heap_next w) seeds); [right | left]; cbn; auto.
Qed.

Lemma flagged_merge_stored (record : Json) : preserves flagged (App.merge_stored record).
Proof.
  intros w. rewrite merge_stored_cases.
  destruct (Station.fromJSON _ _); [destruct (decide _)|]; cbn [snd];
    [right | left | right]; cbn; auto.
Qed.

Lemma flagged_load_stored : preserves flagged App.load_stored.
Proof.
  intros w. unfold App.load_stored, bind, get. cbv beta iota.
  destruct (localStorage w) as [store|]; [|apply flagged_refl].
  destruct (store !! "stations") as [text|]; [|apply flagged_refl].
  destruct (is_empty text); [apply flagged_refl|].
  destruct (JSON_parse text) as [parsed|].
  - unfold log_debug, modify. cbv beta iota.
    set (v := set_logs _ w).
    assert (Hv : flagged w v) by (right; split; reflexivity).
    destruct parsed; try exact Hv.
    apply (flagged_trans _ v); [exact Hv|].
    apply preserves_forEach; [apply flagged_refl | apply flagged_trans | apply flagged_merge_stored].
  - right. split; reflexivity.
Qed.

Lemma flagged_beforeMount (seeds : list Raw.t) : preserves flagged (App.beforeMount seeds).
Proof.
  unfold App.beforeMount, App.reconcile.
  apply (preserves_bind _ flagged_trans); [apply flagged_of_editor, editor_log_debug | intros _].
  apply (preserves_bind _ flagged_trans);
    [|intros _; apply flagged_of_editor, editor_initial_station].
  apply (preserves_bind _ flagged_trans); [apply flagged_seed_all | intros _].
  apply flagged_load_stored.
Qed.

Lemma flagged_open (id : string) : preserves flagged (StationEditor.open id).
Proof.
  intros w. rewrite open_cases.
  destruct (is_empty id); [right; split; reflexivity|].
  destruct (_ =? -1); [apply flagged_refl|].
  destruct (array_get _ _); right; split; reflexivity.
Qed.

Lemma flagged_addStation : preserves flagged StationEditor.addStation.
Proof.
  intros w. destruct (selectedStation w) as [d|] eqn:Hd.
  - rewrite (editor_addStation_state w d Hd). cbv zeta.
    destruct (decide _); [right; split; reflexivity|].
    destruct (Station.new _ _ _ _ _); [left | right; split]; reflexivity.
  - rewrite (addStation_no_draft w Hd). right. split; reflexivity.
Qed.

Lemma flagged_deleteHandler : preserves flagged StationEditor.deleteHandler.
Proof.
  intros w. destruct (selectedStation w) as [d|] eqn:Hd.
  - rewrite (deleteHandler_cases w d Hd). destruct (decide _); [left; reflexivity | apply flagged_refl].
  - rewrite (deleteHandler_no_draft w Hd). apply flagged_refl.
Qed.

Lemma flagged_input (x : Dialog.Input) : preserves flagged (Dialog.input x).
Proof.
  intros w. destruct (input_is_an_edit x) as [f ->]. rewrite edit_draft_cases.
  destruct (selectedStation w); right; split; reflexivity.
Qed.

Lemma flagged_act (a : Action) : a <> Save -> preserves flagged (act a).
Proof.
  intros Hsave. destruct a as [seeds|id play|path|path|id| | | |x]; cbn [act].
  - apply flagged_beforeMount.
  - apply flagged_of_editor, editor_switchStation.
  - apply flagged_of_editor, editor_watch_route.
  - apply flagged_of_editor, editor_navigate.
  - apply flagged_open.
  - apply flagged_addStation.
  - contradiction.
  - apply flagged_deleteHandler.
  - apply flagged_input.
Qed.

Lemma flush_fields (v : World) :
  stations (run App.flush v) = stations v /\ stationsChanged (run App.flush v) = false.
Proof.
  unfold run. rewrite flush_cases. destruct (stationsChanged v) eqn:Hc; cbn [snd].
  - now destruct (localStorage v).
  - split; [reflexivity | exact Hc].
Qed.

Lemma storage_act (a : Action) (w : World) :
  routine a = true -> localStorage (run (act a) w) = localStorage w.
Proof.
  destruct a as [seeds|id play|path|path|id| | | |x]; cbn [routine act]; intros Hr;
    try discriminate Hr.
  - apply quiet_switchStation.
  - apply quiet_watch_route.
  - apply quiet_navigate.
  - now destruct (open_session id w) as (_ & _ & _ & Hs & _).
  - now destruct (addStation_session w) as (_ & _ & _ & Hs & _).
  - now destruct (deleteHandler_session w) as (_ & _ & _ & Hs & _).
  - now destruct (input_session x w) as (_ & _ & _ & Hs & _).
Qed.

(** After an action other than save, on a page where no change waited for
    the watcher: either the registry is the one of before and the watcher
    did not run, or the snapshot is in step. *)
Lemma turn_cases (a : Action) (w : World) :
  a <> Save -> stationsChanged w = false ->
  stationsChanged (turn a w) = false
  /\ (in_sync (turn a w)
      \/ (stations (turn a w) = stations w /\ turn a w = run (act a) w)).
Proof.
  intros Hsave Hc. unfold turn, event.
  destruct (flush_fields (run (act a) w)) as [Hst Hflag]. split; [exact Hflag|].
  destruct (flagged_act a Hsave w) as [Hchanged|[Hsame Hquiet]].
  - left. now apply in_sync_after_flush.
  - right. split; [now rewrite Hst|].
    unfold run. rewrite flush_cases, Hquiet, Hc. reflexivity.
Qed.

(** X21. A change of the registry reaches the snapshot, the save button
    aside. When no change waits for the watcher and an action other than
    save leaves another registry than it found (startup, the add button,
    the delete button), the snapshot after the action is the serialization
    of the new registry. *)
Theorem registry_changes_reach_the_snapshot (a : Action) (w : World) :
  a <> Save ->
  stationsChanged w = false ->
  stations (turn a w) <> stations w ->
  settled (turn a w).
Proof.
  intros Hsave Hc Hnew. destruct (turn_cases a w Hsave Hc) as [Hflag [Hsync|[Hsame _]]].
  - split; assumption.
  - contradiction.
Qed.

Lemma registry_changes_reach_the_snapshot_witness :
  settled (turn (Start [liquid_radio; jazz_fm]) fresh_page).
Proof.
  assert (H1 : Start [liquid_radio; jazz_fm] <> Save) by discriminate.
  assert (H2 : stationsChanged fresh_page = false) by reflexivity.
  assert (H3 : stations (turn (Start [liquid_radio; jazz_fm]) fresh_page) <> stations fresh_page).
  { vm_compute. intros H. discriminate H. }
  exact (registry_changes_reach_the_snapshot (Start [liquid_radio; jazz_fm]) fresh_page H1 H2 H3).
Defined.

(** X22. Once the page is started, the snapshot goes out of step only
    through the save button: over any sequence of switches, route changes,
    clicks in the navigation list, openings of the editor, inputs in its
    form, adds and deletes, a snapshot that is in step stays in step. *)
Theorem snapshot_stays_in_step (actions : list Action) (w : World) :
  forallb routine actions = true ->
  settled w ->
  settled (story actions w).
Proof.
  unfold story. revert w. induction actions as [|a actions IH]; intros w Hr Hw; cbn [fold_left].
  - exact Hw.
  - cbn [forallb] in Hr. apply andb_true_iff in Hr as [Ha Hr]. apply IH; [exact Hr|].
    destruct Hw as [Hsync Hc].
    assert (Hsave : a <> Save) by (intros ->; discriminate Ha).
    destruct (turn_cases a w Hsave Hc) as [Hflag [Hnew|[Hsame Hrun]]].
    + split; assumption.
    + split; [|exact Hflag]. intros store Hs. rewrite Hsame. apply Hsync.
      rewrite Hrun in Hs. now rewrite (storage_act a w Ha) in Hs.
Qed.

Lemma snapshot_stays_in_step_witness :
  settled (story [Open ""; Form (Dialog.Title "Chill"); Form (Dialog.Src 0 "http://chill/stream");
                  Add; Navigate "chill"; Open "jazz_fm"; Delete] started).
Proof.
  assert (H1 : forallb routine
                 [Open ""; Form (Dialog.Title "Chill"); Form (Dialog.Src 0 "http://chill/stream");
                  Add; Navigate "chill"; Open "jazz_fm"; Delete] = true) by reflexivity.
  assert (H2 : settled started).
  { split; [apply in_sync_of_snapshot|]; vm_compute; reflexivity. }
  exact (snapshot_stays_in_step _ started H1 H2).
Defined.

(** ** A station added, opened and deleted *)

Lemma station_id_empty (title : string) :
  is_empty (StationEditor.station_id title) = is_empty title.
Proof.
  destruct title as [|c r]; [reflexivity|]. unfold StationEditor.station_id. cbn [replace].
  now destruct (Ascii.eqb c " ").
Qed.

Lemma index_from_new (l : list Station.t) (st : Station.t) (i : Z) :
  Station.id st ∉ map Station.id l ->
  Util.index_from (l ++ [st]) (Station.id st) i = i + Z.of_nat (length l).
Proof.
  revert i. induction l as [|s l IH]; intros i Hnew; cbn [app Util.index_from length map] in *.
  - rewrite String.eqb_refl. lia.
  - apply not_elem_of_cons in Hnew as [Hne Hnew].
    destruct (String.eqb_spec (Station.id s) (Station.id st)) as [Heq|_]; [congruence|].
    rewrite IH by exact Hnew. lia.
Qed.

Lemma flush_keeps (v : World) :
  stations (run App.flush v) = stations v
  /\ selectedStation (run App.flush v) = selectedStation v
  /\ currentStation (run App.flush v) = currentStation v
  /\ dialogOpen (run App.flush v) = dialogOpen v
  /\ validationError (run App.flush v) = validationError v.
Proof.
  unfold run. rewrite flush_cases. destruct (stationsChanged v); cbn [snd]; [|tauto].
  destruct (localStorage v); cbn; tauto.
Qed.

(** X23. A station added through the editor can be opened and deleted
    again. With a draft of a title, of sources that all have a [src], and of
    an id the registry does not have: the add button appends the station
    under the derived id; opening the editor on that id stages the fields of
    the draft; deleting then leaves the registry as it was before the add,
    the snapshot in step with it, the dialog closed and the current station
    untouched. *)
Theorem added_station_can_be_deleted (w : World) (d : Draft.t) :
  selectedStation w = Some d ->
  Draft.title d <> "" ->
  Station.valid_source (Draft.source d) = true ->
  let id := StationEditor.station_id (Draft.title d) in
  id ∉ ids (stations w) ->
  let added := turn Add w in
  let opened := turn (Open id) added in
  let deleted := turn Delete opened in
  ids (stations added) = (ids (stations w) ++ [id])%list
  /\ selectedStation opened
     = Some (Draft.mk false id (Draft.title d) (Draft.description d) (Draft.source d))
  /\ stations deleted = stations w
  /\ in_sync deleted
  /\ dialogOpen deleted = false
  /\ currentStation deleted = currentStation w.
Proof.
  intros Hd Ht Hv id Hnew added opened deleted.
  set (st := Station.mk (heap_next w) id (Draft.title d) (Draft.description d) (Draft.source d)).
  assert (Hid : is_empty id = false).
  { unfold id. rewrite station_id_empty. now destruct (Draft.title d). }
  assert (Hst : Station.new (heap_next w) id (Draft.title d) (Draft.description d) (Draft.source d)
                = Ok st).
  { unfold Station.new. rewrite Hid, Hv. now destruct (Draft.title d). }
  (* the add *)
  pose proof (editor_addStation_state w d Hd) as Hadd. cbv zeta in Hadd. fold id in Hadd.
  destruct (decide (id ∈ ids (stations w))) as [|_] in Hadd; [contradiction|].
  rewrite Hst in Hadd.
  destruct (flush_keeps (run (act Add) w)) as (Hs1 & _ & Hc1 & _).
  change (run App.flush (run (act Add) w)) with added in Hs1, Hc1.
  unfold run in Hs1, Hc1. cbn [act] in Hs1, Hc1. rewrite Hadd in Hs1, Hc1.
  cbn in Hs1, Hc1. unfold array_push in Hs1.
  (* the open *)
  assert (Hindex : Util.getStationIndex (stations added) id = Z.of_nat (length (items (stations w)))).
  { rewrite Hs1. unfold Util.getStationIndex. cbn [items].
    change id with (Station.id st) at 1. rewrite (index_from_new _ st 0) by exact Hnew. lia. }
  assert (Hget : array_get (stations added) (Util.getStationIndex (stations added) id) = Some st).
  { rewrite Hindex. unfold array_get.
    destruct (Z.ltb_spec (Z.of_nat (length (items (stations w)))) 0); [lia|].
    rewrite Nat2Z.id, Hs1. cbn [items]. apply list_lookup_middle. reflexivity. }
  pose proof (open_cases id added) as Hopen. rewrite Hid, Hget, Hindex in Hopen.
  destruct (Z.eqb_spec (Z.of_nat (length (items (stations w)))) (-1)) as [|_] in Hopen; [lia|].
  destruct (flush_keeps (run (act (Open id)) added)) as (Hs2 & Hd2 & Hc2 & _).
  change (run App.flush (run (act (Open id)) added)) with opened in Hs2, Hd2, Hc2.
  unfold run in Hs2, Hd2, Hc2. cbn [act] in Hs2, Hd2, Hc2. rewrite Hopen in Hs2, Hd2, Hc2.
  cbn in Hs2, Hd2, Hc2.
  (* the delete *)
  assert (Hin : id ∈ ids (stations opened)).
  { rewrite Hs2, Hs1. unfold ids. cbn [items]. rewrite map_app. apply elem_of_app. right.
    cbn. left. }
  pose proof (deleteHandler_cases opened _ Hd2) as Hdel. cbn [Draft.id] in Hdel.
  destruct (decide (id ∈ ids (stations opened))) as [_|] in Hdel; [|contradiction].
  destruct (flush_keeps (run (act Delete) opened)) as (Hs3 & _ & Hc3 & Ho3 & _).
  change (run App.flush (run (act Delete) opened)) with deleted in Hs3, Hc3, Ho3.
  assert (Hsync : in_sync deleted).
  { unfold deleted, turn, event. apply in_sync_after_flush. unfold run. cbn [act]. now rewrite Hdel. }
  unfold run in Hs3, Hc3, Ho3. cbn [act] in Hs3, Hc3, Ho3. rewrite Hdel in Hs3, Hc3, Ho3.
  cbn in Hs3, Hc3, Ho3.
  split; [rewrite Hs1; unfold ids; cbn [items]; now rewrite map_app|].
  split; [exact Hd2|].
  split; [|split; [exact Hsync | split; [exact Ho3 | congruence]]].
  rewrite Hs3, Hs2, Hindex, Hs1.
  rewrite array_splice_one
    by (unfold array_length; cbn [items]; rewrite length_app; cbn [length]; lia).
  cbn [items props]. rewrite Nat2Z.id.
  rewrite take_app_length, drop_ge by (rewrite length_app; cbn [length]; lia).
  rewrite app_nil_r. now destruct (stations w).
Qed.

Lemma added_station_can_be_deleted_witness :
  ids (stations (turn Add chill_draft)) = ["liquid_radio"; "jazz_fm"; "chill_out"]
  /\ stations (turn Delete (turn (Open "chill_out") (turn Add chill_draft))) = stations chill_draft.
Proof.
  assert (H1 : selectedStation chill_draft
               = Some (Draft.mk true "" "Chill Out" ""
                         [ {| src := "http://chill/stream"; type := "" |} ]))
    by (vm_compute; reflexivity).
  assert (H2 : "Chill Out" <> "") by discriminate.
  assert (H3 : Station.valid_source [ {| src := "http://chill/stream"; type := "" |} ] = true)
    by reflexivity.
  assert (H4 : StationEditor.station_id "Chill Out" ∉ ids (stations chill_draft))
    by (apply getStationIndex_absent; vm_compute; reflexivity).
  assert (H5 : ids (stations chill_draft) = ["liquid_radio"; "jazz_fm"])
    by (vm_compute; reflexivity).
  destruct (added_station_can_be_deleted chill_draft
              (Draft.mk true "" "Chill Out" "" [ {| src := "http://chill/stream"; type := "" |} ])
              H1 H2 H3 H4) as (Hids & _ & Hst & _).
  split; [|exact Hst]. rewrite Hids, H5. reflexivity.
Defined.

(** ** Startup as a whole *)








(** ** Reloading the page *)

Lemma string_app_cons (x : ascii) (a b : string) :
  (String x a ++ b = String x (a ++ b))%string.
Proof. reflexivity. Qed.

Lemma string_app_assoc (a b c : string) : ((a ++ b) ++ c = a ++ (b ++ c))%string.
Proof.
  induction a as [|x a IH]; [reflexivity|]. rewrite !string_app_cons. now f_equal.
Qed.

Lemma string_app_nil_r (a : string) : (a ++ "" = a)%string.
Proof.
  induction a as [|x a IH]; [reflexivity|]. rewrite string_app_cons. now f_equal.
Qed.

Lemma string_app_length (a b : string) :
  String.length (a ++ b) = (String.length a + String.length b)%nat.
Proof.
  induction a as [|x a IH]; [reflexivity|]. rewrite string_app_cons. cbn [String.length].
  now rewrite IH.
Qed.

Lemma stringify_array (vs : list Json) :
  JSON_stringify (JArray vs) = ("[" ++ elements_text vs ++ "]")%string.
Proof. reflexivity. Qed.

Lemma stringify_object (ms : list (string * Json)) :
  JSON_stringify (JObject ms) = ("{" ++ members_text ms ++ "}")%string.
Proof. reflexivity. Qed.

Lemma parse_escape_char (c : ascii) (t : string) :
  parse_chars (escape_char c ++ t) =
    match parse_chars t with
    | Some (u, rest) => Some (String c u, rest)
    | None => None
    end.
Proof.
  destruct c as [[] [] [] [] [] [] [] []]; reflexivity.
Qed.

Lemma parse_escape (s rest : string) :
  parse_chars (escape s ++ String dquote rest) = Some (s, rest).
Proof.
  induction s as [|c s IH]; [reflexivity|].
  cbn [escape]. now rewrite string_app_assoc, parse_escape_char, IH.
Qed.

Lemma stringify_starts (j : Json) :
  textual j = true -> exists c t, JSON_stringify j = String c t /\ starter c.
Proof.
  unfold starter.
  destruct j as [|[|]|lit|s|vs|ms]; intros Hj; try discriminate Hj;
    eexists _, _; (split; [reflexivity|]); tauto.
Qed.

Lemma parse_value_string (n : nat) (r : string) :
  parse_value (S n) (String dquote r)
  = option_map (fun '(t, rest) => (JString t, rest)) (parse_chars r).
Proof. reflexivity. Qed.

Lemma parse_value_array (n : nat) (c : ascii) (t : string) :
  starter c ->
  parse_value (S n) (String "[" (String c t))
  = option_map (fun '(vs, rest) => (JArray vs, rest)) (parse_elements n (String c t)).
Proof. intros [->|[->|[->|[->|[->| ->]]]]]; reflexivity. Qed.

Lemma parse_value_object (n : nat) (t : string) :
  parse_value (S n) (String "{" (String dquote t))
  = option_map (fun '(ms, rest) => (JObject ms, rest)) (parse_members n (String dquote t)).
Proof. reflexivity. Qed.

Lemma parse_elements_step (n : nat) (s : string) :
  parse_elements (S n) s =
    match parse_value n s with
    | None => None
    | Some (v, r) =>
      match skip_ws r with
      | String "," r' => option_map (fun '(vs, rest) => (v :: vs, rest)) (parse_elements n r')
      | String "]" rest => Some ([v], rest)
      | _ => None
      end
    end.
Proof. reflexivity. Qed.

Lemma parse_members_step (n : nat) (k x : string) :
  parse_members (S n) (String dquote (escape k ++ String dquote (String ":" x))) =
    match parse_value n x with
    | None => None
    | Some (v, r3) =>
      match skip_ws r3 with
      | String "," r4 => option_map (fun '(ms, rest) => ((k, v) :: ms, rest)) (parse_members n r4)
      | String "}" rest => Some ([(k, v)], rest)
      | _ => None
      end
    end.
Proof.
  transitivity
    (match parse_chars (escape k ++ String dquote (String ":" x)) with
     | None => None
     | Some (k, r1) =>
       match skip_ws r1 with
       | String ":" r2 =>
         match parse_value n r2 with
         | None => None
         | Some (v, r3) =>
           match skip_ws r3 with
           | String "," r4 =>
             option_map (fun '(ms, rest) => ((k, v) :: ms, rest)) (parse_members n r4)
           | String "}" rest => Some ([(k, v)], rest)
           | _ => None
           end
         end
       | _ => None
       end
     end); [reflexivity|].
  rewrite parse_escape. reflexivity.
Qed.

Lemma members_text_cons (k : string) (v : Json) (l : list (string * Json)) (rest : string) :
  (members_text ((k, v) :: l) ++ String "}" rest)%string
  = String dquote
      (escape k ++ String dquote (String ":"
         (JSON_stringify v
            ++ (match l with [] => EmptyString | _ => "," ++ members_text l end)
            ++ String "}" rest))).
Proof.
  cbn [members_text]. unfold quoted.
  repeat (rewrite string_app_cons || rewrite string_app_assoc). reflexivity.
Qed.

Lemma parse_printed (n : nat) :
  (forall j rest, textual j = true -> (weight j <= n)%nat ->
     parse_value n (JSON_stringify j ++ rest) = Some (j, rest))
  /\ (forall v l rest, forallb textual (v :: l) = true -> (elements_weight (v :: l) <= n)%nat ->
        parse_elements n (elements_text (v :: l) ++ String "]" rest) = Some (v :: l, rest))
  /\ (forall m l rest, forallb (fun m => textual (snd m)) (m :: l) = true ->
        (members_weight (m :: l) <= n)%nat ->
        parse_members n (members_text (m :: l) ++ String "}" rest) = Some (m :: l, rest)).
Proof.
  induction n as [|n (IHv & IHe & IHm)].
  { split; [|split].
    - intros j rest _ Hw. destruct j; cbn in Hw; lia.
    - intros v l rest _ Hw. cbn in Hw. lia.
    - intros m l rest _ Hw. cbn in Hw. lia. }
  split; [|split].
  - intros j rest Hj Hw. destruct j as [|[|]|lit|s|vs|ms]; try reflexivity; try discriminate Hj.
    + change (JSON_stringify (JString s) ++ rest)%string
        with (String dquote ((escape s ++ String dquote "") ++ rest)).
      rewrite string_app_assoc. change (String dquote "" ++ rest)%string with (String dquote rest).
      now rewrite parse_value_string, parse_escape.
    + destruct vs as [|v l]; [reflexivity|].
      rewrite stringify_array.
      change ("[" ++ elements_text (v :: l) ++ "]")%string
        with (String "[" (elements_text (v :: l) ++ "]")).
      rewrite string_app_cons, string_app_assoc.
      change ("]" ++ rest)%string with (String "]" rest).
      assert (Hstart : exists c t, (elements_text (v :: l) ++ String "]" rest)%string = String c t
                                   /\ starter c).
      { cbn [textual forallb] in Hj. apply andb_true_iff in Hj as [Hv _].
        destruct (stringify_starts v Hv) as (c & t & Heq & Hc).
        cbn [elements_text]. rewrite Heq. eexists _, _. split; [reflexivity | exact Hc]. }
      destruct Hstart as (c & t & Heq & Hc). rewrite Heq, (parse_value_array n c t Hc), <- Heq.
      rewrite IHe; [reflexivity | exact Hj | cbn in Hw |- *; lia].
    + destruct ms as [|[k v] l]; [reflexivity|].
      rewrite stringify_object.
      change ("{" ++ members_text ((k, v) :: l) ++ "}")%string
        with (String "{" (members_text ((k, v) :: l) ++ "}")).
      rewrite string_app_cons, string_app_assoc.
      change ("}" ++ rest)%string with (String "}" rest).
      assert (Hstart : exists t, (members_text ((k, v) :: l) ++ String "}" rest)%string
                                 = String dquote t).
      { cbn [members_text]. unfold quoted. eexists. reflexivity. }
      destruct Hstart as (t & Heq). rewrite Heq, parse_value_object, <- Heq.
      rewrite IHm; [reflexivity | exact Hj | cbn in Hw |- *; lia].
  - intros v l rest Hj Hw. cbn [forallb] in Hj. apply andb_true_iff in Hj as [Hv Hl].
    cbn [elements_text]. rewrite string_app_assoc, parse_elements_step.
    rewrite IHv; [|exact Hv | cbn in Hw; lia].
    destruct l as [|v2 l]; [reflexivity|].
    change (("," ++ elements_text (v2 :: l)) ++ String "]" rest)%string
      with (String "," (elements_text (v2 :: l) ++ String "]" rest)).
    change (skip_ws (String "," ?x)) with (String "," x). cbv beta iota.
    rewrite IHe; [reflexivity | exact Hl | cbn in Hw |- *; lia].
  - intros [k v] l rest Hj Hw. cbn [forallb snd] in Hj. apply andb_true_iff in Hj as [Hv Hl].
    rewrite members_text_cons, parse_members_step.
    rewrite IHv; [|exact Hv | cbn in Hw; lia].
    destruct l as [|m2 l]; [reflexivity|].
    change (("," ++ members_text (m2 :: l)) ++ String "}" rest)%string
      with (String "," (members_text (m2 :: l) ++ String "}" rest)).
    change (skip_ws (String "," ?x)) with (String "," x). cbv beta iota.
    rewrite IHm; [reflexivity | exact Hl | cbn in Hw |- *; lia].
Qed.

Lemma elements_weight_cons (v : Json) (l : list Json) :
  elements_weight (v :: l) = (S (weight v) + elements_weight l)%nat.
Proof. reflexivity. Qed.

Lemma members_weight_cons (m : string * Json) (l : list (string * Json)) :
  members_weight (m :: l) = (S (weight (snd m)) + members_weight l)%nat.
Proof. reflexivity. Qed.

Lemma weight_bound (n : nat) :
  (forall j, textual j = true -> (weight j <= n)%nat ->
     (weight j <= String.length (JSON_stringify j))%nat)
  /\ (forall l, forallb textual l = true -> (elements_weight l <= n)%nat ->
        (elements_weight l <= String.length (elements_text l) + 1)%nat)
  /\ (forall l, forallb (fun m => textual (snd m)) l = true -> (members_weight l <= n)%nat ->
        (members_weight l <= String.length (members_text l) + 1)%nat).
Proof.
  induction n as [|n (IHv & IHe & IHm)].
  { split; [|split].
    - intros j _ Hw. destruct j; cbn in Hw; lia.
    - intros [|v l] _ Hw; cbn in Hw |- *; lia.
    - intros [|m l] _ Hw; cbn in Hw |- *; lia. }
  split; [|split].
  - intros j Hj Hw. destruct j as [|[|]|lit|s|vs|ms]; try discriminate Hj;
      try (cbn; lia).
    + rewrite stringify_array, !string_app_length. cbn [String.length].
      pose proof (IHe vs Hj) as H. cbn [weight] in Hw |- *. fold (elements_weight vs) in *. lia.
    + rewrite stringify_object, !string_app_length. cbn [String.length].
      pose proof (IHm ms Hj) as H. cbn [weight] in Hw |- *. fold (members_weight ms) in *. lia.
  - intros [|v l] Hj Hw; [cbn; lia|].
    cbn [forallb] in Hj. apply andb_true_iff in Hj as [Hv Hl].
    rewrite elements_weight_cons in Hw |- *.
    pose proof (IHv v Hv) as H1. pose proof (IHe l Hl) as H2.
    cbn [elements_text]. rewrite string_app_length.
    destruct l as [|v2 l]; [cbn in *; lia|].
    rewrite string_app_length. cbn [String.length]. lia.
  - intros [|[k v] l] Hj Hw; [cbn; lia|].
    cbn [forallb snd] in Hj. apply andb_true_iff in Hj as [Hv Hl].
    rewrite members_weight_cons in Hw |- *. cbn [snd] in Hw |- *.
    pose proof (IHv v Hv) as H1. pose proof (IHm l Hl) as H2.
    cbn [members_text]. rewrite !string_app_length.
    destruct l as [|m2 l]; [cbn in *; lia|].
    rewrite string_app_length. cbn [String.length]. lia.
Qed.

Lemma parse_stringify (j : Json) :
  textual j = true -> JSON_parse (JSON_stringify j) = Some j.
Proof.
  intros Hj. unfold JSON_parse.
  pose proof (proj1 (weight_bound (weight j)) j Hj (le_n _)) as Hlen.
  pose proof (proj1 (parse_printed (2 * String.length (JSON_stringify j) + 2)) j "" Hj) as Hparse.
  rewrite string_app_nil_r in Hparse. rewrite Hparse by lia. reflexivity.
Qed.

Lemma Source_round_trip (l : list Source) : map Source_fromJSON (map Source_toJSON l) = l.
Proof.
  induction l as [|[s t] l IH]; [reflexivity|]. cbn [map]. rewrite IH. reflexivity.
Qed.

Lemma Station_round_trip (a : nat) (st : Station.t) :
  Station.fromJSON a (Station.toJSON st)
  = Station.new a (Station.id st) (Station.title st) (Station.description st) (Station.source st).
Proof.
  unfold Station.fromJSON, Station.toJSON.
  change (string_member "id" _) with (Station.id st).
  change (string_member "title" _) with (Station.title st).
  change (string_member "description" _) with (Station.description st).
  change (member "source" _) with (Some (JArray (map Source_toJSON (Station.source st)))).
  cbv beta iota. now rewrite Source_round_trip.
Qed.

Lemma Station_textual (st : Station.t) : textual (Station.toJSON st) = true.
Proof.
  unfold Station.toJSON. cbn [textual forallb snd]. rewrite andb_true_r. cbn [andb].
  induction (Station.source st) as [|s l IH]; [reflexivity|]. cbn [map forallb]. now rewrite IH.
Qed.

Lemma stations_round_trip (arr : JsArray) :
  JSON_parse (stringify_stations arr) = Some (JArray (map Station.toJSON (items arr))).
Proof.
  unfold stringify_stations. apply parse_stringify. cbn [textual].
  induction (items arr) as [|st l IH]; [reflexivity|].
  cbn [map forallb]. now rewrite Station_textual, IH.
Qed.

Lemma Station_new_wellformed (a : nat) (st : Station.t) :
  wellformed st = true ->
  Station.new a (Station.id st) (Station.title st) (Station.description st) (Station.source st)
  = Ok (Station.clone a st).
Proof.
  unfold wellformed, Station.new. intros H.
  apply andb_true_iff in H as [H Hs]. apply andb_true_iff in H as [Hi Ht].
  apply negb_true_iff in Hi, Ht. now rewrite Hi, Ht, Hs.
Qed.

Lemma merge_grows (records : list Json) (v : World) (x : Station.t) :
  x ∈ items (stations v) -> x ∈ items (stations (run (forEach records App.merge_stored) v)).
Proof.
  intros Hx. destruct (merge_loop_appends records v) as [_ (added & -> & _)].
  cbn [items]. apply elem_of_app. now left.
Qed.

Lemma merge_keeps_ids (records : list Json) (v : World) (id : string) :
  id ∈ ids (stations v) -> id ∈ ids (stations (run (forEach records App.merge_stored) v)).
Proof.
  intros Hx. destruct (merge_loop_appends records v) as [_ (added & -> & _)].
  unfold ids in *. cbn [items]. rewrite map_app. apply elem_of_app. now left.
Qed.

(** The loop of [beforeMount] over the records [JSON.stringify] wrote for a
    list of valid stations: the id of each is in the registry afterwards,
    and a station whose id was not there is there with its fields. *)
Lemma merge_printed (l : list Station.t) (v : World) (st : Station.t) :
  Forall (fun st => wellformed st = true) l ->
  st ∈ l ->
  let v' := run (forEach (map Station.toJSON l) App.merge_stored) v in
  Station.id st ∈ ids (stations v')
  /\ (NoDup (map Station.id l) -> Station.id st ∉ ids (stations v) ->
      exists a, Station.clone a st ∈ items (stations v')).
Proof.
  revert v. induction l as [|st0 l IH]; intros v Hall Hin; [now apply elem_of_nil in Hin|].
  apply Forall_cons in Hall as [Hst0 Hall].
  cbn [map forEach]. unfold run, bind.
  rewrite merge_stored_cases, Station_round_trip, (Station_new_wellformed _ _ Hst0).
  cbn [Station.id Station.clone].
  destruct (decide (Station.id st0 ∈ ids (stations v))) as [Hold|Hnew]; cbn [snd].
  - set (v1 := set_heap_next (S (heap_next v)) v).
    apply elem_of_cons in Hin as [->|Hin].
    + split; [now apply (merge_keeps_ids _ v1)|]. intros _ Hout. contradiction.
    + destruct (IH v1 Hall Hin) as [Hid Hfields]. split; [exact Hid|].
      intros Hnd Hout. apply NoDup_cons in Hnd as [_ Hnd]. now apply Hfields.
  - set (v1 := set_stationsChanged true _).
    assert (Hids : ids (stations v1) = (ids (stations v) ++ [Station.id st0])%list).
    { unfold ids. cbn. now rewrite map_app. }
    apply elem_of_cons in Hin as [->|Hin].
    + split.
      * apply (merge_keeps_ids _ v1). rewrite Hids. apply elem_of_app. right. left.
      * intros _ _. exists (heap_next v). apply (merge_grows _ v1).
        cbn. apply elem_of_app. right. left.
    + destruct (IH v1 Hall Hin) as [Hid Hfields]. split; [exact Hid|].
      intros Hnd Hout. apply NoDup_cons in Hnd as [Hfirst Hnd]. apply Hfields; [exact Hnd|].
      rewrite Hids. intros Hmem. apply elem_of_app in Hmem as [Hmem|Hmem]; [contradiction|].
      apply list_elem_of_singleton in Hmem. apply Hfirst. rewrite <- Hmem.
      apply list_elem_of_fmap. now exists st.
Qed.

Lemma stations_after_bind {A B} (m : M A) (k : A -> M B) (w : World) :
  (forall a, preserves same_stations (k a)) ->
  stations (run (bind m k) w) = stations (run m w).
Proof.
  intros Hk. unfold run, bind. destruct (m w) as [[a|e] w1]; [apply Hk | reflexivity].
Qed.

Lemma load_stored_printed (v : World) (store : gmap string string) (arr : JsArray) :
  localStorage v = Some store ->
  store !! "stations" = Some (stringify_stations arr) ->
  run App.load_stored v
  = run (forEach (map Station.toJSON (items arr)) App.merge_stored)
      (set_logs (logs v ++ [(DEBUG, "Loaded stations object from localstorage")]) v).
Proof.
  intros Hs Ht. unfold run, App.load_stored, bind, get. cbv beta iota.
  rewrite Hs, Ht, stations_round_trip.
  change (is_empty (stringify_stations arr)) with false. reflexivity.
Qed.

Lemma storage_after_bind {A B} (m : M A) (k : A -> M B) (w : World) :
  (forall a, preserves quietly (k a)) ->
  localStorage (run (bind m k) w) = localStorage (run m w).
Proof.
  intros Hk. unfold run, bind. destruct (m w) as [[a|e] w1]; [apply Hk | reflexivity].
Qed.

Lemma merge_keeps_storage (records : list Json) (v : World) :
  localStorage (run (forEach records App.merge_stored) v) = localStorage v.
Proof.
  revert v. induction records as [|record records IH]; intros v; [reflexivity|].
  cbn [forEach]. unfold run, bind. rewrite merge_stored_cases.
  destruct (Station.fromJSON _ _); [destruct (decide _)|]; cbn [snd];
    unfold run in IH; now rewrite IH.
Qed.

(** X25. What the page stored comes back after a reload. On a page with a
    [localStorage], whose snapshot is in step and whose stations are all
    valid, reload the browser and run [beforeMount] with any seed list: the
    snapshot parses and is left in storage as it is; the id of every station
    the registry had is in the registry again; a station whose id is not the
    id of a valid seed is there with its title, description and sources,
    when the ids of the registry were distinct; and under the id of a valid
    seed stands the seed, whatever was stored under it. *)
Theorem stations_survive_a_reload (seeds : list Raw.t) (w : World) :
  localStorage w <> None ->
  in_sync w ->
  valid_page w ->
  let w' := run (App.beforeMount seeds) (reloaded w) in
  localStorage w' = localStorage w
  /\ (forall st, st ∈ items (stations w) -> Station.id st ∈ ids (stations w'))
  /\ (distinct_ids w ->
      forall st, st ∈ items (stations w) ->
        Station.id st ∉ map Station.id (validated 0 seeds) ->
        exists a, Station.clone a st ∈ items (stations w'))
  /\ (forall st', st' ∈ items (stations w') ->
        Station.id st' ∈ map Station.id (validated 0 seeds) -> st' ∈ validated 0 seeds).
Proof.
  intros Hstore Hsync [Hall _] w'.
  destruct (localStorage w) as [store|] eqn:Hs; [clear Hstore | contradiction].
  pose proof (Hsync store Hs) as Hsnap.
  set (logged := set_logs [(DEBUG, "Application BEFORE MOUNT")] (reloaded w)).
  destruct (seed_all_state seeds logged) as [l Hseed].
  change (heap_next logged) with 0%nat in Hseed.
  set (vs := validated 0 seeds) in *.
  set (v := set_logs (logs logged ++ l) (after_seed vs logged)) in *.
  destruct (after_seed_fields vs logged) as (_ & Hst & _ & _ & _ & Hi).
  change (localStorage (after_seed vs logged)) with (localStorage v) in Hst.
  change (stations (after_seed vs logged)) with (stations v) in Hi.
  cbn [localStorage stations items logged set_logs reloaded empty_array app] in Hst, Hi.
  rewrite Hs in Hst.
  set (v2 := set_logs (logs v ++ [(DEBUG, "Loaded stations object from localstorage")]) v).
  assert (Hload : run App.load_stored v
                  = run (forEach (map Station.toJSON (items (stations w))) App.merge_stored) v2)
    by exact (load_stored_printed v store (stations w) Hst Hsnap).
  assert (Hreconcile : run (App.reconcile seeds) logged = run App.load_stored v).
  { unfold run, App.reconcile, bind. now rewrite Hseed. }
  assert (Hstations : stations w'
            = stations (run (forEach (map Station.toJSON (items (stations w))) App.merge_stored) v2)).
  { change w' with (run (bind (App.reconcile seeds) (fun _ => App.initial_station)) logged).
    rewrite stations_after_bind by (intros _; apply keeps_initial_station).
    now rewrite Hreconcile, Hload. }
  assert (Hstorage : localStorage w' = Some store).
  { change w' with (run (bind (App.reconcile seeds) (fun _ => App.initial_station)) logged).
    rewrite storage_after_bind by (intros _; apply quiet_initial_station).
    rewrite Hreconcile, Hload, merge_keeps_storage. exact Hst. }
  split; [exact Hstorage|]. rewrite Hstations.
  split; [|split].
  - intros st Hin. now destruct (merge_printed (items (stations w)) v2 st Hall Hin).
  - intros Hnd st Hin Hout.
    destruct (merge_printed (items (stations w)) v2 st Hall Hin) as [_ Hfields].
    apply Hfields; [exact Hnd|]. unfold ids. change (stations v2) with (stations v).
    now rewrite Hi.
  - intros st' Hin' Hseeded.
    destruct (merge_loop_appends (map Station.toJSON (items (stations w))) v2)
      as [_ (added & Heq & Hfresh)].
    rewrite Heq in Hin'. cbn [items] in Hin'. change (stations v2) with (stations v) in Hin', Hfresh.
    rewrite Hi in Hin'. apply elem_of_app in Hin' as [Hin'|Hin']; [exact Hin'|].
    rewrite Forall_forall in Hfresh. exfalso. apply (Hfresh st' Hin').
    unfold ids. now rewrite Hi.
Qed.

Lemma stations_survive_a_reload_witness :
  "chill_out" ∈ ids (stations (run (App.beforeMount [liquid_radio; jazz_fm])
                                 (reloaded (turn Add chill_draft)))).
Proof.
  assert (H1 : localStorage (turn Add chill_draft) <> None)
    by (vm_compute; discriminate).
  assert (H2 : in_sync (turn Add chill_draft))
    by (apply in_sync_of_snapshot; vm_compute; reflexivity).
  assert (H3 : valid_page (turn Add chill_draft)).
  { split.
    - vm_compute. repeat constructor.
    - intros current Hc. vm_compute in Hc. injection Hc as <-. reflexivity. }
  assert (H4 : Station.mk 2 "chill_out" "Chill Out" ""
                 [ {| src := "http://chill/stream"; type := "" |} ]
               ∈ items (stations (turn Add chill_draft))).
  { vm_compute. right. right. left. }
  destruct (stations_survive_a_reload [liquid_radio; jazz_fm] (turn Add chill_draft) H1 H2 H3)
    as (_ & Hids & _).
  exact (Hids _ H4).
Defined.

Lemma save_keeps_the_flag (w : World) :
  stationsChanged (run StationEditor.saveStationEdit w) = stationsChanged w.
Proof.
  unfold run. destruct (selectedStation w) as [d|] eqn:Hd.
  - rewrite (saveStationEdit_cases w d Hd). cbv zeta.
    destruct (Station.new _ _ _ _ _); destruct (_ =? -1); reflexivity.
  - rewrite (saveStationEdit_no_draft w Hd). reflexivity.
Qed.

(** X26. An edit that is saved does not reach the next start. When no
    change of the registry waits for the watcher, the page a reload starts
    from after the save button is the page it would have started from
    without it: [saveStationEdit] assigns into the array, the watcher of the
    stations does not run, and the storage is as before. *)
Theorem saved_edit_is_lost_on_reload (w : World) :
  stationsChanged w = false ->
  reloaded (turn Save w) = reloaded w.
Proof.
  intros Hc. unfold turn, event. cbn [act].
  destruct (saveStationEdit_session w) as (_ & Hroute & _ & Hstore & _).
  pose proof (save_keeps_the_flag w) as Hflag. rewrite Hc in Hflag.
  assert (Hflush : run App.flush (run StationEditor.saveStationEdit w)
                   = run StationEditor.saveStationEdit w).
  { unfold run at 1. now rewrite flush_cases, Hflag. }
  rewrite Hflush. unfold reloaded. now rewrite Hroute, Hstore.
Qed.

Lemma saved_edit_is_lost_on_reload_witness :
  reloaded (turn Save edited) = reloaded edited
  /\ stations (turn Save edited) <> stations edited.
Proof.
  assert (H1 : stationsChanged edited = false) by (vm_compute; reflexivity).
  split; [exact (saved_edit_is_lost_on_reload edited H1)|].
  vm_compute. intros H. discriminate H.
Defined.

(** X27. The save button on a draft the constructor rejects: the handler
    returns, the error of the constructor is left for the dialog to show,
    the dialog stays as it is, and neither the registry nor the draft is
    written. *)
Theorem save_rejects_an_invalid_draft (w : World) (d : Draft.t) (e : Error) :
  selectedStation w = Some d ->
  Station.new (heap_next w) (Draft.id d) (Draft.title d) (Draft.description d) (Draft.source d)
  = Throw e ->
  let w' := run StationEditor.saveStationEdit w in
  outcome StationEditor.saveStationEdit w = Ok tt
  /\ validationError w' = Some e
  /\ stations w' = stations w
  /\ selectedStation w' = Some d
  /\ dialogOpen w' = dialogOpen w.
Proof.
  intros Hd Hnew w'. unfold w', outcome, run. rewrite (saveStationEdit_cases w d Hd). cbv zeta.
  rewrite Hnew. destruct (_ =? -1); cbn; rewrite ?Hd; auto.
Qed.

Lemma save_rejects_an_invalid_draft_witness :
  validationError
    (run StationEditor.saveStationEdit
       (run (Dialog.input (Dialog.Title "")) (run (StationEditor.open "jazz_fm") started)))
  = Some InvalidTitle.
Proof.
  assert (H1 : selectedStation
                 (run (Dialog.input (Dialog.Title "")) (run (StationEditor.open "jazz_fm") started))
               = Some (Draft.mk false "jazz_fm" "" ""
                         [ {| src := "http://x/stream"; type := "audio/mpeg" |} ]))
    by (vm_compute; reflexivity).
  assert (H2 : Station.new
                 (heap_next (run (Dialog.input (Dialog.Title ""))
                               (run (StationEditor.open "jazz_fm") started)))
                 "jazz_fm" "" "" [ {| src := "http://x/stream"; type := "audio/mpeg" |} ]
               = Throw InvalidTitle) by reflexivity.
  destruct (save_rejects_an_invalid_draft _ _ _ H1 H2) as (_ & Herr & _).
  exact Herr.
Defined.
